(** * jupytutor: rule resolution and remote context retrieval

    A shallow embedding of [src/helpers/config-rules.ts] (predicate
    evaluation, cell-context building, rule merging, with the rule
    configuration schema of [src/schemas/config.ts]) and of
    [src/helpers/prompt-context/globalNotebookContextRetrieval.ts] (URL
    normalisation, JupyterBook link expansion, the retriever's background
    task), followed by the properties established about them.

    Conventions.  JavaScript strings are [string] (the development only
    inspects ASCII delimiters, so code units and bytes coincide on what is
    examined); [undefined] is [None]; integers are [Z] or [N]; a function
    that can throw returns [option], [None] standing for the exception.
    What the code takes from its platform (the [URL] class, the regular
    expressions, [localeCompare], the pages behind [fetch]) is a parameter
    of the definitions that use it. *)

From Stdlib Require Import ZArith NArith String Ascii List Bool Lia.
From Stdlib Require Import DecimalString Sorted Permutation SpecFloat.
From stdpp Require Import base option gmap strings list.
Import ListNotations.

Set Warnings "-register-all".

Local Open Scope string_scope.
Local Open Scope bool_scope.

(** ** JavaScript strings *)

Module JS.

(** [s.startsWith(p)] *)
Definition startsWith (s p : string) : bool := String.prefix p s.

(** [s.slice(n)] for [0 <= n] *)
Fixpoint drop (n : nat) (s : string) : string :=
  match n, s with
  | O, _ => s
  | S _, EmptyString => EmptyString
  | S n', String _ s' => drop n' s'
  end.

(** [s.includes(p)]: [p] occurs somewhere in [s]. *)
Fixpoint includes (s p : string) : bool :=
  String.prefix p s
  || match s with
     | EmptyString => false
     | String _ s' => includes s' p
     end.

(** [s.endsWith(p)] *)
Fixpoint endsWith (s p : string) : bool :=
  String.eqb s p
  || match s with
     | EmptyString => false
     | String _ s' => endsWith s' p
     end.

(** [s.slice(0, -1)] *)
Fixpoint dropLast (s : string) : string :=
  match s with
  | EmptyString => EmptyString
  | String _ EmptyString => EmptyString
  | String c s' => String c (dropLast s')
  end.

(** The first occurrence of [p] in [s]: the text before it and the text
    after it ([s.indexOf(p)] read as a split). *)
Fixpoint splitFirst (s p : string) : option (string * string) :=
  if String.prefix p s then Some (EmptyString, drop (String.length p) s)
  else match s with
       | EmptyString => None
       | String c s' =>
           match splitFirst s' p with
           | Some (before, after) => Some (String c before, after)
           | None => None
           end
       end.

(** ECMAScript GetSubstitution for a string pattern (no capture groups):
    in the replacement text [$$] is a dollar sign, [$&] the matched text,
    [$`] the text before the match and [$'] the text after it; any other
    character, a lone [$] included, stands for itself. *)
Fixpoint getSubstitution (matched before after replacement : string) : string :=
  match replacement with
  | EmptyString => EmptyString
  | String "$" (String "$" r) =>
      String "$" (getSubstitution matched before after r)
  | String "$" (String "&" r) =>
      matched +:+ getSubstitution matched before after r
  | String "$" (String "`" r) =>
      before +:+ getSubstitution matched before after r
  | String "$" (String "'" r) =>
      after +:+ getSubstitution matched before after r
  | String c r => String c (getSubstitution matched before after r)
  end.

(** [s.replace(pattern, replacement)] with a string pattern: only the first
    occurrence is replaced, and the replacement text goes through
    [getSubstitution]. *)
Definition replace (s pattern replacement : string) : string :=
  match splitFirst s pattern with
  | None => s
  | Some (before, after) =>
      before +:+ getSubstitution pattern before after replacement +:+ after
  end.

(** The substitution the name suggests: the first occurrence of [pattern]
    is replaced by [replacement] taken literally. *)
Definition replaceLiteral (s pattern replacement : string) : string :=
  match splitFirst s pattern with
  | None => s
  | Some (before, after) => before +:+ replacement +:+ after
  end.

(** The line feed, ['\n']. *)
Definition LF : string := String (ascii_of_nat 10) EmptyString.

(** A string is truthy when it is not empty. *)
Definition nonEmpty (s : string) : bool := negb (String.eqb s EmptyString).

(** [parts.join(sep)] on strings *)
Fixpoint join (sep : string) (parts : list string) : string :=
  match parts with
  | [] => EmptyString
  | [x] => x
  | x :: rest => x +:+ sep +:+ join sep rest
  end.

(** ASCII lower-casing, as the URL parser applies to scheme and host. *)
Definition lowerChar (c : ascii) : ascii :=
  let n := nat_of_ascii c in
  if ((65 <=? n)%nat && (n <=? 90)%nat) then ascii_of_nat (n + 32) else c.

Fixpoint toLowerCase (s : string) : string :=
  match s with
  | EmptyString => EmptyString
  | String c s' => String (lowerChar c) (toLowerCase s')
  end.

Definition isDigit (c : ascii) : bool :=
  let n := nat_of_ascii c in (48 <=? n)%nat && (n <=? 57)%nat.

(** The longest prefix of decimal digits and the rest. *)
Fixpoint spanDigits (s : string) : string * string :=
  match s with
  | String c s' =>
      if isDigit c then let (d, r) := spanDigits s' in (String c d, r)
      else (EmptyString, s)
  | EmptyString => (EmptyString, EmptyString)
  end.

(** The number a string of decimal digits writes. *)
Definition decimal (d : string) : N :=
  let step (acc : N) (c : ascii) : N :=
    (acc * 10 + (N_of_ascii c - 48))%N in
  fold_left step (list_ascii_of_string d) 0%N.

(** [parseInt(d)] on a string of decimal digits: the double nearest to the
    number written (ties to even), which is that number up to 2^53.  Such a
    double is an integer or [Infinity]; it is kept as that integer, and
    [Infinity] as 2^1024, the first power of two beyond the doubles.  The
    code compares these values with [!==] and takes the sign of their
    differences: both are the same on the integers kept here. *)
Definition parseInt (d : string) : Z :=
  match binary_normalize 53 1024 (Z.of_N (decimal d)) 0 false with
  | S754_finite _ m e => Z.shiftl (Z.pos m) e
  | S754_infinity _ => (2 ^ 1024)%Z
  | _ => 0%Z
  end.

(** *** JSON values

    What [toJSON()] and cell metadata hold.  Numbers are kept to the
    integers; a missing property ([undefined]) is [None] at the lookup. *)
Inductive json : Type :=
  | JNull
  | JBool (b : bool)
  | JNum (n : Z)
  | JStr (s : string)
  | JArr (items : list json)
  | JObj (fields : list (string * json)).

Fixpoint assoc (key : string) (fields : list (string * json)) : option json :=
  match fields with
  | [] => None
  | (k, v) :: rest => if String.eqb k key then Some v else assoc key rest
  end.

(** [value[key]] ([value.key]): defined only on objects that carry the key. *)
Definition get (value : json) (key : string) : option json :=
  match value with
  | JObj fields => assoc key fields
  | _ => None
  end.

(** [a ?? b] *)
Definition nullish (a b : option json) : option json :=
  match a with
  | None | Some JNull => b
  | Some _ => a
  end.

(** [!value] is false: [null], [false], [0] and the empty string are falsy. *)
Definition truthy (value : json) : bool :=
  match value with
  | JNull => false
  | JBool b => b
  | JNum n => negb (Z.eqb n 0)
  | JStr s => negb (String.eqb s EmptyString)
  | JArr _ | JObj _ => true
  end.

Definition numberToString (n : Z) : string :=
  NilEmpty.string_of_int (Z.to_int n).

(** [String(value)]; inside an array, [null] prints as the empty string and
    the items are joined by commas. *)
Fixpoint toString (value : json) : string :=
  match value with
  | JNull => "null"
  | JBool true => "true"
  | JBool false => "false"
  | JNum n => numberToString n
  | JStr s => s
  | JArr items =>
      join "," (map (fun item => match item with
                                 | JNull => EmptyString
                                 | _ => toString item
                                 end) items)
  | JObj _ => "[object Object]"
  end.

(** [items.join(sep)] on an array of JSON values *)
Definition joinItems (sep : string) (items : list json) : string :=
  join sep (map (fun item => match item with
                             | JNull => EmptyString
                             | _ => toString item
                             end) items).

Definition hexDigit (n : nat) : ascii :=
  if (n <? 10)%nat then ascii_of_nat (48 + n) else ascii_of_nat (87 + n).

(** The escape of one character inside a JSON string literal. *)
Definition quoteChar (c : ascii) : string :=
  let n := nat_of_ascii c in
  if (n =? 34)%nat then "\" +:+ String c EmptyString
  else if (n =? 92)%nat then "\\"
  else if (n =? 8)%nat then "\b"
  else if (n =? 9)%nat then "\t"
  else if (n =? 10)%nat then "\n"
  else if (n =? 12)%nat then "\f"
  else if (n =? 13)%nat then "\r"
  else if (n <? 32)%nat then
    "\u00" +:+ String (hexDigit (n / 16)) (String (hexDigit (n mod 16)) EmptyString)
  else String c EmptyString.

Fixpoint quoteBody (s : string) : string :=
  match s with
  | EmptyString => EmptyString
  | String c s' => quoteChar c +:+ quoteBody s'
  end.

Definition quote (s : string) : string :=
  let dq := String (ascii_of_nat 34) EmptyString in
  dq +:+ quoteBody s +:+ dq.

(** [JSON.stringify(value)] without indentation. *)
Fixpoint stringify (value : json) : string :=
  match value with
  | JNull => "null"
  | JBool true => "true"
  | JBool false => "false"
  | JNum n => numberToString n
  | JStr s => quote s
  | JArr items => "[" +:+ join "," (map stringify items) +:+ "]"
  | JObj fields =>
      "{" +:+ join "," (map (fun kv => quote (fst kv) +:+ ":" +:+ stringify (snd kv))
                            fields) +:+ "}"
  end.

End JS.


(** ** config-rules.ts *)

Module Rules.
Import JS.

(** [CellContext['type']] *)
Inductive CellKind : Type := code | markdown | unknown.

Definition kindName (k : CellKind) : string :=
  match k with
  | code => "code"
  | markdown => "markdown"
  | unknown => "unknown"
  end.

Record CellContext : Type := {
  type : CellKind;
  text : string;
  editable : bool;
  tags : list string;
  outputText : string;
  hasError : bool
}.

(** What the code reads of an [ICellModel]: [cell.type], the text of
    [cell.sharedModel.getSource()], the keyed metadata behind
    [cell.getMetadata], and for a code cell the [toJSON()] of each entry of
    [cell.outputs], in order. *)
Record ICellModel : Type := {
  cell_type : string;
  cell_source : string;
  cell_metadata : gmap string json;
  cell_outputs : list json
}.

Definition getMetadata (cell : ICellModel) (key : string) : option json :=
  cell_metadata cell !! key.

(** [Array.isArray(t) ? t.join('\n') : String(t)] *)
Definition textOf (t : json) : string :=
  match t with
  | JArr items => joinItems LF items
  | _ => toString t
  end.

Definition extractOutputText (output : json) : string :=
  if negb (truthy output) then EmptyString
  else
    let data := get output "data" in
    let textPlain :=
      match data with
      | Some ((JObj _ | JArr _) as d) => nullish (get d "text/plain") (get d "text")
      | _ => None
      end in
    match textPlain with
    | Some t => textOf t
    | None =>
        match get output "text" with
        | Some textValue => textOf textValue
        | None =>
            match get output "evalue" with
            | Some evalue => toString evalue
            | None => stringify output
            end
        end
    end.

Definition extractOutputsAsText (outputs : list json) : string :=
  join LF (List.filter nonEmpty (map extractOutputText outputs)).

(** The output models' [type] accessor mirrors the [output_type] of their
    JSON form, which is what is read here. *)
Definition detectOutputError (outputs : list json) : bool :=
  existsb (fun output =>
             match get output "output_type" with
             | Some (JStr t) => String.eqb t "error"
             | _ => false
             end) outputs.

Definition isString (v : json) : option string :=
  match v with JStr s => Some s | _ => None end.

Definition buildCellContext (cell : ICellModel) : CellContext :=
  let type :=
    if String.eqb (cell_type cell) "code" then code
    else if String.eqb (cell_type cell) "markdown" then markdown
    else unknown in
  let text := cell_source cell in
  let editable :=
    match getMetadata cell "editable" with
    | Some v => truthy v
    | None => true
    end in
  let tags :=
    omap isString
         match getMetadata cell "tags" with
         | Some (JArr items) => items
         | _ => []
         end in
  let outputText :=
    match type with code => extractOutputsAsText (cell_outputs cell) | _ => EmptyString end in
  let hasError :=
    match type with code => detectOutputError (cell_outputs cell) | _ => false end in
  {| type := type; text := text; editable := editable; tags := tags;
     outputText := outputText; hasError := hasError |}.

(** *** Predicates *)

(** Modelled from the spec: the predicate schema ([schemas/predicate]) is
    not among the sources; the shapes below are the ones the spec's data
    model lists and [evaluatePredicate] dispatches on.  [MUnknown],
    [AUnknown] and [PUnknown] stand for any shape none of the tests of the
    evaluators recognises. *)
Inductive StringMatch : Type :=
  | MLiteral (s : string)
  | MIs (s : string)
  | MMatchesRegex (pattern : string) (flags : option string)
  | MUnknown.

Inductive ArrayMatch : Type :=
  | AAny (m : StringMatch)
  | AAll (m : StringMatch)
  | AUnknown.

Inductive CellTypeMatch : Type :=
  | CLiteral (s : string)
  | CIs (s : string).

Inductive Predicate : Type :=
  | PAnd (inner : list Predicate)
  | POr (inner : list Predicate)
  | PNot (inner : Predicate)
  | PNearbyCell (relativePosition : Z) (matches : Predicate)
  | PCellType (expected : CellTypeMatch)
  | POutput (m : StringMatch)
  | PHasError (b : bool)
  | PContent (m : StringMatch)
  | PIsEditable (b : bool)
  | PTags (m : ArrayMatch)
  | PUnknown.

Section Evaluation.

(** [new RegExp(pattern, flags)] followed by [regex.test]: [None] when the
    constructor throws (malformed pattern or flags), otherwise the test
    of the compiled expression. *)
Context (RegExp : string -> string -> option (string -> bool)).

Definition evaluateStringPredicate (value : string) (predicate : StringMatch) : bool :=
  match predicate with
  | MLiteral s => String.eqb value s
  | MIs s => String.eqb value s
  | MMatchesRegex pattern flags =>
      match RegExp pattern (default EmptyString flags) with
      | Some test => test value
      | None => false
      end
  | MUnknown => false
  end.

Definition evaluateArrayPredicate (values : list string) (predicate : ArrayMatch) : bool :=
  match predicate with
  | AAny m => existsb (fun value => evaluateStringPredicate value m) values
  | AAll m => forallb (fun value => evaluateStringPredicate value m) values
  | AUnknown => false
  end.

Fixpoint evaluatePredicate (predicate : Predicate)
         (contextForIndex : Z -> option CellContext) (cellIndex : Z) {struct predicate} : bool :=
  match predicate with
  | PAnd inner =>
      forallb (fun p => evaluatePredicate p contextForIndex cellIndex) inner
  | POr inner =>
      existsb (fun p => evaluatePredicate p contextForIndex cellIndex) inner
  | PNot inner => negb (evaluatePredicate inner contextForIndex cellIndex)
  | PNearbyCell relativePosition matches =>
      let nearbyIndex := (cellIndex + relativePosition)%Z in
      evaluatePredicate matches contextForIndex nearbyIndex
  | _ =>
      match contextForIndex cellIndex with
      | None => false
      | Some context =>
          match predicate with
          | PCellType expected =>
              let expectedValue :=
                match expected with CLiteral s => s | CIs s => s end in
              String.eqb expectedValue (kindName (type context))
          | POutput m =>
              if negb (nonEmpty (outputText context)) then false
              else evaluateStringPredicate (outputText context) m
          | PHasError b => Bool.eqb b (hasError context)
          | PContent m => evaluateStringPredicate (text context) m
          | PIsEditable b => Bool.eqb b (editable context)
          | PTags m => evaluateArrayPredicate (tags context) m
          | _ => false
          end
      end
  end.

End Evaluation.

(** *** Rule configuration *)

Record RuleConfigOverride : Type := {
  chatEnabled : bool;
  chatProactive : bool;
  instructorNote : string;
  quickResponses : list string
}.

(** [Partial<RuleConfigOverride>]: [None] is an absent key. *)
Record PartialRuleConfig : Type := {
  chatEnabled' : option bool;
  chatProactive' : option bool;
  instructorNote' : option string;
  quickResponses' : option (list string)
}.

(** [RuleConfigOverrideSchema.parse({})]: the schema's defaults. *)
Definition baseConfig : RuleConfigOverride :=
  {| chatEnabled := false; chatProactive := true;
     instructorNote := EmptyString; quickResponses := [] |}.

Definition priorNotesPlaceholder : string := "{{prior_notes}}".

Definition mergeRuleConfigs (current : RuleConfigOverride) (update : PartialRuleConfig)
  : RuleConfigOverride :=
  let instructorNote0 := instructorNote current in
  let instructorNote1 :=
    match instructorNote' update with
    | Some note =>
        if includes note priorNotesPlaceholder
        then replace note priorNotesPlaceholder instructorNote0
        else note
    | None => instructorNote0
    end in
  {| chatEnabled := default (chatEnabled current) (chatEnabled' update);
     chatProactive := default (chatProactive current) (chatProactive' update);
     instructorNote := instructorNote1;
     quickResponses := default (quickResponses current) (quickResponses' update) |}.

Record Rule : Type := {
  when : option Predicate;
  config : PartialRuleConfig
}.

(** **** Validation of a cell's [jupytutor] metadata *)

Definition isBoolean (v : json) : option bool :=
  match v with JBool b => Some b | _ => None end.

Definition isStringArray (v : json) : option (list string) :=
  match v with
  | JArr items => mapM isString items
  | _ => None
  end.

(** One key of [RuleConfigOverrideSchema.partial()]: an absent key passes
    and comes out with the schema default (the defaults the comment in
    [applyConfigRules] speaks of); a present key must have the declared
    type. *)
Definition parseKey {A : Type} (decode : json -> option A) (dflt : A) (raw : option json)
  : option (option A) :=
  match raw with
  | None => Some (Some dflt)
  | Some v =>
      match decode v with
      | Some a => Some (Some a)
      | None => None
      end
  end.

(** [RuleConfigOverrideSchema.partial().safeParse(raw)]: [Some data] on
    success; unknown keys are dropped. *)
Definition safeParse (raw : list (string * json)) : option PartialRuleConfig :=
  match parseKey isBoolean false (assoc "chatEnabled" raw),
        parseKey isBoolean true (assoc "chatProactive" raw),
        parseKey isString EmptyString (assoc "instructorNote" raw),
        parseKey isStringArray [] (assoc "quickResponses" raw) with
  | Some ce, Some cp, Some note, Some qr =>
      Some {| chatEnabled' := ce; chatProactive' := cp;
              instructorNote' := note; quickResponses' := qr |}
  | _, _, _, _ => None
  end.

Definition emptyOverride : PartialRuleConfig :=
  {| chatEnabled' := None; chatProactive' := None;
     instructorNote' := None; quickResponses' := None |}.

(** [explicitOverride[key] = parseResult.data[key]] when
    [key in RuleConfigOverrideSchema.shape] *)
Definition copyKey (data acc : PartialRuleConfig) (key : string) : PartialRuleConfig :=
  if String.eqb key "chatEnabled" then
    {| chatEnabled' := chatEnabled' data; chatProactive' := chatProactive' acc;
       instructorNote' := instructorNote' acc; quickResponses' := quickResponses' acc |}
  else if String.eqb key "chatProactive" then
    {| chatEnabled' := chatEnabled' acc; chatProactive' := chatProactive' data;
       instructorNote' := instructorNote' acc; quickResponses' := quickResponses' acc |}
  else if String.eqb key "instructorNote" then
    {| chatEnabled' := chatEnabled' acc; chatProactive' := chatProactive' acc;
       instructorNote' := instructorNote' data; quickResponses' := quickResponses' acc |}
  else if String.eqb key "quickResponses" then
    {| chatEnabled' := chatEnabled' acc; chatProactive' := chatProactive' acc;
       instructorNote' := instructorNote' acc; quickResponses' := quickResponses' data |}
  else acc.

(** The loop over [Object.keys(raw)]. *)
Definition explicitOverride (raw : list (string * json)) (data : PartialRuleConfig)
  : PartialRuleConfig :=
  fold_left (copyKey data) (map fst raw) emptyOverride.

Section Resolution.

Context (RegExp : string -> string -> option (string -> bool)).

(** [RuleConfigOverrideSchema.partial().parse] on a rule's configuration,
    which the plugin configuration schema has already typed; what the
    validation library does to its absent keys is left open. *)
Context (parseRuleConfig : PartialRuleConfig -> PartialRuleConfig).

(** [notebookModel.cells.get(index)] *)
Definition cellAt (cells : list ICellModel) (index : Z) : option ICellModel :=
  if (index <? 0)%Z then None else nth_error cells (Z.to_nat index).

(** The per-call cache only saves rebuilding a context; the lookup it
    memoises is this function. *)
Definition getCellContext (cells : list ICellModel) (index : Z) : option CellContext :=
  if (index <? 0)%Z || (Z.of_nat (List.length cells) <=? index)%Z then None
  else
    match cellAt cells index with
    | None => None
    | Some cell => Some (buildCellContext cell)
    end.

Definition applyRule (cells : list ICellModel) (cellIndex : Z)
           (mergedConfig : RuleConfigOverride) (rule : Rule) : RuleConfigOverride :=
  let parsedRuleConfig := parseRuleConfig (config rule) in
  let applies :=
    match when rule with
    | None => true
    | Some predicate => evaluatePredicate RegExp predicate (getCellContext cells) cellIndex
    end in
  if applies then mergeRuleConfigs mergedConfig parsedRuleConfig else mergedConfig.

Definition applyConfigRules (cells : list ICellModel) (cellIndex : Z) (configRules : list Rule)
  : RuleConfigOverride :=
  let mergedConfig := fold_left (applyRule cells cellIndex) configRules baseConfig in
  match cellAt cells cellIndex with
  | None => mergedConfig
  | Some cell =>
      match getMetadata cell "jupytutor" with
      | Some (JObj raw) =>
          match safeParse raw with
          | Some data => mergeRuleConfigs mergedConfig (explicitOverride raw data)
          | None => mergedConfig
          end
      | _ => mergedConfig
      end
  end.

End Resolution.

End Rules.

(** ** The platform's [URL] class

    [new URL(..)], the accessors and the setters the code uses are those
    of the platform.  They are taken as they come: an instance of
    [UrlApi] is a URL library, and what is proved of the code below is
    proved for every such library. *)

Module Url.

Class UrlApi : Type := {
  (** The URL objects. *)
  URL : Type;
  (** [new URL(s)]; [None] when it throws. *)
  newURL : string -> option URL;
  (** [url.href] *)
  href : URL -> string;
  (** [url.pathname] *)
  pathname : URL -> string;
  (** [url.hash = value] *)
  setHash : URL -> string -> URL;
  (** [url.pathname = value] *)
  setPathname : URL -> string -> URL
}.

(** [new URL(s).pathname]; [None] when [new URL] throws. *)
Definition pathnameOf `{api : UrlApi} (s : string) : option string :=
  pathname <$> newURL s.

End Url.

(** ** globalNotebookContextRetrieval.ts *)

Module Retrieval.
Import JS Url.

Definition normalizeUrl `{api : UrlApi} (url : string) : string :=
  match newURL url with
  | Some urlObj =>
      let urlObj := setHash urlObj EmptyString in
      let urlObj :=
        if (1 <? String.length (pathname urlObj))%nat && endsWith (pathname urlObj) "/"
        then setPathname urlObj (dropLast (pathname urlObj))
        else urlObj in
      href urlObj
  | None => url
  end.

(** *** The three patterns over a path *)

(** The leftmost position of [s] at which [m] succeeds. *)
Fixpoint findMatch {A : Type} (m : string -> option A) (s : string) : option A :=
  match m s with
  | Some a => Some a
  | None =>
      match s with
      | EmptyString => None
      | String _ s' => findMatch m s'
      end
  end.

(** [/chapters/(\d+)] anchored at the start: the digits and what follows. *)
Definition atChapter (s : string) : option (string * string) :=
  if String.prefix "/chapters/" s then
    let (digits, rest) := spanDigits (drop 10 s) in
    if String.eqb digits EmptyString then None else Some (digits, rest)
  else None.

(** [/(\d+)] anchored at the start. *)
Definition atNumber (s : string) : option string :=
  match s with
  | String "/" s' =>
      let (digits, _) := spanDigits s' in
      if String.eqb digits EmptyString then None else Some digits
  | _ => None
  end.

(** [path.match(/\/chapters\/(\d+)/)]: group 1 *)
Definition matchChapter (path : string) : option string :=
  findMatch (fun s => match atChapter s with
                      | Some (chapter, _) => Some chapter
                      | None => None
                      end) path.

(** [path.match(/\/chapters\/(\d+)\/(\d+)/)]: groups 1 and 2 *)
Definition matchSubsection (path : string) : option (string * string) :=
  findMatch (fun s => match atChapter s with
                      | Some (chapter, rest) =>
                          match atNumber rest with
                          | Some subsection => Some (chapter, subsection)
                          | None => None
                          end
                      | None => None
                      end) path.

(** [path.match(/\/chapters\/(\d+)(?:\/(\d+))?/)]: group 1 and the optional
    group 2 *)
Definition matchChapterSection (path : string) : option (string * option string) :=
  findMatch (fun s => match atChapter s with
                      | Some (chapter, rest) => Some (chapter, atNumber rest)
                      | None => None
                      end) path.

(** *** [Array.prototype.sort]

    The sort is stable; with a comparator that orders its arguments
    consistently the result is the one of this insertion sort. *)
Section Sort.
Context {A : Type} (compare : A -> A -> Z).

Fixpoint insertSorted (x : A) (sorted : list A) : list A :=
  match sorted with
  | [] => [x]
  | y :: rest =>
      if (compare x y <=? 0)%Z then x :: sorted else y :: insertSorted x rest
  end.

Fixpoint sort (items : list A) : list A :=
  match items with
  | [] => []
  | x :: rest => insertSorted x (sort rest)
  end.
End Sort.

(** A comparator that parses its arguments with [new URL] throws on an
    address that does not parse; with fewer than two items it is never
    called. *)
Definition sortLinks `{api : UrlApi} (compare : string -> string -> Z) (links : list string)
  : option (list string) :=
  if (List.length links <=? 1)%nat then Some links
  else if forallb (fun link => bool_decide (is_Some (pathnameOf link))) links
       then Some (sort compare links)
       else None.

(** [if (target)] on a string or null: a non-empty string. *)
Definition given (target : option string) : bool :=
  match target with
  | Some t => nonEmpty t
  | None => false
  end.

(** The path a comparator reads in a link; [sortLinks] has made sure that
    every link it compares has one. *)
Definition pathOf `{api : UrlApi} (link : string) : string :=
  default EmptyString (pathnameOf link).

(** [m ? parseInt(m[i]) : 0] *)
Definition number (digits : option string) : Z :=
  match digits with
  | Some d => parseInt d
  | None => 0%Z
  end.

Section Expansion.

Context `{api : UrlApi}.

(** [a.localeCompare(b)] *)
Context (localeCompare : string -> string -> Z).

(** The page behind [fetch(pageUrl)]: [None] when the request fails or
    answers with an error status, otherwise the [href] values the anchor
    pattern finds in the page, in document order. *)
Context (fetchHrefs : string -> option (list string)).

(** [new URL(href, pageUrl).href]; [None] when it throws. *)
Context (resolve : string -> string -> option string).

Definition isChapterSectionLink (pathname : string)
           (targetChapter targetSubsection : option string) : bool :=
  if includes pathname "/_sources/" || includes pathname "/_static/"
     || includes pathname "/_images/" || endsWith pathname ".ipynb"
     || endsWith pathname ".pdf" || endsWith pathname ".zip"
     || endsWith pathname ".tar.gz"
  then false
  else if negb (includes pathname "/chapters/") then false
  else
    let chapterMatch := matchChapter pathname in
    let sameChapter :=
      match chapterMatch with
      | Some linkChapter => bool_decide (Some linkChapter = targetChapter)
      | None => false
      end in
    if given targetSubsection then sameChapter
    else if given targetChapter then sameChapter
    else false.

Definition compareChapterSection (a b : string) : Z :=
  let aPath := pathOf a in
  let bPath := pathOf b in
  let aChapter := number (matchChapter aPath) in
  let aSubsection := number (snd <$> matchSubsection aPath) in
  let bChapter := number (matchChapter bPath) in
  let bSubsection := number (snd <$> matchSubsection bPath) in
  if negb (aChapter =? bChapter)%Z then (aChapter - bChapter)%Z
  else if negb (aSubsection =? bSubsection)%Z then (aSubsection - bSubsection)%Z
  else localeCompare aPath bPath.

Definition sortChapterSectionLinks (links : list string) : option (list string) :=
  sortLinks compareChapterSection links.

Definition unwanted (href : string) : bool :=
  includes href ".ipynb" || includes href "mybinder" || includes href "datahub"
  || includes href "_sources" || includes href "_static" || includes href "_images".

(** One turn of the loop over the anchors; [None] is an exception. *)
Definition collectLink (pageUrl jupyterbookURL : string)
           (targetChapter targetSubsection : option string)
           (links : list string) (href : string) : option (list string) :=
  if String.eqb href EmptyString then Some links
  else if unwanted href then Some links
  else
    fullUrl ← (if startsWith href "/" then resolve href pageUrl
               else if startsWith href "http" then Some href
               else resolve href pageUrl);
    if includes fullUrl jupyterbookURL then
      let normalizedUrl := normalizeUrl fullUrl in
      pathname ← pathnameOf normalizedUrl;
      if isChapterSectionLink pathname targetChapter targetSubsection
      then Some (links ++ [normalizedUrl])%list
      else Some links
    else Some links.

Fixpoint collectLinks (pageUrl jupyterbookURL : string)
         (targetChapter targetSubsection : option string)
         (links : list string) (hrefs : list string) : option (list string) :=
  match hrefs with
  | [] => Some links
  | href :: rest =>
      links' ← collectLink pageUrl jupyterbookURL targetChapter targetSubsection links href;
      collectLinks pageUrl jupyterbookURL targetChapter targetSubsection links' rest
  end.

(** [[...new Set(links)]]: first occurrences, in order. *)
Fixpoint unique (seen : gset string) (links : list string) : list string :=
  match links with
  | [] => []
  | link :: rest =>
      if bool_decide (link ∈ seen) then unique seen rest
      else link :: unique ({[ link ]} ∪ seen) rest
  end.

(** The body of the [try]; [None] is an exception on the way. *)
Definition findJupyterBookLinksBody (pageUrl jupyterbookURL : string)
  : option (list string) :=
  match fetchHrefs pageUrl with
  | None => Some []
  | Some hrefs =>
      currentPath ← pathnameOf pageUrl;
      let chapterMatch := matchChapter currentPath in
      let subsectionMatch := matchSubsection currentPath in
      let '(targetChapter, targetSubsection) :=
        match subsectionMatch with
        | Some (chapter, subsection) => (Some chapter, Some subsection)
        | None => (chapterMatch, None)
        end in
      links ← collectLinks pageUrl jupyterbookURL targetChapter targetSubsection [] hrefs;
      sortChapterSectionLinks (unique ∅ links)
  end.

Definition findJupyterBookLinks (pageUrl jupyterbookURL : string) : list string :=
  default [] (findJupyterBookLinksBody pageUrl jupyterbookURL).

(** [jupyterbookURLs.some(b => url.includes(b))] *)
Definition isJupyterBookLink (jupyterbookURLs : list string) (url : string) : bool :=
  existsb (fun jupyterbookURL => includes url jupyterbookURL) jupyterbookURLs.

(** The comparator of the second sort, inside the walk. *)
Definition compareExpanded (a b : string) : Z :=
  let aPath := pathOf a in
  let bPath := pathOf b in
  match matchChapterSection aPath, matchChapterSection bPath with
  | Some (aChapterDigits, aSub), Some (bChapterDigits, bSub) =>
      let aChapter := parseInt aChapterDigits in
      let bChapter := parseInt bChapterDigits in
      let aSubsection := number aSub in
      let bSubsection := number bSub in
      if negb (aChapter =? bChapter)%Z then (aChapter - bChapter)%Z
      else (aSubsection - bSubsection)%Z
  | _, _ => localeCompare aPath bPath
  end.

(** The state of the walk: [result], [seenUrls], [jupyterBookIndex]. *)
Record Walk : Type := {
  result : list string;
  seenUrls : gset string;
  jupyterBookIndex : nat
}.

(** Push [link] unless its normalised form was seen. *)
Definition emit (link : string) (result : list string) (seenUrls : gset string)
  : list string * gset string :=
  let normalizedLink := normalizeUrl link in
  if bool_decide (normalizedLink ∈ seenUrls) then (result, seenUrls)
  else ((result ++ [link])%list, {[ normalizedLink ]} ∪ seenUrls).

Definition emitAll (links : list string) (result : list string) (seenUrls : gset string)
  : list string * gset string :=
  fold_left (fun acc link => emit link (fst acc) (snd acc)) links (result, seenUrls).

(** One turn of the walk over [sourceLinks]; [None] when the comparator
    of the sort throws. *)
Definition walkStep (jupyterbookURLs : list string) (allLinks : list (list string))
           (w : Walk) (originalLink : string) : option Walk :=
  if isJupyterBookLink jupyterbookURLs originalLink then
    let normalizedOriginalLink := normalizeUrl originalLink in
    let (result1, seen1) := emit originalLink (result w) (seenUrls w) in
    let expandedLinksForThisUrl := nth (jupyterBookIndex w) allLinks [] in
    let uniqueExpandedLinks :=
      List.filter (fun link =>
                     let normalizedLink := normalizeUrl link in
                     negb (String.eqb normalizedLink normalizedOriginalLink)
                     && negb (bool_decide (normalizedLink ∈ seen1)))
                  expandedLinksForThisUrl in
    sorted ← sortLinks compareExpanded uniqueExpandedLinks;
    let (result2, seen2) := emitAll sorted result1 seen1 in
    Some {| result := result2; seenUrls := seen2;
            jupyterBookIndex := S (jupyterBookIndex w) |}
  else
    let (result1, seen1) := emit originalLink (result w) (seenUrls w) in
    Some {| result := result1; seenUrls := seen1;
            jupyterBookIndex := jupyterBookIndex w |}.

Fixpoint walk (jupyterbookURLs : list string) (allLinks : list (list string))
         (w : Walk) (sourceLinks : list string) : option Walk :=
  match sourceLinks with
  | [] => Some w
  | originalLink :: rest =>
      w' ← walkStep jupyterbookURLs allLinks w originalLink;
      walk jupyterbookURLs allLinks w' rest
  end.

(** The links found for one JupyterBook address, under the first of the
    configured domains it contains. *)
Definition linksFor (jupyterbookURLs : list string) (url : string) : list string :=
  match List.find (fun jupyterbookURL => includes url jupyterbookURL) jupyterbookURLs with
  | Some jupyterbookURL =>
      if nonEmpty jupyterbookURL then findJupyterBookLinks url jupyterbookURL else []
  | None => []
  end.

(** [None] when the call throws. *)
Definition expandJupyterBookLinks (sourceLinks jupyterbookURLs : list string)
  : option (list string) :=
  let jupyterBookUrls := List.filter (isJupyterBookLink jupyterbookURLs) sourceLinks in
  let allLinks := map (linksFor jupyterbookURLs) jupyterBookUrls in
  w ← walk jupyterbookURLs allLinks
           {| result := []; seenUrls := ∅; jupyterBookIndex := 0 |} sourceLinks;
  Some (result w).

End Expansion.

(** *** The retriever *)

(** [ContextRetrievalConfig], once the constructor's defaults are in. *)
Record ContextRetrievalConfig : Type := {
  sourceLinks : list string;
  whitelistedURLs : option (list string);
  blacklistedURLs : list string;
  jupyterbookURLs : list string;
  attemptJupyterbookLinkExpansion : bool;
  debug : bool
}.

(** [new GlobalNotebookContextRetrieval()] with no argument. *)
Definition defaultConfig : ContextRetrievalConfig :=
  {| sourceLinks := []; whitelistedURLs := None;
     blacklistedURLs := ["data8.org"; "berkeley.edu"; "gradescope.com"];
     jupyterbookURLs := []; attemptJupyterbookLinkExpansion := false;
     debug := false |}.

(** Where the background work stands: the constructor's async function is
    suspended at [await this._expandJupyterBookLinksAsync(..)];
    [scrapeSourceLinks] is suspended at [await Promise.all(..)] over the
    pages of [links]; or nothing is pending. *)
Inductive Pending : Type :=
  | AwaitingExpansion (jupyterbookURLs : list string)
  | AwaitingPages (links : list string)
  | NothingPending.

(** The fields of the instance, whether [_loadedPromise] and
    [_softTimeoutPromise] are settled, and the pending work. *)
Record Retriever : Type := {
  _context : option string;
  _sourceLinks : list string;
  _blacklistedURLs : list string;
  _whitelistedURLs : list string;
  _loadedPromise : bool;
  _softTimeoutPromise : bool;
  pending : Pending
}.

Definition isBlacklisted (r : Retriever) (url : string) : bool :=
  existsb (fun blacklistedURL => includes url blacklistedURL) (_blacklistedURLs r).

Definition isWhitelisted (r : Retriever) (url : string) : bool :=
  existsb (fun whitelistedURL => includes url whitelistedURL) (_whitelistedURLs r).

(** [scrapeSourceLinks] up to its [await]: the early return on an empty
    list, otherwise the two filters on [_sourceLinks] and the start of one
    fetch per remaining link. *)
Definition scrapeSourceLinksStart (r : Retriever) : Retriever :=
  match _sourceLinks r with
  | [] =>
      {| _context := None; _sourceLinks := _sourceLinks r;
         _blacklistedURLs := _blacklistedURLs r; _whitelistedURLs := _whitelistedURLs r;
         _loadedPromise := _loadedPromise r; _softTimeoutPromise := _softTimeoutPromise r;
         pending := NothingPending |}
  | _ :: _ =>
      let links1 :=
        if (0 <? List.length (_whitelistedURLs r))%nat
        then List.filter (isWhitelisted r) (_sourceLinks r)
        else _sourceLinks r in
      let links2 :=
        if (0 <? List.length (_blacklistedURLs r))%nat
        then List.filter (fun url => negb (isBlacklisted r url)) links1
        else links1 in
      {| _context := _context r; _sourceLinks := links2;
         _blacklistedURLs := _blacklistedURLs r; _whitelistedURLs := _whitelistedURLs r;
         _loadedPromise := _loadedPromise r; _softTimeoutPromise := _softTimeoutPromise r;
         pending := AwaitingPages links2 |}
  end.

(** The async function of the constructor has run to its end: both
    promises are settled ([_softTimeoutPromise] races [_loadedPromise]). *)
Definition loaded (r : Retriever) : Retriever :=
  {| _context := _context r; _sourceLinks := _sourceLinks r;
     _blacklistedURLs := _blacklistedURLs r; _whitelistedURLs := _whitelistedURLs r;
     _loadedPromise := true; _softTimeoutPromise := true;
     pending := pending r |}.

(** The [SOFT_TIMEOUT] timer fires. *)
Definition timerFires (r : Retriever) : Retriever :=
  {| _context := _context r; _sourceLinks := _sourceLinks r;
     _blacklistedURLs := _blacklistedURLs r; _whitelistedURLs := _whitelistedURLs r;
     _loadedPromise := _loadedPromise r; _softTimeoutPromise := true;
     pending := pending r |}.

Section Retriever.

Context `{api : UrlApi}.
Context (localeCompare : string -> string -> Z).
Context (fetchHrefs : string -> option (list string)).
Context (resolve : string -> string -> option string).

(** The page behind [fetch(pageUrl)] in [scrapePageText], through
    [extractTextFromHTML]: [None] when the request fails or answers with
    an error status. *)
Context (fetchText : string -> option string).

Definition scrapePageText (pageUrl : string) : option string :=
  match fetchText pageUrl with
  | Some pageText => Some ("[LINK] " +:+ pageUrl +:+ " [/LINK]" +:+ LF +:+ pageText)
  | None => None
  end.

(** [scrapeSourceLinks] after its [await]: the pages are in. *)
Definition scrapeSourceLinksFinish (links : list string) (r : Retriever) : Retriever :=
  let scrapedTexts := join (LF +:+ LF) (omap scrapePageText links) in
  {| _context := if nonEmpty scrapedTexts then Some scrapedTexts else None;
     _sourceLinks := _sourceLinks r;
     _blacklistedURLs := _blacklistedURLs r; _whitelistedURLs := _whitelistedURLs r;
     _loadedPromise := _loadedPromise r; _softTimeoutPromise := _softTimeoutPromise r;
     pending := NothingPending |}.

(** [_expandJupyterBookLinksAsync] after its [await]: the expansion
    replaces [_sourceLinks], or leaves it when the expansion threw. *)
Definition expandJupyterBookLinksFinish (jupyterbookURLs : list string) (r : Retriever)
  : Retriever :=
  {| _context := _context r;
     _sourceLinks :=
       match expandJupyterBookLinks localeCompare fetchHrefs resolve
                                    (_sourceLinks r) jupyterbookURLs with
       | Some expanded => expanded
       | None => _sourceLinks r
       end;
     _blacklistedURLs := _blacklistedURLs r; _whitelistedURLs := _whitelistedURLs r;
     _loadedPromise := _loadedPromise r; _softTimeoutPromise := _softTimeoutPromise r;
     pending := pending r |}.

(** The constructor, up to its return.  The async function behind
    [_loadedPromise] runs until its first [await]: in debug mode it ends
    at once; with expansion it stops at the [await] of the expansion;
    otherwise it calls [scrapeSourceLinks], does not await the promise
    that call returns, and ends. *)
Definition constructor (cfg : ContextRetrievalConfig) : Retriever :=
  let r := {| _context := None; _sourceLinks := sourceLinks cfg;
              _blacklistedURLs := blacklistedURLs cfg;
              _whitelistedURLs := default [] (whitelistedURLs cfg);
              _loadedPromise := false; _softTimeoutPromise := false;
              pending := NothingPending |} in
  if debug cfg then loaded r
  else if attemptJupyterbookLinkExpansion cfg then
    {| _context := _context r; _sourceLinks := _sourceLinks r;
       _blacklistedURLs := _blacklistedURLs r; _whitelistedURLs := _whitelistedURLs r;
       _loadedPromise := false; _softTimeoutPromise := false;
       pending := AwaitingExpansion (jupyterbookURLs cfg) |}
  else loaded (scrapeSourceLinksStart r).

(** What the event loop can do next to an instance. *)
Inductive step : Retriever -> Retriever -> Prop :=
  | step_expanded r jupyterbookURLs :
      pending r = AwaitingExpansion jupyterbookURLs ->
      step r (loaded (scrapeSourceLinksStart
                        (expandJupyterBookLinksFinish jupyterbookURLs r)))
  | step_scraped r links :
      pending r = AwaitingPages links ->
      step r (scrapeSourceLinksFinish links r)
  | step_timer r :
      step r (timerFires r).

Inductive steps : Retriever -> Retriever -> Prop :=
  | steps_refl r : steps r r
  | steps_step r1 r2 r3 : step r1 r2 -> steps r2 r3 -> steps r1 r3.

(** The pending work carried out to its end. *)
Definition settle (r : Retriever) : Retriever :=
  let r1 :=
    match pending r with
    | AwaitingExpansion jupyterbookURLs =>
        loaded (scrapeSourceLinksStart (expandJupyterBookLinksFinish jupyterbookURLs r))
    | _ => r
    end in
  match pending r1 with
  | AwaitingPages links => scrapeSourceLinksFinish links r1
  | _ => r1
  end.

(** A reader resumes once the promise it awaits is settled and then
    returns the field as it stands: [None] while it is still waiting. *)
Definition awaited (enforcing : bool) (r : Retriever) : bool :=
  if enforcing then _loadedPromise r else _softTimeoutPromise r.

Definition getContext (enforcing : bool) (r : Retriever) : option (option string) :=
  if awaited enforcing r then Some (_context r) else None.

Definition getSourceLinks (enforcing : bool) (r : Retriever) : option (list string) :=
  if awaited enforcing r then Some (_sourceLinks r) else None.

End Retriever.

End Retrieval.

(** ** parseNB.ts, notebookContextParsing.ts and chat-api.ts *)

Module Chat.
Import JS Rules Retrieval.

(** [ParsedCell]; an output model is kept as its [data] object. *)
Record ParsedCell : Type := {
  type : option CellKind;
  text : string;
  editable : bool;
  tags : list string;
  outputs : list (list (string * json));
  imageSources : list string;
  links : list string
}.

(** What the code reads of a [PluginConfig]. *)
Record RemoteContextGathering : Type := {
  enabled : bool;
  whitelist : option (list string);
  blacklist : list string;
  jupyterbook_urls : list string;
  jupyterbook_linkExpansion : bool
}.

Record PluginConfig : Type := {
  pluginEnabled : bool;
  api_baseURL : string;
  rules : list Rule;
  remoteContextGathering : RemoteContextGathering;
  preferences_proactiveEnabled : bool
}.

(** *** notebookContextParsing.ts *)

(** [allLinks.add(link)] on a [Set], kept as the list of its elements in
    insertion order. *)
Definition add (allLinks : list string) (link : string) : list string :=
  if existsb (String.eqb link) allLinks then allLinks else (allLinks ++ [link])%list.

(** [Array.from(allLinks)] after the two [forEach] loops. *)
Definition uniqueLinks (notebook : list ParsedCell) : list string :=
  fold_left (fun allLinks cell =>
               if (0 <? List.length (links cell))%nat
               then fold_left add (links cell) allLinks
               else allLinks)
            notebook [].

Definition parseContextFromNotebook (notebook : list ParsedCell) (pluginConfig : PluginConfig)
  : Retriever :=
  constructor
    {| sourceLinks := uniqueLinks notebook;
       whitelistedURLs := whitelist (remoteContextGathering pluginConfig);
       blacklistedURLs := blacklist (remoteContextGathering pluginConfig);
       jupyterbookURLs := jupyterbook_urls (remoteContextGathering pluginConfig);
       attemptJupyterbookLinkExpansion :=
         jupyterbook_linkExpansion (remoteContextGathering pluginConfig);
       debug := false |}.

(** *** chat-api.ts *)

(** [cells[i]]: [None] is [undefined]. *)
Definition cellAt (cells : list ParsedCell) (i : Z) : option ParsedCell :=
  if (i <? 0)%Z then None else nth_error cells (Z.to_nat i).

(** [items.slice(start, end)] with integer arguments. *)
Definition slice {A : Type} (items : list A) (start finish : Z) : list A :=
  let len := Z.of_nat (List.length items) in
  let from := if (start <? 0)%Z then Z.max (len + start) 0 else Z.min start len in
  let to := if (finish <? 0)%Z then Z.max (len + finish) 0 else Z.min finish len in
  firstn (Z.to_nat (to - from)) (skipn (Z.to_nat from) items).

(** [items.findIndex(test)] *)
Fixpoint findIndex {A : Type} (test : A -> bool) (items : list A) : Z :=
  match items with
  | [] => (-1)%Z
  | item :: rest =>
      if test item then 0%Z
      else let found := findIndex test rest in
           if (found <? 0)%Z then (-1)%Z else (found + 1)%Z
  end.

Definition isCode (cell : ParsedCell) : bool :=
  match type cell with
  | Some code => true
  | _ => false
  end.

Definition hasImages (cell : ParsedCell) : bool :=
  (0 <? List.length (imageSources cell))%nat.

(** The [for] loop of [gatherImagesFromCells]: [i] starts at [relativeTo]
    and goes down by one while it is above the lower bound, [count] being
    the number of values it takes.  [None] is the exception of reading
    [imageSources] of an [undefined] cell. *)
Fixpoint gatherImagesLoop (cells : list ParsedCell) (i : Z) (count : nat)
         (images : list string) : option (list string) :=
  match count with
  | O => Some images
  | S count' =>
      cell ← cellAt cells i;
      let images1 :=
        if hasImages cell && isCode cell then (images ++ imageSources cell)%list
        else images in
      if hasImages cell && negb (isCode cell)
      then Some (images1 ++ imageSources cell)%list
      else gatherImagesLoop cells (i - 1)%Z count' images1
  end.

Definition gatherImagesFromCells (cells : list ParsedCell)
           (relativeTo maxGoBack maxImages : Z) : option (list string) :=
  let lower := Z.max 0 (relativeTo - maxGoBack) in
  images ← gatherImagesLoop cells relativeTo (Z.to_nat (relativeTo - lower)) [];
  Some (slice images 0 maxImages).

Inductive Scope : Type := whole | upToGrader | fiveAround | tenAround | none.

(** The result can hold [undefined] ([None]) in the scope [none]. *)
Definition filterCells (cells : list ParsedCell) (scope : Scope) (relativeTo : Z)
  : list (option ParsedCell) :=
  match scope with
  | whole => Some <$> cells
  | upToGrader => Some <$> slice cells 0 (Z.max 0 (relativeTo + 1))
  | fiveAround =>
      Some <$> slice cells (Z.max 0 (relativeTo - 5))
                     (Z.min (Z.of_nat (List.length cells)) (relativeTo + 5))
  | tenAround =>
      Some <$> slice cells (Z.max 0 (relativeTo - 10))
                     (Z.min (Z.of_nat (List.length cells)) (relativeTo + 10))
  | none => [cellAt cells relativeTo]
  end.

Record ContentPart : Type := {
  part_text : string;
  part_type : string
}.

(** [ChatHistoryItem], as built here. *)
Record ChatHistoryItem : Type := {
  role : string;
  content : list ContentPart;
  noShow : bool
}.

Definition input_text (t : string) : ContentPart :=
  {| part_text := t; part_type := "input_text" |}.

Definition systemItem (parts : list ContentPart) : ChatHistoryItem :=
  {| role := "system"; content := parts; noShow := true |}.

(** [value?.toString() ?? ''] *)
Definition textOfValue (value : option json) : string :=
  match value with
  | None | Some JNull => EmptyString
  | Some v => JS.toString v
  end.

Definition getCodeCellOutputAsLLMContent (cell : ParsedCell) : list ContentPart :=
  map (fun data =>
         if bool_decide (is_Some (assoc "image/png" data)) then input_text "[Image output]"
         else if bool_decide (is_Some (assoc "text/html" data))
              then input_text (textOfValue (assoc "text/html" data))
         else if bool_decide (is_Some (assoc "text/plain" data))
              then input_text (textOfValue (assoc "text/plain" data))
         else input_text (stringify (JObj data)))
      (outputs cell).

(** The item a cell is sent as. *)
Definition cellItem (cell : ParsedCell) : ChatHistoryItem :=
  let output := getCodeCellOutputAsLLMContent cell in
  let hasOutput := (0 <? List.length output)%nat in
  if hasOutput && isCode cell then
    systemItem (input_text (text cell +:+ LF
                            +:+ "The above code produced the following output:" +:+ LF)
                  :: output)
  else if match type cell with Some markdown => true | _ => false end then
    systemItem [input_text (text cell)]
  else systemItem [input_text (text cell)].

Section ChatContext.

(** The constant [STARTING_TEXTBOOK_CONTEXT] of
    [globalNotebookContextRetrieval.ts]. *)
Context (STARTING_TEXTBOOK_CONTEXT : string).

(** [retrieved] is what [await contextRetriever.getContext()] gave, and
    [None] when [contextRetriever] is [null].  The result is [None] when
    the function throws, which it does on an [undefined] cell. *)
Definition createChatContextFromCells (cells : list (option ParsedCell))
           (sendTextbookWithRequest : bool) (retrieved : option (option string))
           (instructorNote : option string) : option (list ChatHistoryItem) :=
  let textbookContext :=
    match sendTextbookWithRequest, retrieved with
    | true, Some context =>
        [ systemItem [input_text STARTING_TEXTBOOK_CONTEXT];
          systemItem [input_text (default EmptyString context)] ]
    | _, _ => []
    end in
  notebookContext ← mapM (fun cell => cellItem <$> cell) cells;
  Some (textbookContext ++ notebookContext
        ++ match instructorNote with
           | Some note => [systemItem [input_text note]]
           | None => []
           end)%list.

(** [cell === activeCell] compares objects.  The entries of [allCells] are
    distinct objects, one per cell of the notebook, and [filter] keeps the
    objects it lets through: an object is told by its position in
    [allCells], which is carried along here. *)
Definition gatherLocalContext (allCells : list ParsedCell) (relativeTo : Z)
           (sendTextbookWithRequest : bool) (retrieved : option (option string))
           (instructorNote : option string) : option (list ChatHistoryItem) :=
  let objects := combine (seq 0 (List.length allCells)) allCells in
  let activeCell :=
    if (relativeTo <? 0)%Z then None else nth_error objects (Z.to_nat relativeTo) in
  let filteredCells :=
    List.filter (fun object =>
                   hasImages (snd object)
                   || negb (String.eqb (text (snd object)) EmptyString)
                   || true)
                objects in
  let newActiveIndex :=
    findIndex (fun object =>
                 match activeCell with
                 | Some active => Nat.eqb (fst object) (fst active)
                 | None => false
                 end)
              filteredCells in
  createChatContextFromCells (filterCells (map snd filteredCells) upToGrader newActiveIndex)
                             sendTextbookWithRequest retrieved instructorNote.

End ChatContext.

End Chat.

(** ** store.ts *)

Module Store.
Import Rules Retrieval.

Record WidgetState : Type := {
  cellConfig : option RuleConfigOverride;
  chatHistory : list Chat.ChatHistoryItem;
  liveResult : option string;
  isLoading : bool
}.

Definition DEFAULT_WIDGET_STATE : WidgetState :=
  {| cellConfig := None; chatHistory := []; liveResult := None; isLoading := false |}.

Record NotebookState : Type := {
  widgetStateByCellId : gmap string WidgetState;
  notebookConfig : option Chat.PluginConfig;
  parsedCells : list Chat.ParsedCell;
  globalNotebookContextRetriever : option Retriever
}.

(** The state, without its setters.  The two records are plain objects
    used as maps from notebook paths and cell ids: the entries of a map
    are the own properties of the object. *)
Record JupytutorReactState : Type := {
  patchKeyCommand750 : bool;
  userId : option string;
  jupyterhubHostname : option string;
  notebookStateByPath : gmap string NotebookState
}.

(** The names a plain object inherits from [Object.prototype], where
    nothing has been added to it. *)
Definition objectPrototypeNames : list string :=
  ["constructor"; "__defineGetter__"; "__defineSetter__"; "hasOwnProperty";
   "__lookupGetter__"; "__lookupSetter__"; "isPrototypeOf"; "propertyIsEnumerable";
   "toString"; "valueOf"; "__proto__"; "toLocaleString"].

Definition inherited (key : string) : bool :=
  existsb (String.eqb key) objectPrototypeNames.

(** What [object[key]] finds, on the state and on a draft of it: an own
    property; else, under an inherited name, the member of
    [Object.prototype] of that name (a function, and the prototype itself
    for [__proto__]: truthy, and with none of the fields of the store);
    else [undefined]. *)
Inductive Property (A : Type) : Type :=
  | Own (value : A)
  | Member
  | Undefined.

Arguments Own {A} value.
Arguments Member {A}.
Arguments Undefined {A}.

Definition get {A : Type} (object : gmap string A) (key : string) : Property A :=
  match object !! key with
  | Some value => Own value
  | None => if inherited key then Member else Undefined
  end.

(** Where the assignment of a setter went: into the draft, or onto the
    member of [Object.prototype] found under [key], outside the store. *)
Inductive Target : Type :=
  | InStore
  | OnMember (key : string).

(** A call of a setter: [None] when it throws, which leaves the store as
    it was; else the state [set] is left with and where the assignment
    went. *)
Definition Outcome : Type := option (JupytutorReactState * Target).

Definition initialState : JupytutorReactState :=
  {| patchKeyCommand750 := false; userId := None; jupyterhubHostname := None;
     notebookStateByPath := ∅ |}.

Definition withNotebooks (draft : JupytutorReactState)
           (notebooks : gmap string NotebookState) : JupytutorReactState :=
  {| patchKeyCommand750 := patchKeyCommand750 draft; userId := userId draft;
     jupyterhubHostname := jupyterhubHostname draft;
     notebookStateByPath := notebooks |}.

Definition ensureDraftHasNotebook (draft : JupytutorReactState) (notebookPath : string)
  : JupytutorReactState :=
  match get (notebookStateByPath draft) notebookPath with
  | Undefined =>
      withNotebooks draft
        (<[ notebookPath := {| widgetStateByCellId := ∅; notebookConfig := None;
                               parsedCells := [];
                               globalNotebookContextRetriever := None |} ]>
           (notebookStateByPath draft))
  | _ => draft
  end.

(** [draft.notebookStateByPath[notebookPath].field = value]: a write into
    the notebook's own state, a write onto the member found under the
    path, or the exception of writing into [undefined]. *)
Definition updateNotebook (draft : JupytutorReactState) (notebookPath : string)
           (update : NotebookState -> NotebookState) : Outcome :=
  match get (notebookStateByPath draft) notebookPath with
  | Own notebook =>
      Some (withNotebooks draft
              (<[ notebookPath := update notebook ]> (notebookStateByPath draft)),
            InStore)
  | Member => Some (draft, OnMember notebookPath)
  | Undefined => None
  end.

Definition withWidgets (notebook : NotebookState) (widgets : gmap string WidgetState)
  : NotebookState :=
  {| widgetStateByCellId := widgets; notebookConfig := notebookConfig notebook;
     parsedCells := parsedCells notebook;
     globalNotebookContextRetriever := globalNotebookContextRetriever notebook |}.

(** [None] is the exception of reading [cellId] of [undefined]: a member
    of [Object.prototype] has no [widgetStateByCellId]. *)
Definition ensureDraftHasNotebookCell (draft : JupytutorReactState)
           (notebookPath cellId : string) : option JupytutorReactState :=
  let draft := ensureDraftHasNotebook draft notebookPath in
  match get (notebookStateByPath draft) notebookPath with
  | Own notebook =>
      match get (widgetStateByCellId notebook) cellId with
      | Undefined =>
          Some (withNotebooks draft
                  (<[ notebookPath :=
                        withWidgets notebook
                          (<[ cellId := DEFAULT_WIDGET_STATE ]>
                             (widgetStateByCellId notebook)) ]>
                     (notebookStateByPath draft)))
      | _ => Some draft
      end
  | _ => None
  end.

(** [cellData(draft, notebookPath, cellId).field = value]: the draft once
    the cell is there, with [write] applied to the cell's state; under an
    inherited cell id the function returns the member, and the field is
    set on it. *)
Definition cellData (draft : JupytutorReactState) (notebookPath cellId : string)
           (write : WidgetState -> WidgetState) : Outcome :=
  draft ← ensureDraftHasNotebookCell draft notebookPath cellId;
  match get (notebookStateByPath draft) notebookPath with
  | Own notebook =>
      match get (widgetStateByCellId notebook) cellId with
      | Own widget =>
          Some (withNotebooks draft
                  (<[ notebookPath :=
                        withWidgets notebook
                          (<[ cellId := write widget ]> (widgetStateByCellId notebook)) ]>
                     (notebookStateByPath draft)),
                InStore)
      | Member => Some (draft, OnMember cellId)
      | Undefined => None
      end
  | _ => None
  end.

Definition setChatHistory (notebookPath cellId : string)
           (value : list Chat.ChatHistoryItem) (state : JupytutorReactState) : Outcome :=
  cellData state notebookPath cellId
           (fun widget => {| cellConfig := cellConfig widget; chatHistory := value;
                             liveResult := liveResult widget;
                             isLoading := isLoading widget |}).

Definition setLiveResult (notebookPath cellId : string) (value : option string)
           (state : JupytutorReactState) : Outcome :=
  cellData state notebookPath cellId
           (fun widget => {| cellConfig := cellConfig widget;
                             chatHistory := chatHistory widget;
                             liveResult := value; isLoading := isLoading widget |}).

Definition setIsLoading (notebookPath cellId : string) (value : bool)
           (state : JupytutorReactState) : Outcome :=
  cellData state notebookPath cellId
           (fun widget => {| cellConfig := cellConfig widget;
                             chatHistory := chatHistory widget;
                             liveResult := liveResult widget; isLoading := value |}).

Definition setRefreshedCellConfig (notebookPath cellId : string)
           (value : RuleConfigOverride) (state : JupytutorReactState) : Outcome :=
  cellData state notebookPath cellId
           (fun widget => {| cellConfig := Some value;
                             chatHistory := chatHistory widget;
                             liveResult := liveResult widget;
                             isLoading := isLoading widget |}).

Definition setNotebookConfig (notebookPath : string) (newConfig : Chat.PluginConfig)
           (state : JupytutorReactState) : Outcome :=
  updateNotebook state notebookPath
    (fun notebook =>
       {| widgetStateByCellId := widgetStateByCellId notebook;
          notebookConfig := Some newConfig; parsedCells := parsedCells notebook;
          globalNotebookContextRetriever := globalNotebookContextRetriever notebook |}).

Definition setNotebookParsedCells (notebookPath : string) (value : list Chat.ParsedCell)
           (state : JupytutorReactState) : Outcome :=
  updateNotebook state notebookPath
    (fun notebook =>
       {| widgetStateByCellId := widgetStateByCellId notebook;
          notebookConfig := notebookConfig notebook; parsedCells := value;
          globalNotebookContextRetriever := globalNotebookContextRetriever notebook |}).

Definition setGlobalNotebookContextRetriever (notebookPath : string)
           (contextRetriever : option Retriever) (state : JupytutorReactState) : Outcome :=
  updateNotebook state notebookPath
    (fun notebook =>
       {| widgetStateByCellId := widgetStateByCellId notebook;
          notebookConfig := notebookConfig notebook; parsedCells := parsedCells notebook;
          globalNotebookContextRetriever := contextRetriever |}).

(** What the selector
    [state.notebookStateByPath[notebookPath]?.widgetStateByCellId[cellId]]
    gives: the state of a cell, the member of [Object.prototype] found
    under the cell id, or [undefined]. *)
Definition selectWidgetState (state : JupytutorReactState) (notebookPath cellId : string)
  : option (Property WidgetState) :=
  match get (notebookStateByPath state) notebookPath with
  | Own notebook => Some (get (widgetStateByCellId notebook) cellId)
  | Member => None
  | Undefined => Some Undefined
  end.

(** [useWidgetState], its selector followed by
    [?? DEFAULT_WIDGET_STATE()]; [None] when the selector throws, which it
    does when the path names a member of [Object.prototype]: the [?.] lets
    the member through, and [cellId] is read of its [widgetStateByCellId],
    which is [undefined]. *)
Definition useWidgetState (state : JupytutorReactState) (notebookPath cellId : string)
  : option (Property WidgetState) :=
  selected ← selectWidgetState state notebookPath cellId;
  Some match selected with
       | Undefined => Own DEFAULT_WIDGET_STATE
       | found => found
       end.

(** [useCellConfig]: [cellState.cellConfig] on what the same selector
    gives.  [None] when the selector throws or reading [cellConfig] of
    [undefined] does; [Undefined] is the [cellConfig] of a member. *)
Definition useCellConfig (state : JupytutorReactState) (notebookPath cellId : string)
  : option (Property (option RuleConfigOverride)) :=
  selected ← selectWidgetState state notebookPath cellId;
  match selected with
  | Own cellState => Some (Own (cellConfig cellState))
  | Member => Some Undefined
  | Undefined => None
  end.

End Store.

(** ** index.ts *)

Module Index.
Import JS Retrieval.

(** The text before the first [/] and the text from that [/] on. *)
Fixpoint cutPath (s : string) : string * string :=
  match s with
  | EmptyString => (EmptyString, EmptyString)
  | String a s' =>
      if Ascii.eqb a "/" then (EmptyString, s)
      else let (before, rest) := cutPath s' in (String a before, rest)
  end.

(** [/\/user\/([^/]+)/] anchored at the start: group 1, the longest run of
    characters other than [/] after [/user/], which must not be empty. *)
Definition atUser (s : string) : option string :=
  if String.prefix "/user/" s then
    let (name, _) := cutPath (drop 6 s) in
    if String.eqb name EmptyString then None else Some name
  else None.

(** [pathname] is [window.location.pathname]. *)
Definition getUserIdentifierFromURL (pathname : string) : option string :=
  findMatch atUser pathname.

End Index.

(** * Properties *)

Import JS Rules Url Retrieval.

#[local] Arguments String.append : simpl nomatch.
Local Open Scope list_scope.

(** ** Statement-side definitions *)

(** Induction over predicates, through the lists of [PAnd] and [POr]. *)
Section PredicateInduction.
Variable P : Predicate -> Prop.
Hypothesis HAnd : forall inner, Forall P inner -> P (PAnd inner).
Hypothesis HOr : forall inner, Forall P inner -> P (POr inner).
Hypothesis HNot : forall inner, P inner -> P (PNot inner).
Hypothesis HNearby : forall offset inner, P inner -> P (PNearbyCell offset inner).
Hypothesis HCellType : forall expected, P (PCellType expected).
Hypothesis HOutput : forall m, P (POutput m).
Hypothesis HHasError : forall b, P (PHasError b).
Hypothesis HContent : forall m, P (PContent m).
Hypothesis HIsEditable : forall b, P (PIsEditable b).
Hypothesis HTags : forall m, P (PTags m).
Hypothesis HUnknown : P PUnknown.

Fixpoint Predicate_nested_ind (p : Predicate) : P p :=
  match p with
  | PAnd inner =>
      HAnd inner ((fix all (l : list Predicate) : Forall P l :=
                     match l with
                     | [] => List.Forall_nil P
                     | q :: l' => List.Forall_cons P q l' (Predicate_nested_ind q) (all l')
                     end) inner)
  | POr inner =>
      HOr inner ((fix all (l : list Predicate) : Forall P l :=
                    match l with
                    | [] => List.Forall_nil P
                    | q :: l' => List.Forall_cons P q l' (Predicate_nested_ind q) (all l')
                    end) inner)
  | PNot inner => HNot inner (Predicate_nested_ind inner)
  | PNearbyCell offset inner => HNearby offset inner (Predicate_nested_ind inner)
  | PCellType expected => HCellType expected
  | POutput m => HOutput m
  | PHasError b => HHasError b
  | PContent m => HContent m
  | PIsEditable b => HIsEditable b
  | PTags m => HTags m
  | PUnknown => HUnknown
  end.
End PredicateInduction.

(** A predicate whose value rests on the context of the cell it is
    evaluated at: a leaf, a disjunction of such predicates, or a
    conjunction with at least one of them. *)
Fixpoint needsContext (p : Predicate) : bool :=
  match p with
  | PAnd inner => existsb needsContext inner
  | POr inner => forallb needsContext inner
  | PNot _ => false
  | PNearbyCell _ _ => false
  | _ => true
  end.

(** The cell's [jupytutor] metadata set to [override], or removed. *)
Definition withOverride (override : option json) (cell : ICellModel) : ICellModel :=
  {| cell_type := cell_type cell;
     cell_source := cell_source cell;
     cell_metadata :=
       match override with
       | Some v => <[ "jupytutor" := v ]> (cell_metadata cell)
       | None => delete "jupytutor" (cell_metadata cell)
       end;
     cell_outputs := cell_outputs cell |}.

(** Metadata that is not an object (strings, numbers, [null], arrays), or
    an object the partial schema rejects. *)
Definition invalidOverride (v : json) : Prop :=
  match v with
  | JObj raw => safeParse raw = None
  | _ => True
  end.

(** A pattern engine for the examples: an unbalanced bracket does not
    compile, any other pattern matches the values that contain it. *)
Definition sampleRegExp (pattern flags : string) : option (string -> bool) :=
  if includes pattern "[" && negb (includes pattern "]") then None
  else Some (fun value => includes value pattern).

Definition sampleCell (kind : string) (metadata : list (string * json)) (outputs : list json)
  : ICellModel :=
  {| cell_type := kind; cell_source := "x = 1";
     cell_metadata := list_to_map metadata; cell_outputs := outputs |}.


(** *** Cell overrides and sample notebooks *)

Definition sampleRules : list Rule :=
  [ {| when := None;
       config := {| chatEnabled' := Some true; chatProactive' := None;
                    instructorNote' := Some "Rule note"; quickResponses' := None |} |} ].

Definition override (fields : list (string * json)) : list (string * json) :=
  [("jupytutor", JObj fields)].

(** Three of the default rules of the plugin configuration, and a notebook
    to try them on: a code cell whose output is an error, followed by a
    markdown cell that carries the disabling tag. *)
Definition defaultRules : list Rule :=
  [ {| when := None;
       config := {| chatEnabled' := Some true; chatProactive' := Some false;
                    instructorNote' := None; quickResponses' := None |} |};
    {| when := Some (PAnd [PCellType (CLiteral "code"); PHasError true]);
       config := {| chatEnabled' := Some true; chatProactive' := Some true;
                    instructorNote' := None;
                    quickResponses' := Some ["Explain this error."] |} |};
    {| when := Some (PTags (AAny (MLiteral "jupytutor:disable")));
       config := {| chatEnabled' := Some false; chatProactive' := None;
                    instructorNote' := None; quickResponses' := None |} |} ].

Definition sampleNotebook : list ICellModel :=
  [ sampleCell "code" []
               [JObj [("output_type", JStr "error"); ("ename", JStr "NameError");
                      ("evalue", JStr "name 'x' is not defined")]];
    sampleCell "markdown" [("tags", JArr [JStr "jupytutor:disable"])] [] ].

(** *** Output text *)

(** The first candidate that is there, or the fallback. *)
Fixpoint firstOf (candidates : list (option string)) (fallback : string) : string :=
  match candidates with
  | [] => fallback
  | Some s :: _ => s
  | None :: rest => firstOf rest fallback
  end.

Definition notNull (v : option json) : option json :=
  match v with
  | Some JNull => None
  | _ => v
  end.

(** [output.data[key]], when [data] is an object. *)
Definition inData (output : json) (key : string) : option json :=
  match get output "data" with
  | Some d => get d key
  | None => None
  end.

(** The extraction as C7 words it: [data["text/plain"]], then the direct
    [text] field, then [evalue], then the whole item serialised. *)
Definition extractOutputText_claimed (output : json) : string :=
  firstOf [ textOf <$> inData output "text/plain";
            textOf <$> get output "text";
            toString <$> get output "evalue" ]
          (stringify output).

(** The extraction with the step the code has in between: a [text] entry
    inside [data] comes before the direct [text] field, and a [null]
    [data["text/plain"]] gives way to it; a falsy item has no text. *)
Definition extractOutputText_amended (output : json) : string :=
  if truthy output then
    firstOf [ textOf <$> notNull (inData output "text/plain");
              textOf <$> inData output "text";
              textOf <$> get output "text";
              toString <$> get output "evalue" ]
            (stringify output)
  else EmptyString.

(** *** Cutting a text at a character *)

(** The text before the first [c] and, when [c] occurs, the text after it. *)
Fixpoint cut (c : ascii) (s : string) : string * option string :=
  match s with
  | EmptyString => (EmptyString, None)
  | String a s' =>
      if Ascii.eqb a c then (EmptyString, Some s')
      else let (before, after) := cut c s' in (String a before, after)
  end.

(** *** A URL library for the examples

    It reads absolute [http] and [https] addresses written
    [scheme://host/path?query#fragment]: the scheme and the host come out
    in lower case, an empty path becomes [/], and path, query and fragment
    are kept as written; other strings are turned down.  On addresses of
    that form that need no further normalisation (no port, credentials,
    dot segments or characters to escape) it answers as the platform's
    [URL] class does; it is used in examples on such addresses only. *)

Module SampleUrl.
Import JS Index.

Record Address : Type := {
  scheme : string;
  host : string;
  pathname : string;
  query : option string;
  fragment : option string
}.

Definition isHttp (scheme : string) : bool :=
  String.eqb scheme "http" || String.eqb scheme "https".

(** The address a string writes, if it writes one. *)
Definition parse (s : string) : option Address :=
  let (s1, fragment) := cut "#" s in
  let (s2, query) := cut "?" s1 in
  match cut ":" s2 with
  | (rawScheme, Some rest) =>
      if isHttp (toLowerCase rawScheme) && String.prefix "//" rest then
        let (rawHost, rawPath) := cutPath (drop 2 rest) in
        if String.eqb rawHost EmptyString then None
        else Some {| scheme := toLowerCase rawScheme;
                     host := toLowerCase rawHost;
                     pathname := if String.eqb rawPath EmptyString then "/" else rawPath;
                     query := query;
                     fragment := fragment |}
      else None
  | (_, None) => None
  end.

Definition part (mark : string) (p : option string) : string :=
  match p with
  | Some t => mark +:+ t
  | None => EmptyString
  end.

(** The address written out. *)
Definition serialize (u : Address) : string :=
  scheme u +:+ "://" +:+ host u +:+ pathname u
  +:+ part "?" (query u) +:+ part "#" (fragment u).

Definition setFragment (u : Address) (value : string) : Address :=
  {| scheme := scheme u; host := host u; pathname := pathname u; query := query u;
     fragment := match value with
                 | EmptyString => None
                 | String "#" rest => Some rest
                 | _ => Some value
                 end |}.

Definition setPath (u : Address) (value : string) : Address :=
  {| scheme := scheme u; host := host u; pathname := value;
     query := query u; fragment := fragment u |}.

End SampleUrl.

Definition sampleUrlApi : UrlApi :=
  {| URL := SampleUrl.Address;
     newURL := SampleUrl.parse;
     href := SampleUrl.serialize;
     pathname := SampleUrl.pathname;
     setHash := SampleUrl.setFragment;
     setPathname := SampleUrl.setPath |}.

(** *** URL keys *)

(** The URL object whose serialisation is the key of the address that
    parses to [u]: [u] with its fragment cleared and, when the path then
    read is longer than one character and ends in a slash, with that path
    less its last character set as its path. *)
Definition keyOf `{api : UrlApi} (u : URL) : URL :=
  let cleared := setHash u EmptyString in
  if (1 <? String.length (pathname cleared))%nat && endsWith (pathname cleared) "/"
  then setPathname cleared (dropLast (pathname cleared))
  else cleared.

(** *** The retriever *)

(** A link survives the scraping stage when it contains an entry of the
    whitelist, if there is one, and no entry of the blacklist. *)
Definition survives (whitelist blacklist : list string) (url : string) : bool :=
  match whitelist with
  | [] => true
  | _ :: _ => existsb (fun entry => includes url entry) whitelist
  end
  && negb (existsb (fun entry => includes url entry) blacklist).

(** The scraping stage has started: the constructor's async function is
    past the expansion. *)
Definition scrapingStarted (r : Retriever) : Prop :=
  match pending r with
  | AwaitingExpansion _ => False
  | _ => True
  end.

(** The sample world of the examples: pages of one book answer, others do
    not; the order on paths is the one of [String.leb]. *)
Definition sampleLocaleCompare (a b : string) : Z :=
  if String.leb a b then (if String.leb b a then 0 else -1)%Z else 1%Z.

Definition sampleFetchText (pageUrl : string) : option string :=
  if includes pageUrl "inferentialthinking.com" then Some "Estimation." else None.

Definition sampleConfig : ContextRetrievalConfig :=
  {| sourceLinks := ["https://www.data8.org/fa24/reference/";
                     "https://inferentialthinking.com/chapters/13/Estimation.html"];
     whitelistedURLs := None;
     blacklistedURLs := ["data8.org"; "berkeley.edu"; "gradescope.com"];
     jupyterbookURLs := [];
     attemptJupyterbookLinkExpansion := false;
     debug := false |}.

Section ScrapeInput.

Context `{api : UrlApi}.
Variable localeCompare : string -> string -> Z.
Variable fetchHrefs : string -> option (list string).
Variable resolve : string -> string -> option string.

(** The list that goes into the scraping stage: the configured links, or
    their expansion when it is asked for and does not throw. *)
Definition scrapeInput (cfg : ContextRetrievalConfig) : list string :=
  if attemptJupyterbookLinkExpansion cfg then
    match expandJupyterBookLinks localeCompare fetchHrefs resolve
                                 (sourceLinks cfg) (jupyterbookURLs cfg) with
    | Some expanded => expanded
    | None => sourceLinks cfg
    end
  else sourceLinks cfg.

End ScrapeInput.

(** *** Link expansion *)

(** The numbers the two sorts read in the path of a link: the chapter; the
    subsection that directly follows the chapter segment, [0] for a bare
    chapter page (the sort inside the walk); and the subsection of the
    first [chapters/N/M] found anywhere in the path, [0] when there is
    none (the sort of the discovered links). *)
Section LinkNumbers.

Context `{api : UrlApi}.

Definition chapterOf (link : string) : Z := number (matchChapter (pathOf link)).

Definition subsectionOf (link : string) : Z :=
  match matchChapterSection (pathOf link) with
  | Some (_, subsection) => number subsection
  | None => 0%Z
  end.

Definition anySubsectionOf (link : string) : Z :=
  number (snd <$> matchSubsection (pathOf link)).

(** A link whose path has a [chapters/N] segment. *)
Definition inChapter (link : string) : Prop := is_Some (matchChapter (pathOf link)).

(** The normalised form of [link] is not among those of [emitted]. *)
Definition fresh (emitted : list string) (link : string) : Prop :=
  ~ In (normalizeUrl link) (map normalizeUrl emitted).

(** What a source link contributes by itself: the link, unless its
    normalised form was emitted before. *)
Definition ownBlock (emitted : list string) (link : string) (block : list string) : Prop :=
  (fresh emitted link /\ block = [link]) \/ (~ fresh emitted link /\ block = []).

(** The links of a list that are emitted when the list is gone through in
    order with the set of normalised forms seen so far. *)
Fixpoint freshOnes (seen : gset string) (links : list string) : list string :=
  match links with
  | [] => []
  | link :: rest =>
      if bool_decide (normalizeUrl link ∈ seen) then freshOnes seen rest
      else link :: freshOnes ({[ normalizeUrl link ]} ∪ seen) rest
  end.

End LinkNumbers.

Section ExpansionOrder.

Context `{api : UrlApi}.
Variable localeCompare : string -> string -> Z.

(** The order of the discovered links: chapter, subsection found anywhere,
    path. *)
Definition discoveryLe (a b : string) : Prop :=
  (chapterOf a < chapterOf b
   \/ chapterOf a = chapterOf b
      /\ (anySubsectionOf a < anySubsectionOf b
          \/ anySubsectionOf a = anySubsectionOf b
             /\ localeCompare (pathOf a) (pathOf b) <= 0))%Z.

(** The order of the emitted expansions: chapter, subsection after the
    chapter segment, and among links equal on both the order of the
    discovered links. *)
Definition expandedLe (a b : string) : Prop :=
  (chapterOf a < chapterOf b
   \/ chapterOf a = chapterOf b
      /\ (subsectionOf a < subsectionOf b
          \/ subsectionOf a = subsectionOf b /\ discoveryLe a b))%Z.

(** The order C5 states, for a reading [subsection] of the subsection
    number: chapter, subsection, path. *)
Definition claimedLe (subsection : string -> Z) (a b : string) : Prop :=
  (chapterOf a < chapterOf b
   \/ chapterOf a = chapterOf b
      /\ (subsection a < subsection b
          \/ subsection a = subsection b
             /\ localeCompare (pathOf a) (pathOf b) <= 0))%Z.

End ExpansionOrder.

Section ExpansionShape.

Context `{api : UrlApi}.
Variable localeCompare : string -> string -> Z.
Variable fetchHrefs : string -> option (list string).
Variable resolve : string -> string -> option string.
Variable jupyterbookURLs : list string.

(** The expansion links emitted after a JupyterBook link, given what was
    emitted up to and including that link: they are in order, no two share
    a normalised form, each is a discovered link whose normalised form was
    not emitted before, and no such discovered link is left out. *)
Definition Expansion (emitted : list string) (link : string) (expansion : list string) : Prop :=
  let discovered := linksFor localeCompare fetchHrefs resolve jupyterbookURLs link in
  StronglySorted (expandedLe localeCompare) expansion
  /\ ((forall x, In x discovered -> anySubsectionOf x = subsectionOf x) ->
      StronglySorted (claimedLe localeCompare subsectionOf) expansion)
  /\ List.NoDup (map normalizeUrl expansion)
  /\ (forall x, In x expansion -> In x discovered /\ fresh emitted x)
  /\ (forall x, In x discovered -> fresh emitted x ->
                In (normalizeUrl x) (map normalizeUrl expansion)).

(** The output as a sequence of blocks, one per source link and in the
    order of the source links: the block of a link that is not of a
    JupyterBook is the link itself or nothing; the block of a JupyterBook
    link is the link itself or nothing, followed by its expansion. *)
Inductive Interleaved : list string -> list string -> list (list string) -> Prop :=
  | interleaved_end emitted :
      Interleaved emitted [] []
  | interleaved_plain emitted link rest block blocks :
      isJupyterBookLink jupyterbookURLs link = false ->
      ownBlock emitted link block ->
      Interleaved (emitted ++ block) rest blocks ->
      Interleaved emitted (link :: rest) (block :: blocks)
  | interleaved_book emitted link rest own expansion blocks :
      isJupyterBookLink jupyterbookURLs link = true ->
      ownBlock emitted link own ->
      Expansion (emitted ++ own) link expansion ->
      Interleaved (emitted ++ own ++ expansion) rest blocks ->
      Interleaved emitted (link :: rest) ((own ++ expansion) :: blocks).

End ExpansionShape.

Section Discovered.

Context `{api : UrlApi}.

(** A discovered link parses and lies in a chapter. *)
Definition discoveredLink (link : string) : Prop :=
  is_Some (pathnameOf link) /\ inChapter link.

(** [seen] holds the normalised forms of the links of [emitted]. *)
Definition seenOf (seen : gset string) (emitted : list string) : Prop :=
  forall key, key ∈ seen <-> In key (map normalizeUrl emitted).

End Discovered.

(** One page of a book answers, with three anchors: two pages that sit
    below chapter 3 and carry a second [chapters/N/M] further down their
    path, and the first subsection of chapter 3. *)
Definition samplePage : string := "https://b.com/chapters/3/2".
Definition sampleDeepA : string := "https://b.com/chapters/3/a/chapters/9/2".
Definition sampleDeepB : string := "https://b.com/chapters/3/b/chapters/9/1".
Definition sampleSection : string := "https://b.com/chapters/3/1".

Definition sampleFetchHrefs (pageUrl : string) : option (list string) :=
  if String.eqb pageUrl samplePage
  then Some [sampleDeepA; sampleSection; sampleDeepB]
  else if String.eqb pageUrl "https://b.com/chapters/7/2"
  then Some ["/chapters/7/3"; "https://b.com/chapters/7/1#exercises";
             "https://b.com/chapters/7"; "https://b.com/chapters/7/2/";
             "https://b.com/chapters/8/1"; "https://b.com/chapters/7/lab.ipynb";
             "https://b.com/chapters/7/1"]
  else None.

(** Paths from the root are resolved against the sample book. *)
Definition sampleResolve (href base : string) : option string :=
  if startsWith href "/" then Some ("https://b.com" +:+ href) else None.

(** *** Further statements about the rules *)

(** A predicate with no [nearbyCell] in it. *)
Fixpoint noNearby (p : Predicate) : bool :=
  match p with
  | PAnd inner => forallb noNearby inner
  | POr inner => forallb noNearby inner
  | PNot inner => noNearby inner
  | PNearbyCell _ _ => false
  | _ => true
  end.

(** A rule's condition has no [nearbyCell] in it. *)
Definition localRule (rule : Rule) : Prop :=
  match when rule with
  | Some predicate => noNearby predicate = true
  | None => True
  end.

(** A rule's condition, if it has one, needs the context of its cell. *)
Definition needsCell (rule : Rule) : Prop :=
  match when rule with
  | Some predicate => needsContext predicate = true
  | None => True
  end.

Definition unconditional (rule : Rule) : bool :=
  match when rule with
  | Some _ => false
  | None => true
  end.

(** The keys of the schema that a raw override carries, with their values
    read at their declared types. *)
Definition presentKeys (raw : list (string * json)) : PartialRuleConfig :=
  {| chatEnabled' := assoc "chatEnabled" raw ≫= isBoolean;
     chatProactive' := assoc "chatProactive" raw ≫= isBoolean;
     instructorNote' := assoc "instructorNote" raw ≫= isString;
     quickResponses' := assoc "quickResponses" raw ≫= isStringArray |}.

(** The last element of [updates] that sets the key read by [key]. *)
Definition lastSet {A : Type} (key : PartialRuleConfig -> option A)
           (updates : list PartialRuleConfig) : option A :=
  List.find (fun update => match key update with Some _ => true | None => false end)
            (rev updates) ≫= key.

(** A rule configuration that only appends [suffix] to the note so far. *)
Definition appendNote (suffix : string) : PartialRuleConfig :=
  {| chatEnabled' := None; chatProactive' := None;
     instructorNote' := Some (priorNotesPlaceholder +:+ suffix);
     quickResponses' := None |}.

Definition isErrorOutput (output : json) : Prop :=
  get output "output_type" = Some (JStr "error").

Definition tagsOf (cell : ICellModel) : list json :=
  match getMetadata cell "tags" with
  | Some (JArr items) => items
  | _ => []
  end.

(** *** Further statements about the retriever *)

(** The text [scrapePageText] returns for a page that answers with
    [pageText]. *)
Definition pageEntry (pageUrl pageText : string) : string :=
  "[LINK] " +:+ pageUrl +:+ " [/LINK]" +:+ LF +:+ pageText.

(** *** Further statements about link expansion *)

(** The chapter a page's links are compared with: the chapter of the first
    [chapters/N/M] in its path, or else of the first [chapters/N]. *)
Definition targetChapterOf `{api : UrlApi} (pageUrl : string) : option string :=
  match pathnameOf pageUrl with
  | Some currentPath =>
      match matchSubsection currentPath with
      | Some (chapter, _) => Some chapter
      | None => matchChapter currentPath
      end
  | None => None
  end.

(** The paths [isChapterSectionLink] turns down as resources. *)
Definition resourcePath (path : string) : bool :=
  includes path "/_sources/" || includes path "/_static/"
  || includes path "/_images/" || endsWith path ".ipynb"
  || endsWith path ".pdf" || endsWith path ".zip" || endsWith path ".tar.gz".

(** *** Further statements about addresses *)

(** The character [c] does not occur in [s]. *)
Definition lacks (c : ascii) (s : string) : Prop := cut c s = (s, None).

(** *** Statements about the chat context and the store *)

(** The links of [links] that are not in [seen], each at its first
    occurrence, in the order of [links]. *)
Fixpoint firstOccurrences (seen links : list string) : list string :=
  match links with
  | [] => []
  | link :: rest =>
      if decide (link ∈ seen) then firstOccurrences seen rest
      else link :: firstOccurrences (link :: seen) rest
  end.

(** The cell at [index] holds images and is no code cell: the loop over
    the cells stops there. *)
Definition stopsAt (cells : list Chat.ParsedCell) (index : Z) : Prop :=
  exists cell, Chat.cellAt cells index = Some cell
               /\ Chat.hasImages cell = true /\ Chat.isCode cell = false.

Definition sampleParsedCell (kind : CellKind) (images cellLinks : list string)
  : Chat.ParsedCell :=
  {| Chat.type := Some kind; Chat.text := "x = 1"; Chat.editable := true; Chat.tags := [];
     Chat.outputs := []; Chat.imageSources := images; Chat.links := cellLinks |}.

Definition samplePluginConfig : Chat.PluginConfig :=
  {| Chat.pluginEnabled := true; Chat.api_baseURL := "http://localhost:3000/";
     Chat.rules := [];
     Chat.remoteContextGathering :=
       {| Chat.enabled := true; Chat.whitelist := Some ["inferentialthinking.com"];
          Chat.blacklist := ["data8.org"; "berkeley.edu"; "gradescope.com"];
          Chat.jupyterbook_urls := ["inferentialthinking.com"];
          Chat.jupyterbook_linkExpansion := false |};
     Chat.preferences_proactiveEnabled := true |}.

(** A call of one of the four setters of a cell's state. *)
Inductive CellWrite : Type :=
  | ChatHistory (value : list Chat.ChatHistoryItem)
  | LiveResult (value : option string)
  | IsLoading (value : bool)
  | RefreshedCellConfig (value : RuleConfigOverride).

Definition callSetter (call : CellWrite) (notebookPath cellId : string)
           (state : Store.JupytutorReactState) : Store.Outcome :=
  match call with
  | ChatHistory value => Store.setChatHistory notebookPath cellId value state
  | LiveResult value => Store.setLiveResult notebookPath cellId value state
  | IsLoading value => Store.setIsLoading notebookPath cellId value state
  | RefreshedCellConfig value => Store.setRefreshedCellConfig notebookPath cellId value state
  end.

(** The state of a cell with the one field the call names replaced. *)
Definition withField (call : CellWrite) (widget : Store.WidgetState) : Store.WidgetState :=
  match call with
  | ChatHistory value =>
      {| Store.cellConfig := Store.cellConfig widget; Store.chatHistory := value;
         Store.liveResult := Store.liveResult widget;
         Store.isLoading := Store.isLoading widget |}
  | LiveResult value =>
      {| Store.cellConfig := Store.cellConfig widget;
         Store.chatHistory := Store.chatHistory widget;
         Store.liveResult := value; Store.isLoading := Store.isLoading widget |}
  | IsLoading value =>
      {| Store.cellConfig := Store.cellConfig widget;
         Store.chatHistory := Store.chatHistory widget;
         Store.liveResult := Store.liveResult widget; Store.isLoading := value |}
  | RefreshedCellConfig value =>
      {| Store.cellConfig := Some value;
         Store.chatHistory := Store.chatHistory widget;
         Store.liveResult := Store.liveResult widget;
         Store.isLoading := Store.isLoading widget |}
  end.

(** What a write to the state of one cell leaves alone: what every other
    cell with an id of its own (no name of a member of [Object.prototype])
    is read with, what is stored about each notebook apart from its cells'
    states, and the fields outside the notebooks. *)
Definition sameElsewhere (before after : Store.JupytutorReactState)
           (notebookPath cellId : string) : Prop :=
  (forall path id, (path, id) <> (notebookPath, cellId) ->
                   Store.inherited id = false ->
                   Store.useWidgetState after path id = Store.useWidgetState before path id)
  /\ (forall path,
        (Store.notebookStateByPath after !! path ≫= Store.notebookConfig)
        = (Store.notebookStateByPath before !! path ≫= Store.notebookConfig)
        /\ default [] (Store.parsedCells <$> Store.notebookStateByPath after !! path)
           = default [] (Store.parsedCells <$> Store.notebookStateByPath before !! path)
        /\ (Store.notebookStateByPath after !! path ≫= Store.globalNotebookContextRetriever)
           = (Store.notebookStateByPath before !! path
                ≫= Store.globalNotebookContextRetriever))
  /\ Store.userId after = Store.userId before
  /\ Store.jupyterhubHostname after = Store.jupyterhubHostname before
  /\ Store.patchKeyCommand750 after = Store.patchKeyCommand750 before.

(** ** Predicate evaluation *)

Section EvaluationFacts.

Variable RegExp : string -> string -> option (string -> bool).

Lemma getCellContext_out_of_range (cells : list ICellModel) (index : Z) :
  (index < 0 \/ Z.of_nat (List.length cells) <= index)%Z ->
  getCellContext cells index = None.
Proof.
  intros Hrange. unfold getCellContext.
  destruct (index <? 0)%Z eqn:Hneg; [reflexivity|].
  destruct (Z.of_nat (List.length cells) <=? index)%Z eqn:Hlen; [reflexivity|].
  apply Z.ltb_ge in Hneg. apply Z.leb_gt in Hlen. lia.
Qed.

Lemma getCellContext_in_range (cells : list ICellModel) (index : Z) :
  (0 <= index < Z.of_nat (List.length cells))%Z ->
  exists cell, nth_error cells (Z.to_nat index) = Some cell
               /\ getCellContext cells index = Some (buildCellContext cell).
Proof.
  intros [Hlo Hhi]. unfold getCellContext, cellAt.
  destruct (index <? 0)%Z eqn:Hneg; [apply Z.ltb_lt in Hneg; lia|].
  destruct (Z.of_nat (List.length cells) <=? index)%Z eqn:Hlen;
    [apply Z.leb_le in Hlen; lia|].
  simpl. destruct (nth_error cells (Z.to_nat index)) as [cell|] eqn:Hnth.
  - exists cell. split; reflexivity.
  - apply nth_error_None in Hnth. lia.
Qed.

(** With no context at the index, a predicate that needs one is false. *)
Lemma needsContext_without_context (contextForIndex : Z -> option CellContext) :
  forall (p : Predicate) (cellIndex : Z),
    contextForIndex cellIndex = None ->
    needsContext p = true ->
    evaluatePredicate RegExp p contextForIndex cellIndex = false.
Proof.
  induction p as [inner IH|inner IH|inner IH|offset inner IH| | | | | | |]
    using Predicate_nested_ind;
    intros cellIndex Hnone Hneeds; simpl in *;
    try discriminate; try (rewrite Hnone; reflexivity).
  - induction IH as [|q rest Hq Hrest IHrest]; simpl in *; [discriminate|].
    destruct (needsContext q) eqn:Hnq.
    + rewrite (Hq cellIndex Hnone eq_refl). reflexivity.
    + simpl in Hneeds. rewrite (IHrest Hneeds). apply andb_false_r.
  - induction IH as [|q rest Hq Hrest IHrest]; simpl in *; [reflexivity|].
    apply andb_prop in Hneeds. destruct Hneeds as [Hnq Hnrest].
    rewrite (Hq cellIndex Hnone Hnq). simpl. apply IHrest, Hnrest.
Qed.

(** The evaluation only looks at the contexts the lookup returns. *)
Lemma evaluatePredicate_ext (lookup1 lookup2 : Z -> option CellContext) :
  (forall index, lookup1 index = lookup2 index) ->
  forall (p : Predicate) (cellIndex : Z),
    evaluatePredicate RegExp p lookup1 cellIndex
    = evaluatePredicate RegExp p lookup2 cellIndex.
Proof.
  intros Hext.
  induction p as [inner IH|inner IH|inner IH|offset inner IH| | | | | | |]
    using Predicate_nested_ind;
    intros cellIndex; simpl; try (rewrite Hext; reflexivity).
  - induction IH as [|q rest Hq Hrest IHrest]; simpl; [reflexivity|].
    rewrite Hq, IHrest. reflexivity.
  - induction IH as [|q rest Hq Hrest IHrest]; simpl; [reflexivity|].
    rewrite Hq, IHrest. reflexivity.
  - rewrite IH. reflexivity.
  - apply IH.
Qed.

End EvaluationFacts.

(** C2, as stated, fails: one cell, and the cell after it is asked not to
    have an error.  The index is out of range, the inner leaf is false
    there, and its negation makes the nearby predicate true. *)
Lemma nearbyCell_out_of_range_can_hold :
  let cells := [sampleCell "code" [] []] in
  let inner := PNot (PHasError true) in
  getCellContext cells (0 + 1) = None
  /\ evaluatePredicate sampleRegExp (PNearbyCell 1 inner) (getCellContext cells) 0 = true.
Proof. split; reflexivity. Qed.

(** C2, amended: for every offset that leads outside the notebook,
    NearbyCell(offset, inner) is the value of [inner] at the index outside
    the notebook; the evaluation is a total function, so nothing is
    thrown.  That value is false for every inner predicate that needs the
    context of its cell (a leaf, an OR of such, an AND with at least one
    such).  It is true for the negation of such a predicate and for the
    AND of no predicate, and for a nested NearbyCell it is the value of the
    innermost predicate at the index both offsets lead to, which may lie
    inside the notebook again. *)
Theorem nearbyCell_out_of_range_is_false
        (RegExp : string -> string -> option (string -> bool))
        (cells : list ICellModel) (currentIndex offset : Z) :
  (currentIndex + offset < 0 \/ Z.of_nat (List.length cells) <= currentIndex + offset)%Z ->
  (forall inner : Predicate,
      needsContext inner = true ->
      evaluatePredicate RegExp (PNearbyCell offset inner) (getCellContext cells) currentIndex
      = false)
  /\ (forall inner : Predicate,
        needsContext inner = true ->
        evaluatePredicate RegExp (PNearbyCell offset (PNot inner)) (getCellContext cells)
                          currentIndex
        = true)
  /\ evaluatePredicate RegExp (PNearbyCell offset (PAnd [])) (getCellContext cells)
                       currentIndex
     = true
  /\ (forall inner : Predicate,
        evaluatePredicate RegExp (PNearbyCell offset inner) (getCellContext cells)
                          currentIndex
        = evaluatePredicate RegExp inner (getCellContext cells) (currentIndex + offset))
  /\ (forall (offset' : Z) (inner : Predicate),
        evaluatePredicate RegExp (PNearbyCell offset (PNearbyCell offset' inner))
                          (getCellContext cells) currentIndex
        = evaluatePredicate RegExp inner (getCellContext cells)
                            (currentIndex + offset + offset')).
Proof.
  intros Hrange.
  assert (Hfalse : forall inner : Predicate,
             needsContext inner = true ->
             evaluatePredicate RegExp inner (getCellContext cells) (currentIndex + offset)
             = false).
  { intros inner Hneeds. apply needsContext_without_context; [|exact Hneeds].
    apply getCellContext_out_of_range, Hrange. }
  split; [|split; [|split; [|split]]].
  - intros inner Hneeds. cbn [evaluatePredicate]. apply Hfalse, Hneeds.
  - intros inner Hneeds. cbn [evaluatePredicate]. rewrite (Hfalse inner Hneeds). reflexivity.
  - reflexivity.
  - intros inner. reflexivity.
  - intros offset' inner. reflexivity.
Qed.

Lemma nearbyCell_out_of_range_is_false_witness :
  evaluatePredicate sampleRegExp
                    (PNearbyCell (-1) (POr [PHasError true; PTags (AAll (MLiteral "a"))]))
                    (getCellContext [sampleCell "code" [] []]) 0
  = false
  /\ evaluatePredicate sampleRegExp (PNearbyCell (-1) (PNot (PIsEditable true)))
                       (getCellContext [sampleCell "code" [] []]) 0
     = true.
Proof.
  destruct (nearbyCell_out_of_range_is_false sampleRegExp [sampleCell "code" [] []] 0 (-1))
    as [Hfalse [Htrue _]].
  - left. reflexivity.
  - split; [apply Hfalse|apply Htrue]; reflexivity.
Defined.

(** A nested NearbyCell whose first offset leads outside the notebook and
    whose second leads back: the leaf is read at the cell itself, and
    holds. *)
Example nearbyCell_nested_comes_back :
  let cells := [sampleCell "code" [] []] in
  getCellContext cells (0 + 1) = None
  /\ evaluatePredicate sampleRegExp
                       (PNearbyCell 1 (PNearbyCell (-1) (PCellType (CLiteral "code"))))
                       (getCellContext cells) 0
     = true.
Proof. split; reflexivity. Qed.

(** C8: AND of no predicate is true and OR of no predicate is false, at
    every lookup and index; Tags all is true on a cell without tags. *)
Theorem empty_AND_OR_and_Tags_all
        (RegExp : string -> string -> option (string -> bool))
        (contextForIndex : Z -> option CellContext) (cellIndex : Z) :
  evaluatePredicate RegExp (PAnd []) contextForIndex cellIndex = true
  /\ evaluatePredicate RegExp (POr []) contextForIndex cellIndex = false
  /\ forall (m : StringMatch) (context : CellContext),
      contextForIndex cellIndex = Some context ->
      tags context = [] ->
      evaluatePredicate RegExp (PTags (AAll m)) contextForIndex cellIndex = true.
Proof.
  split; [reflexivity|]. split; [reflexivity|].
  intros m context Hcontext Htags. simpl. rewrite Hcontext. simpl.
  rewrite Htags. reflexivity.
Qed.

Lemma empty_AND_OR_and_Tags_all_witness :
  evaluatePredicate sampleRegExp (PTags (AAll (MIs "graded")))
                    (getCellContext [sampleCell "markdown" [("tags", JArr [JNum 3])] []]) 0
  = true.
Proof.
  eapply (proj2 (proj2 (empty_AND_OR_and_Tags_all sampleRegExp _ 0))); reflexivity.
Defined.

(** C9: a matchesRegex matcher whose pattern or flags do not compile
    matches no value, and the predicates built on it evaluate to false
    instead of failing. *)
Theorem malformed_regex_is_non_match
        (RegExp : string -> string -> option (string -> bool))
        (pattern : string) (flags : option string) :
  RegExp pattern (default EmptyString flags) = None ->
  (forall value, evaluateStringPredicate RegExp value (MMatchesRegex pattern flags) = false)
  /\ (forall contextForIndex cellIndex,
        evaluatePredicate RegExp (PContent (MMatchesRegex pattern flags))
                          contextForIndex cellIndex = false
        /\ evaluatePredicate RegExp (POutput (MMatchesRegex pattern flags))
                             contextForIndex cellIndex = false
        /\ evaluatePredicate RegExp (PTags (AAny (MMatchesRegex pattern flags)))
                             contextForIndex cellIndex = false).
Proof.
  intros Hfail.
  assert (Hvalue : forall value,
             evaluateStringPredicate RegExp value (MMatchesRegex pattern flags) = false).
  { intros value. simpl. rewrite Hfail. reflexivity. }
  split; [exact Hvalue|].
  intros contextForIndex cellIndex.
  cbn [evaluatePredicate evaluateArrayPredicate].
  destruct (contextForIndex cellIndex) as [context|]; [|repeat split; reflexivity].
  repeat split.
  - apply Hvalue.
  - destruct (negb (nonEmpty (outputText context))); [reflexivity|apply Hvalue].
  - induction (tags context) as [|t rest IH]; [reflexivity|].
    cbn [existsb]. rewrite Hvalue. exact IH.
Qed.

Lemma malformed_regex_is_non_match_witness :
  evaluateStringPredicate sampleRegExp "abc[" (MMatchesRegex "[" None) = false.
Proof.
  apply (proj1 (malformed_regex_is_non_match sampleRegExp "[" None eq_refl)).
Defined.

(** ** Merging *)

Lemma includes_cons_false (c : ascii) (s p : string) :
  includes (String c s) p = false -> includes s p = false.
Proof.
  simpl. intros H. apply orb_false_elim in H. destruct H as [_ H].
  destruct s; exact H.
Qed.

Lemma includes_dollar_head (c : ascii) (s : string) :
  includes (String c s) "$" = false -> c <> "$"%char.
Proof.
  intros H Hc. subst c. simpl in H. destruct s; discriminate H.
Qed.

(** A replacement text without a dollar sign is inserted as it is. *)
Lemma getSubstitution_plain (matched before after replacement : string) :
  includes replacement "$" = false ->
  getSubstitution matched before after replacement = replacement.
Proof.
  induction replacement as [|c r IH]; intros Hplain; [reflexivity|].
  pose proof (includes_dollar_head c r Hplain) as Hc.
  apply includes_cons_false in Hplain. specialize (IH Hplain).
  destruct c as [[] [] [] [] [] [] [] []];
    try (exfalso; apply Hc; reflexivity);
    simpl; rewrite IH; reflexivity.
Qed.

Lemma replace_plain (s pattern replacement : string) :
  includes replacement "$" = false ->
  JS.replace s pattern replacement = replaceLiteral s pattern replacement.
Proof.
  intros Hplain. unfold JS.replace, replaceLiteral.
  destruct (splitFirst s pattern) as [[before after]|]; [|reflexivity].
  rewrite getSubstitution_plain by exact Hplain. reflexivity.
Qed.

(** The keys other than [instructorNote]: a key of the update wins, an
    absent key leaves the current value. *)
Lemma mergeRuleConfigs_other_keys (current : RuleConfigOverride) (update : PartialRuleConfig) :
  chatEnabled (mergeRuleConfigs current update)
  = default (chatEnabled current) (chatEnabled' update)
  /\ chatProactive (mergeRuleConfigs current update)
     = default (chatProactive current) (chatProactive' update)
  /\ quickResponses (mergeRuleConfigs current update)
     = default (quickResponses current) (quickResponses' update).
Proof. repeat split. Qed.

(** The note, when the prior note holds no dollar sign: replaced outright
    without the placeholder, spliced in at its first occurrence with it. *)
Lemma mergeRuleConfigs_note_plain
      (current : RuleConfigOverride) (update : PartialRuleConfig) (note : string) :
  instructorNote' update = Some note ->
  includes (instructorNote current) "$" = false ->
  instructorNote (mergeRuleConfigs current update)
  = if includes note priorNotesPlaceholder
    then replaceLiteral note priorNotesPlaceholder (instructorNote current)
    else note.
Proof.
  intros Hnote Hplain. unfold mergeRuleConfigs. cbn [instructorNote].
  rewrite Hnote. destruct (includes note priorNotesPlaceholder); [|reflexivity].
  apply replace_plain, Hplain.
Qed.

(** C3 at its failing input: the prior note carries display mathematics
    between doubled dollar signs; [String.prototype.replace] reads each
    pair as an escape and the merged note loses one sign of each pair,
    where the substitution the claim describes keeps the prior note intact. *)
Theorem prior_notes_with_dollar_signs_are_rewritten :
  let current :=
    {| chatEnabled := true; chatProactive := true;
       instructorNote := "Write the mean as $$m$$.";
       quickResponses := [] |} in
  let update :=
    {| chatEnabled' := None; chatProactive' := None;
       instructorNote' := Some "{{prior_notes}} Keep answers short.";
       quickResponses' := None |} in
  instructorNote (mergeRuleConfigs current update)
  = "Write the mean as $m$. Keep answers short."
  /\ replaceLiteral "{{prior_notes}} Keep answers short." priorNotesPlaceholder
                    (instructorNote current)
     = "Write the mean as $$m$$. Keep answers short.".
Proof. split; reflexivity. Qed.

(** ** Cell-level overrides *)

Section ResolutionFacts.

Variable RegExp : string -> string -> option (string -> bool).
Variable parseRuleConfig : PartialRuleConfig -> PartialRuleConfig.

Lemma buildCellContext_withOverride (override : option json) (cell : ICellModel) :
  buildCellContext (withOverride override cell) = buildCellContext cell.
Proof.
  assert (Hkey : forall key, key <> "jupytutor" ->
              getMetadata (withOverride override cell) key = getMetadata cell key).
  { intros key Hne. unfold getMetadata, withOverride. simpl.
    destruct override as [v|].
    - apply lookup_insert_ne. congruence.
    - apply lookup_delete_ne. congruence. }
  unfold buildCellContext.
  rewrite (Hkey "editable") by discriminate.
  rewrite (Hkey "tags") by discriminate.
  reflexivity.
Qed.

Lemma getMetadata_withOverride (override : option json) (cell : ICellModel) :
  getMetadata (withOverride override cell) "jupytutor" = override.
Proof.
  unfold getMetadata, withOverride. simpl. destruct override as [v|].
  - apply lookup_insert_eq.
  - apply lookup_delete_eq.
Qed.

Lemma getCellContext_same_contexts (cells1 cells2 : list ICellModel) :
  Forall2 (fun c1 c2 => buildCellContext c1 = buildCellContext c2) cells1 cells2 ->
  forall index, getCellContext cells1 index = getCellContext cells2 index.
Proof.
  intros Hsame index. unfold getCellContext, cellAt.
  rewrite (Forall2_length _ _ _ Hsame).
  destruct (index <? 0)%Z; [reflexivity|].
  destruct (Z.of_nat (List.length cells2) <=? index)%Z; [reflexivity|]. simpl.
  generalize (Z.to_nat index) as n.
  induction Hsame as [|c1 c2 rest1 rest2 Hc Hrest IH]; intros [|n]; simpl;
    try reflexivity.
  - rewrite Hc. reflexivity.
  - apply IH.
Qed.

Lemma same_contexts_split (before after : list ICellModel) (c1 c2 : ICellModel) :
  buildCellContext c1 = buildCellContext c2 ->
  Forall2 (fun a b => buildCellContext a = buildCellContext b)
          (before ++ c1 :: after) (before ++ c2 :: after).
Proof.
  intros Hc. apply Forall2_app.
  - induction before; constructor; [reflexivity|assumption].
  - constructor; [exact Hc|].
    induction after; constructor; [reflexivity|assumption].
Qed.

Lemma rules_same_contexts (cells1 cells2 : list ICellModel) (cellIndex : Z) :
  (forall index, getCellContext cells1 index = getCellContext cells2 index) ->
  forall (configRules : list Rule) (start : RuleConfigOverride),
    fold_left (applyRule RegExp parseRuleConfig cells1 cellIndex) configRules start
    = fold_left (applyRule RegExp parseRuleConfig cells2 cellIndex) configRules start.
Proof.
  intros Hsame. induction configRules as [|rule rest IH]; intros start; [reflexivity|].
  simpl. rewrite IH. f_equal. unfold applyRule.
  destruct (when rule) as [predicate|]; [|reflexivity].
  rewrite (evaluatePredicate_ext RegExp _ _ Hsame). reflexivity.
Qed.

Lemma cellAt_split (before after : list ICellModel) (cell : ICellModel) :
  cellAt (before ++ cell :: after) (Z.of_nat (List.length before)) = Some cell.
Proof.
  unfold cellAt.
  destruct (Z.of_nat (List.length before) <? 0)%Z eqn:Hneg;
    [apply Z.ltb_lt in Hneg; lia|].
  rewrite Nat2Z.id, nth_error_app2 by lia.
  rewrite Nat.sub_diag. reflexivity.
Qed.

(** C4: a [jupytutor] entry that is not an object (a string, a number,
    null, an array) or that the partial schema rejects changes nothing:
    the resolution is the one of the same notebook with the entry
    removed, which is the outcome of the notebook rules alone. *)
Theorem invalid_cell_override_is_ignored
        (before after : list ICellModel) (cell : ICellModel) (v : json)
        (configRules : list Rule) :
  invalidOverride v ->
  let cellIndex := Z.of_nat (List.length before) in
  let withInvalid := (before ++ withOverride (Some v) cell :: after)%list in
  let without := (before ++ withOverride None cell :: after)%list in
  applyConfigRules RegExp parseRuleConfig withInvalid cellIndex configRules
  = applyConfigRules RegExp parseRuleConfig without cellIndex configRules
  /\ applyConfigRules RegExp parseRuleConfig withInvalid cellIndex configRules
     = fold_left (applyRule RegExp parseRuleConfig without cellIndex) configRules baseConfig.
Proof.
  intros Hinvalid cellIndex withInvalid without.
  assert (Hrules :
            fold_left (applyRule RegExp parseRuleConfig withInvalid cellIndex)
                      configRules baseConfig
            = fold_left (applyRule RegExp parseRuleConfig without cellIndex)
                        configRules baseConfig).
  { apply rules_same_contexts, getCellContext_same_contexts, same_contexts_split.
    rewrite !buildCellContext_withOverride. reflexivity. }
  assert (Hleft :
            applyConfigRules RegExp parseRuleConfig withInvalid cellIndex configRules
            = fold_left (applyRule RegExp parseRuleConfig without cellIndex)
                        configRules baseConfig).
  { unfold applyConfigRules, withInvalid, cellIndex.
    rewrite cellAt_split, getMetadata_withOverride.
    destruct v as [| | | | |raw]; try exact Hrules.
    simpl in Hinvalid. rewrite Hinvalid. exact Hrules. }
  split; [|exact Hleft].
  rewrite Hleft. unfold applyConfigRules, without, cellIndex.
  rewrite cellAt_split, getMetadata_withOverride. reflexivity.
Qed.

End ResolutionFacts.

Lemma invalid_cell_override_is_ignored_witness :
  let cell := sampleCell "code" [] [] in
  let v := JObj [("chatEnabled", JBool false); ("instructorNote", JNum 3)] in
  applyConfigRules sampleRegExp id [withOverride (Some v) cell] 0 sampleRules
  = applyConfigRules sampleRegExp id [withOverride None cell] 0 sampleRules.
Proof.
  intros cell v.
  apply (proj1 (invalid_cell_override_is_ignored sampleRegExp id [] [] cell v sampleRules
                                                 eq_refl)).
Defined.

(** *** The cases of the repository's tests *)

Example default_config_without_rules_and_metadata :
  applyConfigRules sampleRegExp id [sampleCell "code" [] []] 0 [] = baseConfig.
Proof. reflexivity. Qed.

Example cell_metadata_is_applied :
  applyConfigRules sampleRegExp id
                   [sampleCell "code"
                               (override [("chatEnabled", JBool true);
                                          ("instructorNote", JStr "Cell note");
                                          ("quickResponses", JArr [JStr "Help me"])])
                               []]
                   0 []
  = {| chatEnabled := true; chatProactive := true;
       instructorNote := "Cell note"; quickResponses := ["Help me"] |}.
Proof. reflexivity. Qed.

Example cell_metadata_wins_over_rules :
  applyConfigRules sampleRegExp id
                   [sampleCell "code" (override [("instructorNote", JStr "Cell override")]) []]
                   0 sampleRules
  = {| chatEnabled := true; chatProactive := true;
       instructorNote := "Cell override"; quickResponses := [] |}.
Proof. reflexivity. Qed.

Example cell_metadata_placeholder :
  instructorNote
    (applyConfigRules sampleRegExp id
                      [sampleCell "code"
                                  (override [("instructorNote",
                                              JStr "{{prior_notes}} -- cell addendum")])
                                  []]
                      0 sampleRules)
  = "Rule note -- cell addendum".
Proof. reflexivity. Qed.

Example cell_metadata_not_an_object :
  applyConfigRules sampleRegExp id
                   [sampleCell "code" [("jupytutor", JStr "not an object")] []] 0 []
  = baseConfig.
Proof. reflexivity. Qed.

Example cell_metadata_partial_override :
  applyConfigRules sampleRegExp id
                   [sampleCell "code" (override [("quickResponses", JArr [JStr "From cell"])]) []]
                   0 sampleRules
  = {| chatEnabled := true; chatProactive := true;
       instructorNote := "Rule note"; quickResponses := ["From cell"] |}.
Proof. reflexivity. Qed.

Example default_rules_on_an_error_cell :
  applyConfigRules sampleRegExp id sampleNotebook 0 defaultRules
  = {| chatEnabled := true; chatProactive := true;
       instructorNote := EmptyString; quickResponses := ["Explain this error."] |}.
Proof. reflexivity. Qed.

Example default_rules_on_a_disabled_cell :
  applyConfigRules sampleRegExp id sampleNotebook 1 defaultRules
  = {| chatEnabled := false; chatProactive := false;
       instructorNote := EmptyString; quickResponses := [] |}.
Proof. reflexivity. Qed.

Example nearby_cell_sees_the_error_cell :
  evaluatePredicate sampleRegExp (PNearbyCell (-1) (POutput (MMatchesRegex "not defined" None)))
                    (getCellContext sampleNotebook) 1
  = true.
Proof. reflexivity. Qed.

(** ** Output text *)

Lemma extractOutputText_is_amended (output : json) :
  extractOutputText output = extractOutputText_amended output.
Proof.
  unfold extractOutputText, extractOutputText_amended, inData.
  destruct (truthy output); [|reflexivity]. simpl.
  assert (Hrest : forall rest : string,
             match get output "text" with
             | Some textValue => textOf textValue
             | None => rest
             end
             = match textOf <$> get output "text" with
               | Some s => s
               | None => rest
               end).
  { intros rest. destruct (get output "text"); reflexivity. }
  assert (Hlast : match get output "evalue" with
                  | Some evalue => toString evalue
                  | None => stringify output
                  end
                  = match toString <$> get output "evalue" with
                    | Some s => s
                    | None => stringify output
                    end).
  { destruct (get output "evalue"); reflexivity. }
  destruct (get output "data") as [[|b|n|s|items|fields]|]; cbn;
    try (rewrite Hrest, Hlast; reflexivity).
  destruct (assoc "text/plain" fields) as [[|b|n|s|items|inner]|]; cbn;
    try reflexivity;
    destruct (assoc "text" fields); cbn; try reflexivity;
    rewrite Hrest, Hlast; reflexivity.
Qed.




(** ** URL normalisation *)

Lemma append_assoc (a b c : string) : (a +:+ b) +:+ c = a +:+ (b +:+ c).
Proof. induction a as [|x a IH]; simpl; [reflexivity|]. rewrite IH. reflexivity. Qed.

Lemma append_empty (a : string) : a +:+ EmptyString = a.
Proof. induction a as [|x a IH]; simpl; [reflexivity|]. rewrite IH. reflexivity. Qed.

Lemma cut_found (c : ascii) (s before after : string) :
  cut c s = (before, Some after) -> s = before +:+ String c after.
Proof.
  revert before. induction s as [|a s IH]; intros before H; simpl in H; [discriminate|].
  destruct (Ascii.eqb_spec a c) as [->|Hne].
  - inversion H. reflexivity.
  - destruct (cut c s) as [b' a'] eqn:Hcut. inversion H. subst.
    simpl. rewrite (IH b' eq_refl). reflexivity.
Qed.

Lemma cut_missing (c : ascii) (s before : string) :
  cut c s = (before, None) -> s = before.
Proof.
  revert before. induction s as [|a s IH]; intros before H; simpl in H.
  - inversion H. reflexivity.
  - destruct (Ascii.eqb a c); [discriminate|].
    destruct (cut c s) as [b' a'] eqn:Hcut. inversion H. subst.
    rewrite (IH b' eq_refl). reflexivity.
Qed.

Lemma cutPath_text (s rawHost rawPath : string) :
  Index.cutPath s = (rawHost, rawPath) -> s = rawHost +:+ rawPath.
Proof.
  revert rawHost. induction s as [|a s IH]; intros rawHost H; simpl in H.
  - inversion H. reflexivity.
  - destruct (Ascii.eqb a "/").
    + inversion H. reflexivity.
    + destruct (Index.cutPath s) as [h p] eqn:Hcut. inversion H. subst.
      simpl. rewrite (IH h eq_refl). reflexivity.
Qed.

Lemma prefix_text (p s : string) :
  String.prefix p s = true -> s = p +:+ JS.drop (String.length p) s.
Proof.
  revert s. induction p as [|x p IH]; intros s H; [reflexivity|].
  destruct s as [|y s]; simpl in H; [discriminate|].
  destruct (ascii_dec x y) as [->|]; [|discriminate].
  simpl. rewrite <- (IH s H). reflexivity.
Qed.

Lemma endsWith_slash (s : string) :
  endsWith s "/" = true -> s = dropLast s +:+ "/".
Proof.
  induction s as [|a s IH]; intros H; [discriminate|].
  destruct s as [|b s].
  - simpl in H. rewrite orb_false_r in H.
    destruct (Ascii.eqb_spec a "/") as [->|]; [reflexivity|discriminate].
  - assert (Htail : endsWith (String b s) "/" = true).
    { cbn [endsWith] in H. apply orb_prop in H. destruct H as [H|H]; [|exact H].
      cbn [String.eqb] in H. destruct (Ascii.eqb a "/"); discriminate. }
    change (dropLast (String a (String b s))) with (String a (dropLast (String b s))).
    cbn [append]. rewrite <- (IH Htail). reflexivity.
Qed.




(** ** The retriever's background work *)

Section RetrieverFacts.

Context `{api : UrlApi}.
Variable localeCompare : string -> string -> Z.
Variable fetchHrefs : string -> option (list string).
Variable resolve : string -> string -> option string.
Variable fetchText : string -> option string.

Lemma filter_twice {A : Type} (f g : A -> bool) (l : list A) :
  List.filter g (List.filter f l) = List.filter (fun x => f x && g x) l.
Proof.
  induction l as [|x l IH]; [reflexivity|]. simpl.
  destruct (f x); simpl; [destruct (g x)|]; rewrite ?IH; reflexivity.
Qed.

Lemma filter_all {A : Type} (l : list A) : List.filter (fun _ => true) l = l.
Proof. induction l as [|x l IH]; [reflexivity|]. simpl. rewrite IH. reflexivity. Qed.

Lemma scrapeSourceLinksStart_links (r : Retriever) :
  _sourceLinks (scrapeSourceLinksStart r)
  = List.filter (survives (_whitelistedURLs r) (_blacklistedURLs r)) (_sourceLinks r).
Proof.
  unfold scrapeSourceLinksStart.
  destruct (_sourceLinks r) as [|link links] eqn:Hlinks; [reflexivity|].
  cbn [_sourceLinks]. unfold survives, isWhitelisted, isBlacklisted.
  destruct (_whitelistedURLs r) as [|w ws]; destruct (_blacklistedURLs r) as [|b bs];
    cbn [List.length Nat.ltb Nat.leb].
  - cbn [existsb negb andb]. rewrite filter_all. reflexivity.
  - reflexivity.
  - rewrite <- (filter_all (List.filter _ (link :: links))) at 1.
    rewrite filter_twice. apply filter_ext. intros url.
    cbn [existsb negb]. reflexivity.
  - rewrite filter_twice. reflexivity.
Qed.

Lemma scrapeSourceLinksStart_started (r : Retriever) :
  scrapingStarted (scrapeSourceLinksStart r).
Proof.
  unfold scrapingStarted, scrapeSourceLinksStart.
  destruct (_sourceLinks r); exact I.
Qed.

(** Once the scraping stage has started, no later event writes the list. *)
Lemma step_keeps_links (r r' : Retriever) :
  scrapingStarted r -> step localeCompare fetchHrefs resolve fetchText r r' ->
  scrapingStarted r' /\ _sourceLinks r' = _sourceLinks r.
Proof.
  intros Hstarted Hstep. destruct Hstep as [r books Hpending|r links Hpending|r].
  - unfold scrapingStarted in Hstarted. rewrite Hpending in Hstarted. contradiction.
  - split; [exact I|reflexivity].
  - split; [exact Hstarted|reflexivity].
Qed.

Lemma steps_keep_links (r r' : Retriever) :
  scrapingStarted r -> steps localeCompare fetchHrefs resolve fetchText r r' ->
  scrapingStarted r' /\ _sourceLinks r' = _sourceLinks r.
Proof.
  intros Hstarted Hsteps. induction Hsteps as [r|r1 r2 r3 Hstep Hsteps IH].
  - split; [exact Hstarted|reflexivity].
  - destruct (step_keeps_links r1 r2 Hstarted Hstep) as [Hstarted2 Hlinks2].
    destruct (IH Hstarted2) as [Hstarted3 Hlinks3].
    split; [exact Hstarted3|]. rewrite Hlinks3. exact Hlinks2.
Qed.

(** Before the scraping stage, the only event that touches the list is
    the end of the expansion, which hands [scrapeInput] to the stage. *)
Lemma steps_from_expansion (cfg : ContextRetrievalConfig) (r r' : Retriever) :
  pending r = AwaitingExpansion (jupyterbookURLs cfg) ->
  attemptJupyterbookLinkExpansion cfg = true ->
  _sourceLinks r = sourceLinks cfg ->
  steps localeCompare fetchHrefs resolve fetchText r r' -> scrapingStarted r' ->
  _sourceLinks r'
  = List.filter (survives (_whitelistedURLs r) (_blacklistedURLs r))
                (scrapeInput localeCompare fetchHrefs resolve cfg).
Proof.
  intros Hpending Hexpand Hlinks Hsteps.
  induction Hsteps as [r|r1 r2 r3 Hstep Hsteps IH]; intros Hstarted.
  - unfold scrapingStarted in Hstarted. rewrite Hpending in Hstarted. contradiction.
  - destruct Hstep as [r books Hp|r links Hp|r].
    + rewrite Hpending in Hp. inversion Hp. subst books.
      assert (Hs : scrapingStarted
                     (loaded (scrapeSourceLinksStart
                                (expandJupyterBookLinksFinish localeCompare fetchHrefs resolve
                                                              (jupyterbookURLs cfg) r)))).
      { apply scrapeSourceLinksStart_started. }
      destruct (steps_keep_links _ _ Hs Hsteps) as [_ Hkept]. rewrite Hkept.
      cbn [loaded _sourceLinks]. rewrite scrapeSourceLinksStart_links.
      cbn [expandJupyterBookLinksFinish _sourceLinks _whitelistedURLs _blacklistedURLs].
      unfold scrapeInput. rewrite Hexpand, Hlinks. reflexivity.
    + rewrite Hpending in Hp. discriminate Hp.
    + apply (IH Hpending Hlinks Hstarted).
Qed.

(** Once the scraping stage has started, both promises are settled: the
    constructor's async function calls [scrapeSourceLinks] last and does
    not await it. *)
Lemma step_keeps_promises (r r' : Retriever) :
  (scrapingStarted r -> _loadedPromise r = true /\ _softTimeoutPromise r = true) ->
  step localeCompare fetchHrefs resolve fetchText r r' ->
  scrapingStarted r' -> _loadedPromise r' = true /\ _softTimeoutPromise r' = true.
Proof.
  intros Hsettled Hstep Hstarted. destruct Hstep as [r books Hpending|r links Hpending|r].
  - split; reflexivity.
  - apply Hsettled. unfold scrapingStarted. rewrite Hpending. exact I.
  - destruct (Hsettled Hstarted) as [Hloaded _]. split; [exact Hloaded|reflexivity].
Qed.

Lemma steps_keep_promises (r r' : Retriever) :
  (scrapingStarted r -> _loadedPromise r = true /\ _softTimeoutPromise r = true) ->
  steps localeCompare fetchHrefs resolve fetchText r r' ->
  scrapingStarted r' -> _loadedPromise r' = true /\ _softTimeoutPromise r' = true.
Proof.
  intros Hsettled Hsteps. induction Hsteps as [r|r1 r2 r3 Hstep Hsteps IH].
  - exact Hsettled.
  - apply IH. exact (step_keeps_promises r1 r2 Hsettled Hstep).
Qed.

Lemma constructor_promises (cfg : ContextRetrievalConfig) :
  debug cfg = false ->
  scrapingStarted (constructor cfg) ->
  _loadedPromise (constructor cfg) = true /\ _softTimeoutPromise (constructor cfg) = true.
Proof.
  intros Hdebug. unfold Retrieval.constructor. rewrite Hdebug.
  destruct (attemptJupyterbookLinkExpansion cfg).
  - intros Hstarted. contradiction Hstarted.
  - intros _. split; reflexivity.
Qed.

(** C10: outside debug mode, in every state the instance reaches once the
    scraping stage has started, the stored list is what the stage left of
    its input: the links that contain a whitelist entry (when there is a
    whitelist) and no blacklist entry, in their order; [getSourceLinks]
    returns that list, with either flag, in that state and in every state
    reached later. *)
Theorem scraping_filters_the_stored_links (cfg : ContextRetrievalConfig) (r : Retriever) :
  debug cfg = false ->
  steps localeCompare fetchHrefs resolve fetchText (constructor cfg) r ->
  scrapingStarted r ->
  let surviving :=
    List.filter (survives (default [] (whitelistedURLs cfg)) (blacklistedURLs cfg))
                (scrapeInput localeCompare fetchHrefs resolve cfg) in
  _sourceLinks r = surviving
  /\ (forall enforcing, getSourceLinks enforcing r = Some surviving)
  /\ (forall r' enforcing,
        steps localeCompare fetchHrefs resolve fetchText r r' ->
        getSourceLinks enforcing r' = Some surviving)
  /\ (forall url,
        In url surviving <->
        In url (scrapeInput localeCompare fetchHrefs resolve cfg)
        /\ (default [] (whitelistedURLs cfg) = []
            \/ exists entry, In entry (default [] (whitelistedURLs cfg))
                             /\ includes url entry = true)
        /\ ~ (exists entry, In entry (blacklistedURLs cfg) /\ includes url entry = true)).
Proof.
  intros Hdebug Hsteps Hstarted surviving.
  assert (Hlinks : _sourceLinks r = surviving).
  { unfold Retrieval.constructor in Hsteps. rewrite Hdebug in Hsteps.
    destruct (attemptJupyterbookLinkExpansion cfg) eqn:Hexpand.
    - match type of Hsteps with
      | steps _ _ _ _ ?r0 _ =>
          exact (steps_from_expansion cfg r0 r eq_refl Hexpand eq_refl Hsteps Hstarted)
      end.
    - match type of Hsteps with
      | steps _ _ _ _ ?r0 _ =>
          assert (Hs : scrapingStarted r0) by apply scrapeSourceLinksStart_started;
          destruct (steps_keep_links r0 r Hs Hsteps) as [_ Hkept]
      end.
      rewrite Hkept. cbn [loaded _sourceLinks]. rewrite scrapeSourceLinksStart_links.
      unfold surviving, scrapeInput. rewrite Hexpand. reflexivity. }
  assert (Hsettled : scrapingStarted r ->
                     _loadedPromise r = true /\ _softTimeoutPromise r = true).
  { exact (steps_keep_promises _ r (constructor_promises cfg Hdebug) Hsteps). }
  assert (Hread : forall r' enforcing,
             steps localeCompare fetchHrefs resolve fetchText r r' ->
             getSourceLinks enforcing r' = Some surviving).
  { intros r' enforcing Hlater.
    destruct (steps_keep_links r r' Hstarted Hlater) as [Hstarted' Hkept].
    destruct (steps_keep_promises r r' Hsettled Hlater Hstarted') as [Hloaded Hsoft].
    unfold getSourceLinks, awaited. rewrite Hloaded, Hsoft, Hkept, Hlinks.
    destruct enforcing; reflexivity. }
  split; [exact Hlinks|]. split; [|split; [exact Hread|]].
  - intros enforcing. apply Hread. apply steps_refl.
  - intros url. unfold surviving. rewrite filter_In. unfold survives.
    rewrite andb_true_iff, negb_true_iff.
    split.
    + intros [Hin [Hwhite Hblack]]. split; [exact Hin|]. split.
      * destruct (default [] (whitelistedURLs cfg)) as [|w ws] eqn:Hw; [left; reflexivity|].
        right. apply existsb_exists in Hwhite. exact Hwhite.
      * intros Hex.
        assert (Hfound : existsb (fun entry => includes url entry) (blacklistedURLs cfg)
                         = true) by (apply existsb_exists; exact Hex).
        rewrite Hfound in Hblack. discriminate.
    + intros [Hin [Hwhite Hblack]]. split; [exact Hin|]. split.
      * destruct (default [] (whitelistedURLs cfg)) as [|w ws] eqn:Hw; [reflexivity|].
        destruct Hwhite as [Hempty|Hex]; [discriminate|].
        apply existsb_exists. exact Hex.
      * destruct (existsb _ (blacklistedURLs cfg)) eqn:Hex; [|reflexivity].
        exfalso. apply Hblack. apply existsb_exists in Hex. exact Hex.
Qed.

(** Outside debug mode and without expansion, [_loadedPromise] is settled
    when the constructor returns, whatever the pages take. *)
Lemma constructor_settles_loadedPromise (cfg : ContextRetrievalConfig) :
  debug cfg = false ->
  attemptJupyterbookLinkExpansion cfg = false ->
  getContext true (constructor cfg) = Some None.
Proof.
  intros Hdebug Hexpand. unfold Retrieval.constructor. rewrite Hdebug, Hexpand.
  unfold getContext, awaited, loaded, scrapeSourceLinksStart. cbn [_sourceLinks].
  destruct (sourceLinks cfg); reflexivity.
Qed.

End RetrieverFacts.

Section RetrieverExamples.

#[local] Existing Instance sampleUrlApi.

Lemma scraping_filters_the_stored_links_witness :
  let r := settle sampleLocaleCompare (fun _ => None) (fun _ _ => None) sampleFetchText
                  (constructor sampleConfig) in
  _sourceLinks r = ["https://inferentialthinking.com/chapters/13/Estimation.html"]
  /\ getSourceLinks true r
     = Some ["https://inferentialthinking.com/chapters/13/Estimation.html"]
  /\ getSourceLinks false r
     = Some ["https://inferentialthinking.com/chapters/13/Estimation.html"].
Proof.
  intros r.
  assert (Hsteps : steps sampleLocaleCompare (fun _ => None) (fun _ _ => None)
                         sampleFetchText (constructor sampleConfig) r).
  { apply (steps_step _ _ _ _ (constructor sampleConfig) r r); [|apply steps_refl].
    exact (step_scraped _ _ _ _ (constructor sampleConfig)
                        ["https://inferentialthinking.com/chapters/13/Estimation.html"]
                        eq_refl). }
  destruct (scraping_filters_the_stored_links
              sampleLocaleCompare (fun _ => None) (fun _ _ => None) sampleFetchText
              sampleConfig r eq_refl Hsteps I) as [Hlinks [Hread _]].
  split; [exact Hlinks|]. split; [exact (Hread true)|exact (Hread false)].
Defined.

(** C1 at its failing input: one reachable page, no expansion, no debug
    mode.  When the constructor returns, [_loadedPromise] is settled and
    the pages are still awaited: an enforcing [getContext] returns [null]
    at that point, and the text the scraping stage stores afterwards is
    what it should have waited for. *)
Theorem enforcing_getContext_returns_before_scraping :
  let link := "https://inferentialthinking.com/chapters/13/Estimation.html" in
  let cfg := {| sourceLinks := [link]; whitelistedURLs := None;
                blacklistedURLs := ["data8.org"; "berkeley.edu"; "gradescope.com"];
                jupyterbookURLs := []; attemptJupyterbookLinkExpansion := false;
                debug := false |} in
  let r := constructor cfg in
  let done := settle sampleLocaleCompare (fun _ => None) (fun _ _ => None) sampleFetchText r in
  pending r = AwaitingPages [link]
  /\ getContext true r = Some None
  /\ step sampleLocaleCompare (fun _ => None) (fun _ _ => None) sampleFetchText r done
  /\ getContext true done
     = Some (Some ("[LINK] " +:+ link +:+ " [/LINK]" +:+ LF +:+ "Estimation.")).
Proof.
  intros link cfg r done. split; [reflexivity|]. split; [reflexivity|]. split.
  - apply (step_scraped _ _ _ _ r [link] eq_refl).
  - reflexivity.
Qed.

End RetrieverExamples.

(** ** Link expansion *)

(** *** The patterns *)

Lemma findMatch_fmap {A B : Type} (f : A -> B) (m1 : string -> option A)
      (m2 : string -> option B) :
  (forall s, m2 s = f <$> m1 s) ->
  forall s, findMatch m2 s = f <$> findMatch m1 s.
Proof.
  intros Hm. induction s as [|c s IH]; simpl; rewrite Hm.
  - destruct (m1 EmptyString); reflexivity.
  - destruct (m1 (String c s)); [reflexivity|]. exact IH.
Qed.

(** Both patterns that start with the chapter find it at the same place. *)
Lemma matchChapter_of_section (path : string) :
  matchChapter path = fst <$> matchChapterSection path.
Proof.
  unfold matchChapter, matchChapterSection. apply findMatch_fmap.
  intros s. destruct (atChapter s) as [[chapter rest]|]; reflexivity.
Qed.

Lemma inChapter_section `{api : UrlApi} (link : string) :
  inChapter link ->
  exists chapter subsection,
    matchChapterSection (pathOf link) = Some (chapter, subsection)
    /\ chapterOf link = parseInt chapter
    /\ subsectionOf link = number subsection.
Proof.
  unfold inChapter, chapterOf, subsectionOf. rewrite matchChapter_of_section.
  destruct (matchChapterSection (pathOf link)) as [[chapter subsection]|]; simpl.
  - intros _. exists chapter, subsection. repeat split.
  - intros [x Hx]. discriminate Hx.
Qed.

(** *** The comparators as orders on the numbers *)

Section ComparatorFacts.

Context `{api : UrlApi}.
Variable localeCompare : string -> string -> Z.
Hypothesis localeCompare_total :
  forall a b, (localeCompare a b <= 0 \/ localeCompare b a <= 0)%Z.
Hypothesis localeCompare_trans :
  forall a b c, (localeCompare a b <= 0 -> localeCompare b c <= 0 -> localeCompare a c <= 0)%Z.

Lemma compareChapterSection_le (a b : string) :
  (compareChapterSection localeCompare a b <= 0)%Z <-> discoveryLe localeCompare a b.
Proof.
  unfold compareChapterSection, discoveryLe, chapterOf, anySubsectionOf.
  set (ca := number (matchChapter (pathOf a))).
  set (cb := number (matchChapter (pathOf b))).
  set (sa := number (snd <$> matchSubsection (pathOf a))).
  set (sb := number (snd <$> matchSubsection (pathOf b))).
  destruct (Z.eqb_spec ca cb) as [Hc|Hc]; simpl; [|lia].
  destruct (Z.eqb_spec sa sb) as [Hs|Hs]; simpl; lia.
Qed.

Lemma compareExpanded_le (a b : string) :
  inChapter a -> inChapter b ->
  (compareExpanded localeCompare a b <= 0)%Z
  <-> (chapterOf a < chapterOf b
       \/ chapterOf a = chapterOf b /\ subsectionOf a <= subsectionOf b)%Z.
Proof.
  intros Ha Hb.
  destruct (inChapter_section a Ha) as [ac [asub [Hma [Hca Hsa]]]].
  destruct (inChapter_section b Hb) as [bc [bsub [Hmb [Hcb Hsb]]]].
  unfold compareExpanded. rewrite Hma, Hmb, Hca, Hcb, Hsa, Hsb.
  destruct (Z.eqb_spec (parseInt ac) (parseInt bc)); simpl; lia.
Qed.

Lemma discoveryLe_total (a b : string) :
  discoveryLe localeCompare a b \/ discoveryLe localeCompare b a.
Proof.
  unfold discoveryLe.
  destruct (localeCompare_total (pathOf a) (pathOf b)); lia.
Qed.

Lemma discoveryLe_trans (a b c : string) :
  discoveryLe localeCompare a b -> discoveryLe localeCompare b c ->
  discoveryLe localeCompare a c.
Proof.
  unfold discoveryLe. intros Hab Hbc.
  pose proof (localeCompare_trans (pathOf a) (pathOf b) (pathOf c)) as Htrans.
  lia.
Qed.

End ComparatorFacts.

(** *** The sort *)

Section SortFacts.

Context {A : Type}.
Variable compare : A -> A -> Z.

Lemma insertSorted_In (x y : A) (sorted : list A) :
  In y (insertSorted compare x sorted) <-> y = x \/ In y sorted.
Proof.
  induction sorted as [|z rest IH]; simpl.
  - intuition.
  - destruct (compare x z <=? 0)%Z; simpl; [intuition|].
    rewrite IH. intuition.
Qed.

Lemma sort_In (y : A) (items : list A) : In y (sort compare items) <-> In y items.
Proof.
  induction items as [|x rest IH]; simpl; [reflexivity|].
  rewrite insertSorted_In, IH. intuition.
Qed.

Lemma sort_Forall (P : A -> Prop) (items : list A) :
  Forall P items -> Forall P (sort compare items).
Proof.
  rewrite !List.Forall_forall. intros H x Hx. apply H, sort_In, Hx.
Qed.

Lemma sort_short (items : list A) :
  (List.length items <= 1)%nat -> sort compare items = items.
Proof.
  destruct items as [|x [|y rest]]; simpl; intros H; try reflexivity. lia.
Qed.

(** The sort is stable: on a list that is in order for [before], it
    yields the order [after] that puts the comparator first and falls
    back on [before] between items the comparator does not separate. *)
Variables (before after : A -> A -> Prop) (good : A -> Prop).
Hypothesis after_le : forall x y,
    good x -> good y -> (compare x y <= 0)%Z -> before x y -> after x y.
Hypothesis after_gt : forall x y,
    good x -> good y -> ~ (compare x y <= 0)%Z -> after y x.
Hypothesis compare_after : forall x y z,
    good x -> good y -> good z -> (compare x y <= 0)%Z -> after y z -> (compare x z <= 0)%Z.

Lemma insertSorted_sorted (x : A) (sorted : list A) :
  good x -> Forall good sorted -> Forall (before x) sorted ->
  StronglySorted after sorted ->
  StronglySorted after (insertSorted compare x sorted).
Proof.
  intros Hx. induction sorted as [|y rest IH]; intros Hgood Hbefore Hsorted; simpl.
  - constructor; constructor.
  - inversion Hgood as [|? ? Hy Hrest]; subst.
    inversion Hbefore as [|? ? Hxy Hxrest]; subst.
    inversion Hsorted as [|? ? Hsrest Hyrest]; subst.
    destruct (Z.leb_spec (compare x y) 0) as [Hle|Hgt].
    + constructor; [exact Hsorted|].
      constructor; [apply after_le; assumption|].
      rewrite List.Forall_forall in *. intros z Hz.
      apply after_le; auto.
      apply (compare_after x y z); auto.
    + constructor; [apply IH; assumption|].
      rewrite List.Forall_forall in *. intros z Hz.
      apply insertSorted_In in Hz. destruct Hz as [->|Hz].
      * apply after_gt; auto. lia.
      * apply Hyrest, Hz.
Qed.

Lemma sort_sorted (items : list A) :
  Forall good items -> StronglySorted before items ->
  StronglySorted after (sort compare items).
Proof.
  induction items as [|x rest IH]; intros Hgood Hsorted; simpl; [constructor|].
  inversion Hgood as [|? ? Hx Hrest]; subst.
  inversion Hsorted as [|? ? Hsrest Hxrest]; subst.
  apply insertSorted_sorted.
  - exact Hx.
  - apply sort_Forall, Hrest.
  - apply sort_Forall, Hxrest.
  - apply IH; assumption.
Qed.

End SortFacts.

Lemma StronglySorted_any {A : Type} (l : list A) : StronglySorted (fun _ _ => True) l.
Proof.
  induction l as [|x l IH]; constructor; [exact IH|].
  apply List.Forall_forall. intros; exact I.
Qed.

Lemma StronglySorted_filter {A : Type} (R : A -> A -> Prop) (f : A -> bool) (l : list A) :
  StronglySorted R l -> StronglySorted R (List.filter f l).
Proof.
  induction 1 as [|x l Hsorted IH Hx]; simpl; [constructor|].
  destruct (f x); [|exact IH].
  constructor; [exact IH|].
  rewrite List.Forall_forall in *. intros y Hy. apply filter_In in Hy. apply Hx, Hy.
Qed.

Lemma StronglySorted_weaken {A : Type} (R R' : A -> A -> Prop) (l : list A) :
  (forall x y, In x l -> In y l -> R x y -> R' x y) ->
  StronglySorted R l -> StronglySorted R' l.
Proof.
  intros Hweak Hsorted. induction Hsorted as [|x l Hsorted IH Hx]; [constructor|].
  constructor.
  - apply IH. intros a b Ha Hb. apply Hweak; right; assumption.
  - rewrite List.Forall_forall in *. intros y Hy.
    apply Hweak; [left; reflexivity|right; exact Hy|apply Hx, Hy].
Qed.

(** *** The discovered links *)

Section DiscoveryFacts.

Context `{api : UrlApi}.
Variable localeCompare : string -> string -> Z.
Variable fetchHrefs : string -> option (list string).
Variable resolve : string -> string -> option string.
Hypothesis localeCompare_total :
  forall a b, (localeCompare a b <= 0 \/ localeCompare b a <= 0)%Z.
Hypothesis localeCompare_trans :
  forall a b c, (localeCompare a b <= 0 -> localeCompare b c <= 0 -> localeCompare a c <= 0)%Z.

Lemma isChapterSectionLink_chapter (pathname : string)
      (targetChapter targetSubsection : option string) :
  isChapterSectionLink pathname targetChapter targetSubsection = true ->
  is_Some (matchChapter pathname).
Proof.
  unfold isChapterSectionLink.
  destruct (_ || _); [discriminate|].
  destruct (negb _); [discriminate|].
  destruct (matchChapter pathname) as [chapter|]; [intros _; eexists; reflexivity|].
  destruct (given targetSubsection); [discriminate|].
  destruct (given targetChapter); discriminate.
Qed.

Lemma collectLink_discovered (pageUrl jupyterbookURL : string)
      (targetChapter targetSubsection : option string) (links links' : list string)
      (href : string) :
  collectLink resolve pageUrl jupyterbookURL targetChapter targetSubsection links href
  = Some links' ->
  Forall discoveredLink links -> Forall discoveredLink links'.
Proof.
  unfold collectLink. intros Hcollect Hlinks.
  destruct (String.eqb href EmptyString); [inversion Hcollect; subst; exact Hlinks|].
  destruct (unwanted href); [inversion Hcollect; subst; exact Hlinks|].
  destruct (if startsWith href "/" then resolve href pageUrl
            else if startsWith href "http" then Some href else resolve href pageUrl)
    as [fullUrl|]; [|discriminate].
  cbn [mbind option_bind] in Hcollect.
  destruct (includes fullUrl jupyterbookURL);
    [|inversion Hcollect; subst; exact Hlinks].
  destruct (pathnameOf (normalizeUrl fullUrl)) as [pathname|] eqn:Hpath; [|discriminate].
  cbn [mbind option_bind] in Hcollect.
  destruct (isChapterSectionLink pathname targetChapter targetSubsection) eqn:Hlink;
    inversion Hcollect; subst; [|exact Hlinks].
  apply Forall_app. split; [exact Hlinks|].
  constructor; [|constructor]. split.
  - rewrite Hpath. eexists; reflexivity.
  - unfold inChapter, pathOf. rewrite Hpath. simpl.
    apply (isChapterSectionLink_chapter _ _ _ Hlink).
Qed.

Lemma collectLinks_discovered (pageUrl jupyterbookURL : string)
      (targetChapter targetSubsection : option string) (hrefs links links' : list string) :
  collectLinks resolve pageUrl jupyterbookURL targetChapter targetSubsection links hrefs
  = Some links' ->
  Forall discoveredLink links -> Forall discoveredLink links'.
Proof.
  revert links. induction hrefs as [|href rest IH]; intros links Hcollect Hlinks; simpl in Hcollect.
  - inversion Hcollect; subst. exact Hlinks.
  - destruct (collectLink resolve pageUrl jupyterbookURL targetChapter targetSubsection
                          links href) as [links1|] eqn:Hone; [|discriminate].
    cbn [mbind option_bind] in Hcollect.
    apply (IH links1 Hcollect).
    apply (collectLink_discovered _ _ _ _ _ _ _ Hone Hlinks).
Qed.

Lemma unique_In (seen : gset string) (links : list string) (x : string) :
  In x (unique seen links) -> In x links.
Proof.
  revert seen. induction links as [|link rest IH]; intros seen; simpl; [tauto|].
  destruct (bool_decide (link ∈ seen)).
  - intros H. right. apply (IH _ H).
  - intros [H|H]; [left; exact H|right; apply (IH _ H)].
Qed.

Lemma sortLinks_parsed (compare : string -> string -> Z) (links : list string) :
  Forall (fun link => is_Some (pathnameOf link)) links ->
  sortLinks compare links = Some (sort compare links).
Proof.
  intros Hparsed. unfold sortLinks.
  destruct (List.length links <=? 1)%nat eqn:Hshort.
  - apply Nat.leb_le in Hshort. rewrite sort_short by exact Hshort. reflexivity.
  - assert (Hall : forallb (fun link => bool_decide (is_Some (pathnameOf link))) links = true).
    { apply forallb_forall. rewrite List.Forall_forall in Hparsed.
      intros link Hlink. apply bool_decide_eq_true. apply Hparsed, Hlink. }
    rewrite Hall. reflexivity.
Qed.

Lemma findJupyterBookLinks_shape (pageUrl jupyterbookURL : string) :
  exists links,
    findJupyterBookLinks localeCompare fetchHrefs resolve pageUrl jupyterbookURL
    = sort (compareChapterSection localeCompare) links
    /\ Forall discoveredLink links.
Proof.
  unfold findJupyterBookLinks, findJupyterBookLinksBody.
  assert (Hnone : exists links : list string,
             [] = sort (compareChapterSection localeCompare) links
             /\ Forall discoveredLink links).
  { exists []. split; [reflexivity|constructor]. }
  destruct (fetchHrefs pageUrl) as [hrefs|]; [|exact Hnone].
  destruct (pathnameOf pageUrl) as [currentPath|]; [|exact Hnone].
  cbn [mbind option_bind].
  destruct (match matchSubsection currentPath with
            | Some (chapter, subsection) => (Some chapter, Some subsection)
            | None => (matchChapter currentPath, None)
            end) as [targetChapter targetSubsection].
  destruct (collectLinks resolve pageUrl jupyterbookURL targetChapter targetSubsection
                         [] hrefs) as [links|] eqn:Hcollect; [|exact Hnone].
  cbn [mbind option_bind].
  assert (Hlinks : Forall discoveredLink (unique ∅ links)).
  { pose proof (collectLinks_discovered _ _ _ _ _ _ _ Hcollect (List.Forall_nil _)) as Hall.
    rewrite List.Forall_forall in *. intros x Hx. apply Hall. apply (unique_In _ _ _ Hx). }
  exists (unique ∅ links). split; [|exact Hlinks].
  unfold sortChapterSectionLinks. rewrite sortLinks_parsed; [reflexivity|].
  eapply Forall_impl; [exact Hlinks|]. intros x [Hx _]. exact Hx.
Qed.

Lemma linksFor_discovered (jupyterbookURLs : list string) (link : string) :
  Forall discoveredLink (linksFor localeCompare fetchHrefs resolve jupyterbookURLs link).
Proof.
  unfold linksFor.
  destruct (List.find _ jupyterbookURLs) as [jupyterbookURL|]; [|constructor].
  destruct (nonEmpty jupyterbookURL); [|constructor].
  destruct (findJupyterBookLinks_shape link jupyterbookURL) as [links [-> Hlinks]].
  apply sort_Forall, Hlinks.
Qed.

Lemma linksFor_sorted (jupyterbookURLs : list string) (link : string) :
  StronglySorted (discoveryLe localeCompare)
                 (linksFor localeCompare fetchHrefs resolve jupyterbookURLs link).
Proof.
  unfold linksFor.
  destruct (List.find _ jupyterbookURLs) as [jupyterbookURL|]; [|constructor].
  destruct (nonEmpty jupyterbookURL); [|constructor].
  destruct (findJupyterBookLinks_shape link jupyterbookURL) as [links [-> Hlinks]].
  apply (sort_sorted (compareChapterSection localeCompare)
                     (fun _ _ => True) (discoveryLe localeCompare) (fun _ => True)).
  - intros x y _ _ Hle _. apply compareChapterSection_le, Hle.
  - intros x y _ _ Hgt.
    destruct (discoveryLe_total localeCompare localeCompare_total x y) as [H|H];
      [|exact H].
    exfalso. apply Hgt. apply compareChapterSection_le, H.
  - intros x y z _ _ _ Hxy Hyz. apply compareChapterSection_le.
    apply (discoveryLe_trans localeCompare localeCompare_trans x y z);
      [apply compareChapterSection_le, Hxy|exact Hyz].
  - apply List.Forall_forall. intros; exact I.
  - apply StronglySorted_any.
Qed.

End DiscoveryFacts.

(** *** Emitting *)

Section EmittingFacts.

Context `{api : UrlApi}.

Lemma seenOf_fresh (seen : gset string) (emitted : list string) (link : string) :
  seenOf seen emitted -> (normalizeUrl link ∉ seen <-> fresh emitted link).
Proof. intros Hseen. unfold fresh. rewrite (Hseen (normalizeUrl link)). tauto. Qed.

Lemma seenOf_add (seen : gset string) (emitted : list string) (link : string) :
  seenOf seen emitted ->
  seenOf ({[ normalizeUrl link ]} ∪ seen) (emitted ++ [link]).
Proof.
  intros Hseen key. rewrite map_app, in_app_iff, <- (Hseen key). simpl.
  rewrite elem_of_union, elem_of_singleton. intuition.
Qed.

Lemma emit_own (link : string) (emitted : list string) (seen : gset string) :
  seenOf seen emitted ->
  exists block,
    fst (emit link emitted seen) = emitted ++ block
    /\ ownBlock emitted link block
    /\ seenOf (snd (emit link emitted seen)) (emitted ++ block)
    /\ normalizeUrl link ∈ snd (emit link emitted seen).
Proof.
  intros Hseen. unfold emit.
  destruct (bool_decide (normalizeUrl link ∈ seen)) eqn:Hin.
  - apply bool_decide_eq_true in Hin. exists []. simpl.
    rewrite app_nil_r. repeat split; try assumption; try apply Hseen; try (apply Hseen; assumption).
    right. split; [|reflexivity]. intros Hfresh.
    apply (seenOf_fresh _ _ _ Hseen) in Hfresh. contradiction.
  - apply bool_decide_eq_false in Hin. exists [link]. simpl.
    split; [reflexivity|]. split; [|split].
    + left. split; [|reflexivity]. apply (seenOf_fresh _ _ _ Hseen), Hin.
    + apply seenOf_add, Hseen.
    + apply elem_of_union_l, elem_of_singleton. reflexivity.
Qed.

Lemma emitAll_freshOnes (links emitted : list string) (seen : gset string) :
  seenOf seen emitted ->
  fst (emitAll links emitted seen) = emitted ++ freshOnes seen links
  /\ seenOf (snd (emitAll links emitted seen)) (emitted ++ freshOnes seen links).
Proof.
  revert emitted seen. induction links as [|link rest IH]; intros emitted seen Hseen.
  - simpl. rewrite app_nil_r. split; [reflexivity|exact Hseen].
  - unfold emitAll. cbn [fold_left freshOnes fst snd]. unfold emit at 2 4.
    destruct (bool_decide (normalizeUrl link ∈ seen)).
    + apply (IH emitted seen Hseen).
    + cbn [fst snd].
      destruct (IH (emitted ++ [link]) ({[ normalizeUrl link ]} ∪ seen)
                   (seenOf_add _ _ _ Hseen)) as [Hfst Hsnd].
      unfold emitAll in Hfst, Hsnd.
      rewrite <- app_assoc in Hfst, Hsnd. simpl in Hfst, Hsnd.
      split; assumption.
Qed.

Lemma freshOnes_In (seen : gset string) (links : list string) (x : string) :
  In x (freshOnes seen links) -> In x links /\ normalizeUrl x ∉ seen.
Proof.
  revert seen. induction links as [|link rest IH]; intros seen; simpl; [tauto|].
  destruct (bool_decide (normalizeUrl link ∈ seen)) eqn:Hin.
  - intros Hx. destruct (IH _ Hx). split; [right|]; assumption.
  - apply bool_decide_eq_false in Hin. intros [->|Hx].
    + split; [left; reflexivity|exact Hin].
    + destruct (IH _ Hx) as [Hrest Hnot]. split; [right; exact Hrest|].
      intros Hseen. apply Hnot, elem_of_union_r, Hseen.
Qed.

Lemma freshOnes_NoDup (seen : gset string) (links : list string) :
  List.NoDup (map normalizeUrl (freshOnes seen links)).
Proof.
  revert seen. induction links as [|link rest IH]; intros seen; simpl; [constructor|].
  destruct (bool_decide (normalizeUrl link ∈ seen)); [apply IH|].
  simpl. constructor; [|apply IH].
  intros Hdup. apply in_map_iff in Hdup. destruct Hdup as [x [Hkey Hx]].
  apply freshOnes_In in Hx. destruct Hx as [_ Hnot].
  apply Hnot. rewrite Hkey. apply elem_of_union_l, elem_of_singleton. reflexivity.
Qed.

Lemma freshOnes_complete (seen : gset string) (links : list string) (x : string) :
  In x links -> normalizeUrl x ∉ seen ->
  In (normalizeUrl x) (map normalizeUrl (freshOnes seen links)).
Proof.
  revert seen. induction links as [|link rest IH]; intros seen Hx Hnot; simpl; [contradiction|].
  destruct (bool_decide (normalizeUrl link ∈ seen)) eqn:Hin.
  - apply bool_decide_eq_true in Hin. destruct Hx as [->|Hx]; [contradiction|].
    apply (IH _ Hx Hnot).
  - simpl. destruct (String.eqb_spec (normalizeUrl link) (normalizeUrl x)) as [Heq|Hne];
      [left; exact Heq|].
    right. destruct Hx as [->|Hx]; [contradiction|].
    apply (IH _ Hx). intros Hseen.
    apply elem_of_union in Hseen. destruct Hseen as [Hone|Hseen]; [|contradiction].
    apply elem_of_singleton in Hone. congruence.
Qed.

Lemma freshOnes_sorted (R : string -> string -> Prop) (seen : gset string) (links : list string) :
  StronglySorted R links -> StronglySorted R (freshOnes seen links).
Proof.
  intros Hsorted. revert seen.
  induction Hsorted as [|link rest Hsorted IH Hlink]; intros seen; simpl; [constructor|].
  destruct (bool_decide (normalizeUrl link ∈ seen)); [apply IH|].
  constructor; [apply IH|].
  rewrite List.Forall_forall in *. intros y Hy. apply freshOnes_In in Hy. apply Hlink, Hy.
Qed.

End EmittingFacts.

(** *** The walk *)

Section WalkFacts.

Context `{api : UrlApi}.
Variable localeCompare : string -> string -> Z.
Variable fetchHrefs : string -> option (list string).
Variable resolve : string -> string -> option string.
Variable jupyterbookURLs : list string.
Hypothesis localeCompare_total :
  forall a b, (localeCompare a b <= 0 \/ localeCompare b a <= 0)%Z.
Hypothesis localeCompare_trans :
  forall a b c, (localeCompare a b <= 0 -> localeCompare b c <= 0 -> localeCompare a c <= 0)%Z.

(** The second sort on links of a chapter that the first sort has put in
    order. *)
Lemma sort_expanded (links : list string) :
  Forall inChapter links ->
  StronglySorted (discoveryLe localeCompare) links ->
  StronglySorted (expandedLe localeCompare) (sort (compareExpanded localeCompare) links).
Proof.
  apply (sort_sorted (compareExpanded localeCompare)
                     (discoveryLe localeCompare) (expandedLe localeCompare) inChapter).
  - intros x y Hx Hy Hle Hbefore.
    apply (compareExpanded_le localeCompare x y Hx Hy) in Hle.
    unfold expandedLe. unfold discoveryLe in *. lia.
  - intros x y Hx Hy Hgt.
    rewrite (compareExpanded_le localeCompare x y Hx Hy) in Hgt.
    unfold expandedLe, discoveryLe.
    destruct (discoveryLe_total localeCompare localeCompare_total y x) as [H|H];
      unfold discoveryLe in H; lia.
  - intros x y z Hx Hy Hz Hxy Hyz.
    apply (compareExpanded_le localeCompare x z Hx Hz).
    apply (compareExpanded_le localeCompare x y Hx Hy) in Hxy.
    unfold expandedLe, discoveryLe in Hyz. lia.
Qed.

Lemma expandedLe_claimed (a b : string) :
  anySubsectionOf a = subsectionOf a -> anySubsectionOf b = subsectionOf b ->
  expandedLe localeCompare a b -> claimedLe localeCompare subsectionOf a b.
Proof. unfold expandedLe, discoveryLe, claimedLe. intros Ha Hb H. lia. Qed.

Lemma nth_of_book (linksOf : string -> list string) (before rest : list string) (link : string) :
  isJupyterBookLink jupyterbookURLs link = true ->
  nth (List.length (List.filter (isJupyterBookLink jupyterbookURLs) before))
      (map linksOf (List.filter (isJupyterBookLink jupyterbookURLs) (before ++ link :: rest)))
      []
  = linksOf link.
Proof.
  intros Hbook. rewrite List.filter_app. simpl. rewrite Hbook.
  rewrite map_app. rewrite app_nth2; rewrite length_map; [|lia].
  rewrite Nat.sub_diag. reflexivity.
Qed.

Lemma walkStep_plain (allLinks : list (list string)) (w : Walk) (link : string) :
  isJupyterBookLink jupyterbookURLs link = false ->
  seenOf (seenUrls w) (result w) ->
  exists w' block,
    walkStep localeCompare jupyterbookURLs allLinks w link = Some w'
    /\ result w' = result w ++ block
    /\ ownBlock (result w) link block
    /\ seenOf (seenUrls w') (result w')
    /\ jupyterBookIndex w' = jupyterBookIndex w.
Proof.
  intros Hplain Hseen. unfold walkStep. rewrite Hplain.
  destruct (emit_own link (result w) (seenUrls w) Hseen) as [block [Hfst [Hown [Hseen1 _]]]].
  destruct (emit link (result w) (seenUrls w)) as [result1 seen1].
  simpl in Hfst, Hseen1. subst result1.
  eexists. exists block. split; [reflexivity|]. simpl. auto.
Qed.

Lemma walkStep_book (allLinks : list (list string)) (w : Walk) (link : string) :
  isJupyterBookLink jupyterbookURLs link = true ->
  seenOf (seenUrls w) (result w) ->
  nth (jupyterBookIndex w) allLinks []
  = linksFor localeCompare fetchHrefs resolve jupyterbookURLs link ->
  exists w' own expansion,
    walkStep localeCompare jupyterbookURLs allLinks w link = Some w'
    /\ result w' = result w ++ own ++ expansion
    /\ ownBlock (result w) link own
    /\ Expansion localeCompare fetchHrefs resolve jupyterbookURLs
                 (result w ++ own) link expansion
    /\ seenOf (seenUrls w') (result w')
    /\ jupyterBookIndex w' = S (jupyterBookIndex w).
Proof.
  intros Hbook Hseen Hnth. unfold walkStep. rewrite Hbook, Hnth.
  destruct (emit_own link (result w) (seenUrls w) Hseen)
    as [own [Hfst [Hown [Hseen1 Hkey]]]].
  destruct (emit link (result w) (seenUrls w)) as [result1 seen1].
  simpl in Hfst, Hseen1, Hkey. subst result1.
  set (discovered := linksFor localeCompare fetchHrefs resolve jupyterbookURLs link).
  set (keep := fun candidate : string =>
                 negb (String.eqb (normalizeUrl candidate) (normalizeUrl link))
                 && negb (bool_decide (normalizeUrl candidate ∈ seen1))).
  assert (Hdiscovered : Forall discoveredLink discovered)
    by apply linksFor_discovered.
  assert (Hkept : forall x, In x (List.filter keep discovered)
                            <-> In x discovered /\ normalizeUrl x ∉ seen1).
  { intros x. rewrite filter_In. unfold keep.
    rewrite andb_true_iff, !negb_true_iff, bool_decide_eq_false.
    split; [tauto|]. intros [Hx Hnot]. repeat split; try assumption.
    apply String.eqb_neq. intros Heq. apply Hnot. rewrite Heq. exact Hkey. }
  assert (Hfiltered : Forall discoveredLink (List.filter keep discovered)).
  { rewrite List.Forall_forall in *. intros x Hx. apply Hdiscovered, Hkept, Hx. }
  rewrite sortLinks_parsed
    by (eapply Forall_impl; [exact Hfiltered|]; intros x [Hx _]; exact Hx).
  cbn [mbind option_bind].
  set (sorted := sort (compareExpanded localeCompare) (List.filter keep discovered)).
  destruct (emitAll_freshOnes sorted (result w ++ own) seen1 Hseen1) as [Hfst2 Hseen2].
  destruct (emitAll sorted (result w ++ own) seen1) as [result2 seen2].
  simpl in Hfst2, Hseen2. subst result2.
  eexists. exists own, (freshOnes seen1 sorted).
  split; [reflexivity|]. cbn [result seenUrls jupyterBookIndex].
  split; [rewrite app_assoc; reflexivity|].
  split; [exact Hown|].
  split; [|split; [exact Hseen2|reflexivity]].
  assert (Hsorted : StronglySorted (expandedLe localeCompare) (freshOnes seen1 sorted)).
  { apply freshOnes_sorted, sort_expanded.
    - eapply Forall_impl; [exact Hfiltered|]. intros x [_ Hx]. exact Hx.
    - apply StronglySorted_filter.
      apply (linksFor_sorted localeCompare fetchHrefs resolve
                             localeCompare_total localeCompare_trans). }
  assert (Hfrom : forall x, In x (freshOnes seen1 sorted) ->
                            In x discovered /\ fresh (result w ++ own) x).
  { intros x Hx. apply freshOnes_In in Hx. destruct Hx as [Hx Hnot].
    apply sort_In, Hkept in Hx. split; [apply Hx|].
    apply (seenOf_fresh _ _ _ Hseen1), Hnot. }
  unfold Expansion. fold discovered.
  split; [exact Hsorted|]. split; [|split; [apply freshOnes_NoDup|split; [exact Hfrom|]]].
  - intros Hagree. apply (StronglySorted_weaken (expandedLe localeCompare)); [|exact Hsorted].
    intros x y Hx Hy.
    apply expandedLe_claimed; apply Hagree; [apply (Hfrom x Hx)|apply (Hfrom y Hy)].
  - intros x Hx Hfresh. apply (seenOf_fresh _ _ _ Hseen1) in Hfresh.
    apply freshOnes_complete; [|exact Hfresh].
    apply sort_In, Hkept. split; assumption.
Qed.

Lemma walk_blocks (sourceLinks before : list string) (w : Walk) :
  jupyterBookIndex w
  = List.length (List.filter (isJupyterBookLink jupyterbookURLs) before) ->
  seenOf (seenUrls w) (result w) ->
  exists w' blocks,
    walk localeCompare jupyterbookURLs
         (map (linksFor localeCompare fetchHrefs resolve jupyterbookURLs)
              (List.filter (isJupyterBookLink jupyterbookURLs) (before ++ sourceLinks)))
         w sourceLinks = Some w'
    /\ result w' = result w ++ concat blocks
    /\ Interleaved localeCompare fetchHrefs resolve jupyterbookURLs
                   (result w) sourceLinks blocks.
Proof.
  revert before w. induction sourceLinks as [|link rest IH]; intros before w Hindex Hseen.
  - exists w, []. simpl. rewrite app_nil_r. repeat split. constructor.
  - cbn [walk].
    destruct (isJupyterBookLink jupyterbookURLs link) eqn:Hbook.
    + destruct (walkStep_book
                  (map (linksFor localeCompare fetchHrefs resolve jupyterbookURLs)
                       (List.filter (isJupyterBookLink jupyterbookURLs)
                                    (before ++ link :: rest)))
                  w link Hbook Hseen)
        as [w1 [own [expansion [Hstep [Hresult [Hown [Hexpansion [Hseen1 Hindex1]]]]]]]].
      { rewrite Hindex. apply nth_of_book, Hbook. }
      rewrite Hstep. cbn [mbind option_bind].
      destruct (IH (before ++ [link]) w1) as [w' [blocks [Hwalk [Hresult' Hblocks]]]].
      { rewrite Hindex1, Hindex, List.filter_app, length_app. simpl. rewrite Hbook.
        simpl. lia. }
      { exact Hseen1. }
      rewrite <- app_assoc in Hwalk. simpl in Hwalk.
      exists w', ((own ++ expansion) :: blocks). split; [exact Hwalk|].
      split.
      * rewrite Hresult', Hresult. simpl. rewrite !app_assoc. reflexivity.
      * apply interleaved_book; try assumption.
        rewrite Hresult in Hblocks. exact Hblocks.
    + destruct (walkStep_plain
                  (map (linksFor localeCompare fetchHrefs resolve jupyterbookURLs)
                       (List.filter (isJupyterBookLink jupyterbookURLs)
                                    (before ++ link :: rest)))
                  w link Hbook Hseen)
        as [w1 [block [Hstep [Hresult [Hown [Hseen1 Hindex1]]]]]].
      rewrite Hstep. cbn [mbind option_bind].
      destruct (IH (before ++ [link]) w1) as [w' [blocks [Hwalk [Hresult' Hblocks]]]].
      { rewrite Hindex1, Hindex, List.filter_app, length_app. simpl. rewrite Hbook.
        simpl. lia. }
      { exact Hseen1. }
      rewrite <- app_assoc in Hwalk. simpl in Hwalk.
      exists w', (block :: blocks). split; [exact Hwalk|].
      split.
      * rewrite Hresult', Hresult. simpl. rewrite !app_assoc. reflexivity.
      * apply interleaved_plain; try assumption.
        rewrite Hresult in Hblocks. exact Hblocks.
Qed.


End WalkFacts.

(** *** A sample book *)

Section SampleBook.

#[local] Existing Instance sampleUrlApi.

Lemma sampleLocaleCompare_le (a b : string) :
  (sampleLocaleCompare a b <= 0)%Z <-> String.leb a b = true.
Proof.
  unfold sampleLocaleCompare.
  destruct (String.leb a b); destruct (String.leb b a); split; intros H;
    try reflexivity; try discriminate; lia.
Qed.

Lemma sampleLocaleCompare_total (a b : string) :
  (sampleLocaleCompare a b <= 0 \/ sampleLocaleCompare b a <= 0)%Z.
Proof. rewrite !sampleLocaleCompare_le. apply String.leb_total. Qed.

Lemma sampleLocaleCompare_trans (a b c : string) :
  (sampleLocaleCompare a b <= 0 -> sampleLocaleCompare b c <= 0 ->
   sampleLocaleCompare a c <= 0)%Z.
Proof.
  rewrite !sampleLocaleCompare_le. intros Hab Hbc.
  apply Is_true_true. apply Is_true_true in Hab, Hbc.
  exact (transitivity (R := String.le) Hab Hbc).
Qed.

(** C5 at its failing input, the sample book: the page [chapters/3/2]
    links to two pages below chapter 3 that carry a second [chapters/N/M]
    further down their path, and to the first subsection of chapter 3.
    By chapter, then subsection, then path, the expansion is the two deep
    pages in the order of their paths and then the subsection.  The code
    emits them in another order, which is ascending for neither reading of
    the subsection number.  Read directly after the chapter segment, as the
    sort of the walk reads it, the two deep pages are both at 0 and come
    out against the order of their paths; read as the first [chapters/N/M]
    of the path, as the sort of the discovery reads it, the deep page at 2
    comes out before the subsection at 1. *)
Theorem expansion_order_is_not_the_claimed_one :
  expandJupyterBookLinks sampleLocaleCompare sampleFetchHrefs sampleResolve
                         [samplePage] ["b.com"]
  = Some [samplePage; sampleDeepB; sampleDeepA; sampleSection]
  /\ StronglySorted (claimedLe sampleLocaleCompare subsectionOf)
                    [sampleDeepA; sampleDeepB; sampleSection]
  /\ ~ StronglySorted (claimedLe sampleLocaleCompare subsectionOf)
                      [sampleDeepB; sampleDeepA; sampleSection]
  /\ ~ StronglySorted (claimedLe sampleLocaleCompare anySubsectionOf)
                      [sampleDeepB; sampleDeepA; sampleSection].
Proof.
  split; [vm_compute; reflexivity|].
  assert (Hc : chapterOf sampleDeepB = 3%Z /\ chapterOf sampleDeepA = 3%Z
               /\ chapterOf sampleSection = 3%Z) by (repeat split).
  assert (Hs : subsectionOf sampleDeepB = 0%Z /\ subsectionOf sampleDeepA = 0%Z
               /\ subsectionOf sampleSection = 1%Z)
    by (repeat split).
  assert (Ha : anySubsectionOf sampleDeepA = 2%Z /\ anySubsectionOf sampleSection = 1%Z)
    by (repeat split).
  assert (Hp : sampleLocaleCompare (pathOf sampleDeepB) (pathOf sampleDeepA) = 1%Z)
    by reflexivity.
  assert (Hq : sampleLocaleCompare (pathOf sampleDeepA) (pathOf sampleDeepB) = (-1)%Z)
    by reflexivity.
  destruct Hc as [HcB [HcA HcS]]. destruct Hs as [HsB [HsA HsS]]. destruct Ha as [HaA HaS].
  split; [|split; intros Hsorted].
  - repeat constructor; unfold claimedLe;
      rewrite ?HcB, ?HcA, ?HcS, ?HsB, ?HsA, ?HsS, ?Hq; lia.
  - inversion Hsorted as [|? ? _ Hfirst]; subst.
    inversion Hfirst as [|? ? Hle _]; subst.
    unfold claimedLe in Hle. rewrite HcB, HcA, HsB, HsA, Hp in Hle. lia.
  - inversion Hsorted as [|? ? Hrest _]; subst.
    inversion Hrest as [|? ? _ Hsecond]; subst.
    inversion Hsecond as [|? ? Hle _]; subst.
    unfold claimedLe in Hle. rewrite HcA, HcS, HaA, HaS in Hle. lia.
Qed.


(** The ordering example of the specification: from the second subsection
    of a chapter, the chapter page comes first, then the other subsections
    in ascending order, right after the source link and before the link
    that follows it; the page itself, the other chapter and the notebook
    are left out. *)
Example expansion_of_a_subsection :
  expandJupyterBookLinks sampleLocaleCompare sampleFetchHrefs sampleResolve
                         ["https://x.org/notes"; "https://b.com/chapters/7/2";
                          "https://x.org/notes/#top"; "https://b.com/chapters/7/1"]
                         ["b.com"]
  = Some ["https://x.org/notes"; "https://b.com/chapters/7/2";
          "https://b.com/chapters/7"; "https://b.com/chapters/7/1";
          "https://b.com/chapters/7/3"].
Proof. vm_compute. reflexivity. Qed.

(** A whitelist and a blacklist together: both filters apply, in turn. *)
Example whitelist_then_blacklist :
  let cfg := {| sourceLinks := ["https://b.com/chapters/7/2"; "https://x.org/notes";
                                "https://b.com/archive/old"];
                whitelistedURLs := Some ["b.com"];
                blacklistedURLs := ["archive"];
                jupyterbookURLs := []; attemptJupyterbookLinkExpansion := false;
                debug := false |} in
  getSourceLinks true (constructor cfg) = Some ["https://b.com/chapters/7/2"].
Proof. reflexivity. Qed.

(** The soft deadline: with an expansion under way a reader without the
    flag waits, and returns the state as it stands once the timer has
    fired, while the expansion is still pending. *)
Example soft_timeout_returns_the_current_state :
  let cfg := {| sourceLinks := ["https://b.com/chapters/7/2"];
                whitelistedURLs := None; blacklistedURLs := [];
                jupyterbookURLs := ["b.com"]; attemptJupyterbookLinkExpansion := true;
                debug := false |} in
  let r := constructor cfg in
  getContext false r = None
  /\ getContext false (timerFires r) = Some None
  /\ getContext true (timerFires r) = None
  /\ pending (timerFires r) = AwaitingExpansion ["b.com"].
Proof. repeat split. Qed.

End SampleBook.

(** * Further properties *)

(** ** Predicates *)

Section MoreEvaluationFacts.

Variable RegExp : string -> string -> option (string -> bool).

(** X1: negation distributes over the combinators as in De Morgan's laws,
    and a double negation cancels. *)
Theorem negation_of_combinators
        (inner : list Predicate) (p : Predicate)
        (contextForIndex : Z -> option CellContext) (cellIndex : Z) :
  evaluatePredicate RegExp (PNot (PAnd inner)) contextForIndex cellIndex
  = evaluatePredicate RegExp (POr (map PNot inner)) contextForIndex cellIndex
  /\ evaluatePredicate RegExp (PNot (POr inner)) contextForIndex cellIndex
     = evaluatePredicate RegExp (PAnd (map PNot inner)) contextForIndex cellIndex
  /\ evaluatePredicate RegExp (PNot (PNot p)) contextForIndex cellIndex
     = evaluatePredicate RegExp p contextForIndex cellIndex.
Proof.
  split; [|split].
  - cbn [evaluatePredicate].
    induction inner as [|q rest IH]; [reflexivity|].
    cbn [forallb existsb map evaluatePredicate].
    rewrite negb_andb, IH. reflexivity.
  - cbn [evaluatePredicate].
    induction inner as [|q rest IH]; [reflexivity|].
    cbn [forallb existsb map evaluatePredicate].
    rewrite negb_orb, IH. reflexivity.
  - cbn [evaluatePredicate]. apply negb_involutive.
Qed.

(** Without [nearbyCell], the evaluation looks at the context of the
    current cell only. *)
Lemma noNearby_local (lookup1 lookup2 : Z -> option CellContext) (cellIndex1 cellIndex2 : Z) :
  lookup1 cellIndex1 = lookup2 cellIndex2 ->
  forall p : Predicate,
    noNearby p = true ->
    evaluatePredicate RegExp p lookup1 cellIndex1
    = evaluatePredicate RegExp p lookup2 cellIndex2.
Proof.
  intros Hsame.
  induction p as [inner IH|inner IH|inner IH|offset inner IH| | | | | | |]
    using Predicate_nested_ind;
    intros Hlocal; simpl in *; try discriminate; try (rewrite Hsame; reflexivity).
  - induction IH as [|q rest Hq Hrest IHrest]; simpl in *; [reflexivity|].
    apply andb_prop in Hlocal. destruct Hlocal as [Hlq Hlrest].
    rewrite (Hq Hlq), (IHrest Hlrest). reflexivity.
  - induction IH as [|q rest Hq Hrest IHrest]; simpl in *; [reflexivity|].
    apply andb_prop in Hlocal. destruct Hlocal as [Hlq Hlrest].
    rewrite (Hq Hlq), (IHrest Hlrest). reflexivity.
  - rewrite (IH Hlocal). reflexivity.
Qed.

End MoreEvaluationFacts.

(** ** Resolution *)

Section MoreResolutionFacts.

Variable RegExp : string -> string -> option (string -> bool).
Variable parseRuleConfig : PartialRuleConfig -> PartialRuleConfig.

Lemma getCellContext_split (before after : list ICellModel) (cell : ICellModel) :
  getCellContext (before ++ cell :: after) (Z.of_nat (List.length before))
  = Some (buildCellContext cell).
Proof.
  unfold getCellContext. rewrite cellAt_split.
  destruct (Z.of_nat (List.length before) <? 0)%Z eqn:Hneg;
    [apply Z.ltb_lt in Hneg; lia|].
  destruct (Z.of_nat (List.length (before ++ cell :: after))
            <=? Z.of_nat (List.length before))%Z eqn:Hlen; [|reflexivity].
  apply Z.leb_le in Hlen. rewrite length_app in Hlen. simpl in Hlen. lia.
Qed.

Lemma cellAt_out_of_range (cells : list ICellModel) (index : Z) :
  (index < 0 \/ Z.of_nat (List.length cells) <= index)%Z ->
  cellAt cells index = None.
Proof.
  intros Hrange. unfold cellAt.
  destruct (index <? 0)%Z eqn:Hneg; [reflexivity|].
  apply Z.ltb_ge in Hneg. apply nth_error_None. lia.
Qed.

(** X2: when no rule uses [nearbyCell], the configuration resolved for a
    cell depends on that cell alone: the cells around it, and the position
    it has in the notebook, make no difference. *)
Theorem local_rules_see_one_cell
        (before1 after1 before2 after2 : list ICellModel) (cell : ICellModel)
        (configRules : list Rule) :
  Forall localRule configRules ->
  applyConfigRules RegExp parseRuleConfig (before1 ++ cell :: after1)
                   (Z.of_nat (List.length before1)) configRules
  = applyConfigRules RegExp parseRuleConfig (before2 ++ cell :: after2)
                     (Z.of_nat (List.length before2)) configRules.
Proof.
  intros Hlocal. unfold applyConfigRules. rewrite !cellAt_split.
  assert (Hrules : forall start,
             fold_left (applyRule RegExp parseRuleConfig (before1 ++ cell :: after1)
                                  (Z.of_nat (List.length before1))) configRules start
             = fold_left (applyRule RegExp parseRuleConfig (before2 ++ cell :: after2)
                                    (Z.of_nat (List.length before2))) configRules start).
  { induction Hlocal as [|rule rest Hrule Hrest IH]; intros start; [reflexivity|].
    simpl. rewrite IH. f_equal. unfold applyRule.
    unfold localRule in Hrule. destruct (when rule) as [predicate|]; [|reflexivity].
    rewrite (noNearby_local RegExp (getCellContext (before1 ++ cell :: after1))
                            (getCellContext (before2 ++ cell :: after2))
                            (Z.of_nat (List.length before1))
                            (Z.of_nat (List.length before2))); [reflexivity| |exact Hrule].
    rewrite !getCellContext_split. reflexivity. }
  rewrite Hrules. reflexivity.
Qed.

(** X3: for an index outside the notebook (the [-1] of a cell that is not
    found included), the rules whose condition needs the context of its
    cell are skipped and no cell override is read: the result is the merge
    of the unconditional rules, in order, onto the defaults. *)
Theorem resolution_outside_the_notebook
        (cells : list ICellModel) (cellIndex : Z) (configRules : list Rule) :
  (cellIndex < 0 \/ Z.of_nat (List.length cells) <= cellIndex)%Z ->
  Forall needsCell configRules ->
  applyConfigRules RegExp parseRuleConfig cells cellIndex configRules
  = fold_left (fun merged rule => mergeRuleConfigs merged (parseRuleConfig (config rule)))
              (List.filter unconditional configRules) baseConfig.
Proof.
  intros Hrange Hneeds. unfold applyConfigRules.
  rewrite (cellAt_out_of_range cells cellIndex Hrange).
  generalize baseConfig as start.
  induction Hneeds as [|rule rest Hrule Hrest IH]; intros start; [reflexivity|].
  cbn [fold_left List.filter]. rewrite IH. unfold applyRule, unconditional.
  unfold needsCell in Hrule. destruct (when rule) as [predicate|]; [|reflexivity].
  rewrite (needsContext_without_context RegExp (getCellContext cells) predicate cellIndex
             (getCellContext_out_of_range cells cellIndex Hrange) Hrule).
  reflexivity.
Qed.

Lemma assoc_keys (key : string) (raw : list (string * json)) :
  existsb (String.eqb key) (map fst raw)
  = match assoc key raw with Some _ => true | None => false end.
Proof.
  induction raw as [|[k v] rest IH]; simpl; [reflexivity|].
  rewrite String.eqb_sym. destruct (String.eqb k key); simpl; [reflexivity|exact IH].
Qed.

(** What the loop over the keys leaves in each field: the parsed value
    when the key occurs, the field as it was otherwise. *)
Lemma explicitOverride_fields (data : PartialRuleConfig) (keys : list string) :
  forall acc : PartialRuleConfig,
    let out := fold_left (copyKey data) keys acc in
    chatEnabled' out
    = (if existsb (String.eqb "chatEnabled") keys then chatEnabled' data else chatEnabled' acc)
    /\ chatProactive' out
       = (if existsb (String.eqb "chatProactive") keys
          then chatProactive' data else chatProactive' acc)
    /\ instructorNote' out
       = (if existsb (String.eqb "instructorNote") keys
          then instructorNote' data else instructorNote' acc)
    /\ quickResponses' out
       = (if existsb (String.eqb "quickResponses") keys
          then quickResponses' data else quickResponses' acc).
Proof.
  induction keys as [|key rest IH]; intros acc; [repeat split|].
  cbn [fold_left existsb].
  destruct (IH (copyKey data acc key)) as [H1 [H2 [H3 H4]]].
  cbv zeta. rewrite H1, H2, H3, H4. clear IH H1 H2 H3 H4.
  unfold copyKey.
  rewrite (String.eqb_sym "chatEnabled" key), (String.eqb_sym "chatProactive" key),
    (String.eqb_sym "instructorNote" key), (String.eqb_sym "quickResponses" key).
  destruct (String.eqb_spec key "chatEnabled") as [->|H1];
    [cbn; repeat split;
     repeat match goal with |- context [existsb ?f rest] => destruct (existsb f rest) end;
     reflexivity|].
  destruct (String.eqb_spec key "chatProactive") as [->|H2];
    [cbn; repeat split;
     repeat match goal with |- context [existsb ?f rest] => destruct (existsb f rest) end;
     reflexivity|].
  destruct (String.eqb_spec key "instructorNote") as [->|H3];
    [cbn; repeat split;
     repeat match goal with |- context [existsb ?f rest] => destruct (existsb f rest) end;
     reflexivity|].
  destruct (String.eqb_spec key "quickResponses") as [->|H4];
    cbn; repeat split;
    repeat match goal with |- context [existsb ?f rest] => destruct (existsb f rest) end;
    reflexivity.
Qed.

Lemma parseKey_present {A : Type} (decode : json -> option A) (dflt : A)
      (raw : option json) (parsed : option A) :
  parseKey decode dflt raw = Some parsed ->
  (if match raw with Some _ => true | None => false end then parsed else None)
  = raw ≫= decode.
Proof.
  unfold parseKey. destruct raw as [v|]; simpl.
  - destruct (decode v); intros H; inversion H; reflexivity.
  - intros _. reflexivity.
Qed.

Lemma explicitOverride_presentKeys (raw : list (string * json)) (data : PartialRuleConfig) :
  safeParse raw = Some data -> explicitOverride raw data = presentKeys raw.
Proof.
  unfold safeParse, explicitOverride, presentKeys. intros Hparse.
  destruct (parseKey isBoolean false (assoc "chatEnabled" raw)) as [ce|] eqn:H1;
    [|discriminate].
  destruct (parseKey isBoolean true (assoc "chatProactive" raw)) as [cp|] eqn:H2;
    [|discriminate].
  destruct (parseKey isString EmptyString (assoc "instructorNote" raw)) as [note|] eqn:H3;
    [|discriminate].
  destruct (parseKey isStringArray [] (assoc "quickResponses" raw)) as [qr|] eqn:H4;
    [|discriminate].
  inversion Hparse. subst data. clear Hparse.
  destruct (explicitOverride_fields
              {| chatEnabled' := ce; chatProactive' := cp;
                 instructorNote' := note; quickResponses' := qr |}
              (map fst raw) emptyOverride) as [F1 [F2 [F3 F4]]].
  cbv zeta in F1, F2, F3, F4. rewrite !assoc_keys in F1, F2, F3, F4.
  cbn [chatEnabled' chatProactive' instructorNote' quickResponses' emptyOverride]
    in F1, F2, F3, F4.
  rewrite (parseKey_present _ _ _ _ H1) in F1.
  rewrite (parseKey_present _ _ _ _ H2) in F2.
  rewrite (parseKey_present _ _ _ _ H3) in F3.
  rewrite (parseKey_present _ _ _ _ H4) in F4.
  destruct (fold_left _ (map fst raw) emptyOverride) as [o1 o2 o3 o4].
  cbn in F1, F2, F3, F4. subst. reflexivity.
Qed.

(** X4: a cell override that passes validation is merged with exactly the
    keys it carries: a key of the schema that the override does not
    mention keeps the value the rules gave it (the defaults of the schema
    are not applied), and keys outside the schema play no part. *)
Theorem valid_cell_override_sets_its_keys_only
        (before after : list ICellModel) (cell : ICellModel)
        (raw : list (string * json)) (configRules : list Rule) :
  is_Some (safeParse raw) ->
  let cellIndex := Z.of_nat (List.length before) in
  let withOverrideCells := before ++ withOverride (Some (JObj raw)) cell :: after in
  let without := before ++ withOverride None cell :: after in
  applyConfigRules RegExp parseRuleConfig withOverrideCells cellIndex configRules
  = mergeRuleConfigs (applyConfigRules RegExp parseRuleConfig without cellIndex configRules)
                     (presentKeys raw).
Proof.
  intros [data Hdata] cellIndex withOverrideCells without.
  unfold applyConfigRules, withOverrideCells, without, cellIndex.
  rewrite !cellAt_split, !getMetadata_withOverride, Hdata.
  rewrite (explicitOverride_presentKeys raw data Hdata). f_equal.
  apply rules_same_contexts, getCellContext_same_contexts, same_contexts_split.
  rewrite !buildCellContext_withOverride. reflexivity.
Qed.

End MoreResolutionFacts.

Lemma local_rules_see_one_cell_witness :
  applyConfigRules sampleRegExp id sampleNotebook 1 defaultRules
  = applyConfigRules sampleRegExp id
                     [sampleCell "markdown" [("tags", JArr [JStr "jupytutor:disable"])] []]
                     0 defaultRules.
Proof.
  apply (local_rules_see_one_cell
           sampleRegExp id
           [sampleCell "code" []
                       [JObj [("output_type", JStr "error"); ("ename", JStr "NameError");
                              ("evalue", JStr "name 'x' is not defined")]]]
           [] [] []
           (sampleCell "markdown" [("tags", JArr [JStr "jupytutor:disable"])] [])
           defaultRules).
  repeat constructor.
Defined.

Lemma resolution_outside_the_notebook_witness :
  applyConfigRules sampleRegExp id sampleNotebook (-1) defaultRules
  = {| chatEnabled := true; chatProactive := false;
       instructorNote := EmptyString; quickResponses := [] |}.
Proof.
  apply (resolution_outside_the_notebook sampleRegExp id sampleNotebook (-1) defaultRules).
  - left. reflexivity.
  - repeat constructor.
Defined.

Lemma valid_cell_override_sets_its_keys_only_witness :
  applyConfigRules sampleRegExp id
                   [withOverride (Some (JObj [("quickResponses", JArr [JStr "Hint?"]);
                                              ("colour", JStr "red")]))
                                 (sampleCell "code" [] [])]
                   0 sampleRules
  = {| chatEnabled := true; chatProactive := true;
       instructorNote := "Rule note"; quickResponses := ["Hint?"] |}.
Proof.
  apply (valid_cell_override_sets_its_keys_only
           sampleRegExp id [] [] (sampleCell "code" [] [])
           [("quickResponses", JArr [JStr "Hint?"]); ("colour", JStr "red")] sampleRules).
  eexists. reflexivity.
Defined.

(** ** What the predicates on a cell read *)

Section MoreContextFacts.

Variable RegExp : string -> string -> option (string -> bool).

Lemma getCellContext_cellAt (cells : list ICellModel) (index : Z) :
  getCellContext cells index = buildCellContext <$> cellAt cells index.
Proof.
  unfold getCellContext.
  destruct (index <? 0)%Z eqn:Hneg.
  - unfold cellAt. rewrite Hneg. reflexivity.
  - destruct (Z.of_nat (List.length cells) <=? index)%Z eqn:Hlen; simpl.
    + rewrite cellAt_out_of_range; [reflexivity|]. right. apply Z.leb_le, Hlen.
    + destruct (cellAt cells index); reflexivity.
Qed.

Lemma join_nonEmpty (sep : string) (parts : list string) :
  Forall (fun part => nonEmpty part = true) parts ->
  join sep parts = EmptyString -> parts = [].
Proof.
  intros Hparts Hjoin. destruct Hparts as [|part rest Hpart Hrest]; [reflexivity|].
  exfalso. destruct part as [|c part]; [discriminate Hpart|].
  destruct rest; simpl in Hjoin; discriminate Hjoin.
Qed.

Lemma extractOutputsAsText_empty (outputs : list json) :
  extractOutputsAsText outputs = EmptyString
  <-> Forall (fun output => extractOutputText output = EmptyString) outputs.
Proof.
  unfold extractOutputsAsText. split.
  - intros Hjoin. apply join_nonEmpty in Hjoin.
    + induction outputs as [|output rest IH]; [constructor|].
      simpl in Hjoin.
      destruct (nonEmpty (extractOutputText output)) eqn:Hne; [discriminate Hjoin|].
      constructor; [|exact (IH Hjoin)].
      unfold nonEmpty in Hne. apply negb_false_iff, String.eqb_eq in Hne. exact Hne.
    + apply List.Forall_forall. intros part Hin.
      apply List.filter_In in Hin. tauto.
  - intros Hall. induction Hall as [|output rest Houtput Hrest IH]; [reflexivity|].
    simpl. rewrite Houtput. simpl. exact IH.
Qed.


(** X6: [hasError: true] holds exactly for a code cell of the notebook one
    of whose outputs has the output type [error]; the outputs a cell of
    another type may carry are not looked at. *)
Theorem error_condition_needs_an_error_output (cells : list ICellModel) (cellIndex : Z) :
  evaluatePredicate RegExp (PHasError true) (getCellContext cells) cellIndex = true
  <-> exists cell,
      cellAt cells cellIndex = Some cell
      /\ cell_type cell = "code"
      /\ Exists isErrorOutput (cell_outputs cell).
Proof.
  cbn [evaluatePredicate]. rewrite getCellContext_cellAt.
  destruct (cellAt cells cellIndex) as [cell|]; simpl;
    [|split; [discriminate|intros [cell [Hcell _]]; discriminate Hcell]].
  assert (Herror : detectOutputError (cell_outputs cell) = true
                   <-> Exists isErrorOutput (cell_outputs cell)).
  { unfold detectOutputError. rewrite existsb_exists, List.Exists_exists.
    split; intros [output [Hin Hout]]; exists output; split; try exact Hin.
    - unfold isErrorOutput.
      destruct (get output "output_type") as [[| | |t| |]|]; try discriminate Hout.
      apply String.eqb_eq in Hout. subst t. reflexivity.
    - unfold isErrorOutput in Hout. rewrite Hout. reflexivity. }
  destruct (String.eqb_spec (cell_type cell) "code") as [Hcode|Hother].
  - destruct (detectOutputError (cell_outputs cell)) eqn:Hdetect; simpl.
    + split; [|reflexivity]. intros _. exists cell. repeat split; try assumption.
      apply Herror. reflexivity.
    + split; [discriminate|].
      intros [cell' [Hcell [_ Hsome]]]. inversion Hcell. subst cell'.
      apply Herror in Hsome. discriminate Hsome.
  - split.
    + destruct (String.eqb (cell_type cell) "markdown"); simpl; discriminate.
    + intros [cell' [Hcell [Hcode _]]]. inversion Hcell. subst cell'. contradiction.
Qed.

(** X7: [tags: { any: t }] with a literal [t] holds exactly for a cell of
    the notebook whose [tags] metadata is an array that contains the string
    [t]; entries that are not strings, and [tags] metadata that is not an
    array, never match. *)
Theorem tag_condition_reads_the_string_tags
        (cells : list ICellModel) (cellIndex : Z) (tag : string) :
  evaluatePredicate RegExp (PTags (AAny (MLiteral tag))) (getCellContext cells) cellIndex
  = true
  <-> exists cell, cellAt cells cellIndex = Some cell /\ In (JStr tag) (tagsOf cell).
Proof.
  cbn [evaluatePredicate]. rewrite getCellContext_cellAt.
  destruct (cellAt cells cellIndex) as [cell|]; simpl;
    [|split; [discriminate|intros [cell [Hcell _]]; discriminate Hcell]].
  fold (tagsOf cell).
  assert (Htags : existsb (fun value => String.eqb value tag) (omap isString (tagsOf cell))
                  = true <-> In (JStr tag) (tagsOf cell)).
  { induction (tagsOf cell) as [|item rest IH]; simpl; [split; [discriminate|tauto]|].
    destruct item as [| | |s| |]; simpl; try (rewrite IH; split; [tauto|];
      intros [Habs|Hin]; [discriminate Habs|exact Hin]).
    rewrite orb_true_iff, IH, String.eqb_eq.
    split; (intros [Heq|Hin]; [left|right; exact Hin]); congruence. }
  rewrite Htags. split.
  - intros Hin. exists cell. split; [reflexivity|exact Hin].
  - intros [cell' [Hcell Hin]]. inversion Hcell. subst cell'. exact Hin.
Qed.

End MoreContextFacts.

(** ** Merging a sequence of configurations *)

Lemma find_last {A : Type} (test : A -> bool) (items : list A) (item : A) :
  List.find test (rev (items ++ [item]))
  = if test item then Some item else List.find test (rev items).
Proof. rewrite rev_app_distr. reflexivity. Qed.

(** X8: when configurations are merged in sequence, each key other than the
    note ends with the value of the last configuration that sets it, and
    keeps its starting value when none does. *)
Theorem last_configuration_setting_a_key_wins
        (current : RuleConfigOverride) (updates : list PartialRuleConfig) :
  let merged := fold_left mergeRuleConfigs updates current in
  chatEnabled merged = default (chatEnabled current) (lastSet chatEnabled' updates)
  /\ chatProactive merged = default (chatProactive current) (lastSet chatProactive' updates)
  /\ quickResponses merged
     = default (quickResponses current) (lastSet quickResponses' updates).
Proof.
  induction updates as [|update updates IH] using rev_ind; [repeat split|].
  cbv zeta in *. rewrite fold_left_app. cbn [fold_left].
  destruct IH as [IH1 [IH2 IH3]]. unfold lastSet in *. rewrite !find_last.
  destruct (mergeRuleConfigs_other_keys (fold_left mergeRuleConfigs updates current) update)
    as [H1 [H2 H3]].
  rewrite H1, H2, H3, IH1, IH2, IH3.
  repeat split.
  - destruct (chatEnabled' update) eqn:Hkey; [simpl; rewrite Hkey|]; reflexivity.
  - destruct (chatProactive' update) eqn:Hkey; [simpl; rewrite Hkey|]; reflexivity.
  - destruct (quickResponses' update) eqn:Hkey; [simpl; rewrite Hkey|]; reflexivity.
Qed.

Lemma includes_dollar_app (s t : string) :
  includes s "$" = false -> includes t "$" = false -> includes (s +:+ t) "$" = false.
Proof.
  intros Hs Ht. induction s as [|c s IH]; [exact Ht|].
  pose proof (includes_dollar_head c s Hs) as Hc.
  apply includes_cons_false in Hs. specialize (IH Hs).
  cbn [append]. cbn [includes]. rewrite IH.
  destruct c as [[] [] [] [] [] [] [] []];
    try (exfalso; apply Hc; reflexivity); reflexivity.
Qed.

Lemma prefix_append (p s : string) : String.prefix p (p +:+ s) = true.
Proof.
  induction p as [|c p IH]; [destruct s; reflexivity|].
  cbn [append String.prefix]. destruct (ascii_dec c c); [exact IH|congruence].
Qed.

Lemma drop_append (p s : string) : drop (String.length p) (p +:+ s) = s.
Proof. induction p as [|c p IH]; [destruct s; reflexivity|exact IH]. Qed.

Lemma includes_prefix (s p : string) : String.prefix p s = true -> includes s p = true.
Proof. intros H. destruct s; cbn [includes]; rewrite H; reflexivity. Qed.

Lemma splitFirst_prefix (s p : string) :
  String.prefix p s = true ->
  splitFirst s p = Some (EmptyString, drop (String.length p) s).
Proof. intros H. destruct s; cbn [splitFirst]; rewrite H; reflexivity. Qed.

(** X9: configurations whose note is the placeholder followed by a text
    accumulate: merged in sequence onto a note, they give that note followed
    by their texts in order, as long as no dollar sign occurs in the note
    and the texts. *)
Theorem appended_notes_accumulate (current : RuleConfigOverride) (suffixes : list string) :
  includes (instructorNote current) "$" = false ->
  Forall (fun suffix => includes suffix "$" = false) suffixes ->
  instructorNote (fold_left mergeRuleConfigs (map appendNote suffixes) current)
  = instructorNote current +:+ String.concat EmptyString suffixes.
Proof.
  intros Hnote Hsuffixes. revert current Hnote.
  induction Hsuffixes as [|suffix rest Hsuffix Hrest IH]; intros current Hnote.
  - simpl. rewrite append_empty. reflexivity.
  - cbn [map fold_left].
    assert (Hstep : instructorNote (mergeRuleConfigs current (appendNote suffix))
                    = instructorNote current +:+ suffix).
    { rewrite (mergeRuleConfigs_note_plain current (appendNote suffix)
                 (priorNotesPlaceholder +:+ suffix) eq_refl Hnote).
      rewrite (includes_prefix _ _ (prefix_append priorNotesPlaceholder suffix)).
      unfold replaceLiteral.
      rewrite (splitFirst_prefix _ _ (prefix_append priorNotesPlaceholder suffix)).
      rewrite drop_append. reflexivity. }
    rewrite IH; rewrite Hstep.
    + rewrite append_assoc. f_equal.
      destruct rest; simpl; [rewrite append_empty|]; reflexivity.
    + apply includes_dollar_app; assumption.
Qed.


Lemma error_condition_needs_an_error_output_witness :
  evaluatePredicate sampleRegExp (PHasError true) (getCellContext sampleNotebook) 0 = true.
Proof.
  apply (error_condition_needs_an_error_output sampleRegExp).
  eexists. split; [reflexivity|]. split; [reflexivity|].
  apply List.Exists_cons_hd. reflexivity.
Defined.

Lemma tag_condition_reads_the_string_tags_witness :
  evaluatePredicate sampleRegExp (PTags (AAny (MLiteral "jupytutor:disable")))
                    (getCellContext sampleNotebook) 1
  = true.
Proof.
  apply (tag_condition_reads_the_string_tags sampleRegExp).
  eexists. split; [reflexivity|]. left. reflexivity.
Defined.

Lemma appended_notes_accumulate_witness :
  instructorNote
    (fold_left mergeRuleConfigs (map appendNote [" Be brief."; " Use examples."])
               {| chatEnabled := true; chatProactive := true;
                  instructorNote := "Week 3."; quickResponses := [] |})
  = "Week 3. Be brief. Use examples.".
Proof.
  apply (appended_notes_accumulate
           {| chatEnabled := true; chatProactive := true;
              instructorNote := "Week 3."; quickResponses := [] |}
           [" Be brief."; " Use examples."]).
  - reflexivity.
  - repeat constructor.
Defined.

(** ** The retriever's final state *)

Lemma includes_append_l (a b p : string) :
  includes a p = true -> includes (a +:+ b) p = true.
Proof.
  assert (Hprefix : forall p a, String.prefix p a = true -> String.prefix p (a +:+ b) = true).
  { clear. induction p as [|c p IH]; intros a H; [destruct (a +:+ b); reflexivity|].
    destruct a as [|c' a]; [discriminate H|].
    cbn [append String.prefix] in *. destruct (ascii_dec c c'); [apply IH, H|discriminate H]. }
  induction a as [|c a IH]; intros H.
  - cbn [includes] in H. rewrite orb_false_r in H.
    destruct p; [|discriminate H]. destruct (EmptyString +:+ b); reflexivity.
  - cbn [includes] in H. apply orb_true_iff in H.
    cbn [append includes]. apply orb_true_iff. destruct H as [H|H].
    + left. apply (Hprefix p (String c a) H).
    + right. apply IH, H.
Qed.

Lemma includes_append_r (a b p : string) :
  includes b p = true -> includes (a +:+ b) p = true.
Proof.
  intros H. induction a as [|c a IH]; [exact H|].
  cbn [append includes]. rewrite IH. apply orb_true_r.
Qed.

Lemma includes_refl (s : string) : includes s s = true.
Proof.
  apply includes_prefix. rewrite <- (append_empty s) at 2. apply prefix_append.
Qed.

Lemma includes_join (sep part : string) (parts : list string) :
  In part parts -> includes (join sep parts) part = true.
Proof.
  induction parts as [|x rest IH]; intros Hin; [contradiction|].
  destruct rest as [|y rest].
  - destruct Hin as [->|[]]. apply includes_refl.
  - cbn [join]. destruct Hin as [->|Hin].
    + apply includes_append_l, includes_refl.
    + change (includes (x +:+ (sep +:+ join sep (y :: rest))) part = true).
      apply includes_append_r, includes_append_r, IH, Hin.
Qed.

Section MoreRetrieverFacts.

Context `{api : UrlApi}.
Variable localeCompare : string -> string -> Z.
Variable fetchHrefs : string -> option (list string).
Variable resolve : string -> string -> option string.
Variable fetchText : string -> option string.

Lemma scrapePageText_nonEmpty (links : list string) :
  Forall (fun text => nonEmpty text = true) (omap (scrapePageText fetchText) links).
Proof.
  induction links as [|link rest IH]; [constructor|].
  cbn [omap list_omap]. unfold scrapePageText at 1.
  destruct (fetchText link); [|exact IH].
  constructor; [reflexivity|exact IH].
Qed.

(** X10: when the pages are in, the context is [null] exactly when no page
    answered; otherwise it holds, for every page that answered, the link
    between its markers followed by the text of the page, so that a page
    with no text at all still makes the context non-null. *)
Theorem context_is_null_iff_no_page_answers (links : list string) (r : Retriever) :
  let after := scrapeSourceLinksFinish fetchText links r in
  (_context after = None <-> Forall (fun link => fetchText link = None) links)
  /\ (forall link pageText,
        In link links -> fetchText link = Some pageText ->
        exists context,
          _context after = Some context
          /\ includes context (pageEntry link pageText) = true).
Proof.
  cbv zeta. cbn [scrapeSourceLinksFinish _context]. split.
  - destruct (nonEmpty (join (LF +:+ LF) (omap (scrapePageText fetchText) links)))
      eqn:Hne.
    + split; [discriminate|]. intros Hnone. exfalso.
      assert (Hempty : omap (scrapePageText fetchText) links = []).
      { clear Hne. induction Hnone as [|link rest Hlink Hrest IH]; [reflexivity|].
        cbn [omap list_omap]. unfold scrapePageText at 1. rewrite Hlink. exact IH. }
      rewrite Hempty in Hne. discriminate Hne.
    + split; [|reflexivity]. intros _.
      unfold nonEmpty in Hne. apply negb_false_iff, String.eqb_eq in Hne.
      apply join_nonEmpty in Hne; [|apply scrapePageText_nonEmpty].
      induction links as [|link rest IH]; [constructor|].
      cbn [omap list_omap] in Hne. unfold scrapePageText at 1 in Hne.
      destruct (fetchText link) eqn:Hlink; [discriminate Hne|].
      constructor; [exact Hlink|exact (IH Hne)].
  - intros link pageText Hin Hanswer.
    assert (Hpart : In (pageEntry link pageText) (omap (scrapePageText fetchText) links)).
    { induction links as [|x rest IH]; [contradiction|].
      cbn [omap list_omap]. destruct Hin as [->|Hin].
      - unfold scrapePageText at 1. rewrite Hanswer. left. reflexivity.
      - destruct (scrapePageText fetchText x); [right|]; exact (IH Hin). }
    pose proof (includes_join (LF +:+ LF) _ _ Hpart) as Hincludes.
    destruct (nonEmpty (join (LF +:+ LF) (omap (scrapePageText fetchText) links)))
      eqn:Hne; [eexists; split; [reflexivity|exact Hincludes]|].
    exfalso. unfold nonEmpty in Hne. apply negb_false_iff, String.eqb_eq in Hne.
    apply join_nonEmpty in Hne; [|apply scrapePageText_nonEmpty].
    rewrite Hne in Hpart. contradiction.
Qed.

Lemma timerFires_settled (r : Retriever) :
  _softTimeoutPromise r = true -> timerFires r = r.
Proof. destruct r. simpl. intros ->. reflexivity. Qed.

Lemma scrapeSourceLinksStart_pending (r : Retriever) (urls : list string) :
  pending (scrapeSourceLinksStart r) <> AwaitingExpansion urls.
Proof. unfold scrapeSourceLinksStart. destruct (_sourceLinks r); discriminate. Qed.

Lemma settle_pending (r : Retriever) :
  pending (settle localeCompare fetchHrefs resolve fetchText r) = NothingPending.
Proof.
  unfold settle. destruct (pending r) as [urls|links|] eqn:Hpending.
  - cbn [loaded pending].
    destruct (pending (scrapeSourceLinksStart
                         (expandJupyterBookLinksFinish localeCompare fetchHrefs resolve
                                                       urls r))) as [urls'|links|] eqn:Hp.
    + exfalso. exact (scrapeSourceLinksStart_pending _ _ Hp).
    + reflexivity.
    + cbn [loaded pending]. exact Hp.
  - rewrite Hpending. reflexivity.
  - rewrite Hpending. exact Hpending.
Qed.

Lemma settle_settled (r : Retriever) :
  pending r = NothingPending ->
  settle localeCompare fetchHrefs resolve fetchText r = r.
Proof. intros H. unfold settle. rewrite H, H. reflexivity. Qed.

Lemma expansion_after_timer (r : Retriever) (urls : list string) :
  loaded (scrapeSourceLinksStart
            (expandJupyterBookLinksFinish localeCompare fetchHrefs resolve urls
                                          (timerFires r)))
  = loaded (scrapeSourceLinksStart
              (expandJupyterBookLinksFinish localeCompare fetchHrefs resolve urls r)).
Proof.
  unfold loaded, scrapeSourceLinksStart, expandJupyterBookLinksFinish, timerFires.
  cbn [_sourceLinks _context _blacklistedURLs _whitelistedURLs pending].
  destruct (match expandJupyterBookLinks localeCompare fetchHrefs resolve
                                         (_sourceLinks r) urls with
            | Some expanded => expanded
            | None => _sourceLinks r
            end); reflexivity.
Qed.

(** Each event leaves the state the pending work leads to where it was,
    the timer apart. *)
Lemma step_settle (r r' : Retriever) :
  step localeCompare fetchHrefs resolve fetchText r r' ->
  timerFires (settle localeCompare fetchHrefs resolve fetchText r')
  = timerFires (settle localeCompare fetchHrefs resolve fetchText r).
Proof.
  intros Hstep. destruct Hstep as [r urls Hpending|r links Hpending|r].
  - f_equal. unfold settle at 2. rewrite Hpending.
    unfold settle.
    destruct (pending (loaded (scrapeSourceLinksStart
                                 (expandJupyterBookLinksFinish localeCompare fetchHrefs
                                                               resolve urls r))))
      as [urls'|links|] eqn:Hp; [|rewrite Hp; reflexivity|rewrite Hp; reflexivity].
    exfalso. exact (scrapeSourceLinksStart_pending _ _ Hp).
  - f_equal. unfold settle at 2. rewrite Hpending, Hpending.
    apply settle_settled. reflexivity.
  - unfold settle. change (pending (timerFires r)) with (pending r).
    destruct (pending r) as [urls|links|] eqn:Hpending.
    + rewrite (expansion_after_timer r urls). reflexivity.
    + change (pending (timerFires r)) with (pending r). rewrite Hpending. reflexivity.
    + change (pending (timerFires r)) with (pending r). rewrite Hpending. reflexivity.
Qed.

Lemma steps_to_settle (r : Retriever) :
  steps localeCompare fetchHrefs resolve fetchText r
        (timerFires (settle localeCompare fetchHrefs resolve fetchText r)).
Proof.
  assert (Hlast : forall x, steps localeCompare fetchHrefs resolve fetchText x (timerFires x)).
  { intros x. eapply steps_step; [apply step_timer|apply steps_refl]. }
  assert (Hpages : forall x,
             steps localeCompare fetchHrefs resolve fetchText x
                   (timerFires match pending x with
                               | AwaitingPages links => scrapeSourceLinksFinish fetchText links x
                               | _ => x
                               end)).
  { intros x. destruct (pending x) as [urls|links|] eqn:Hp; try apply Hlast.
    eapply steps_step; [apply (step_scraped _ _ _ _ x links Hp)|apply Hlast]. }
  unfold settle. destruct (pending r) as [urls|links|] eqn:Hpending.
  - eapply steps_step; [apply (step_expanded _ _ _ _ r urls Hpending)|apply Hpages].
  - apply Hpages.
  - apply Hpages.
Qed.

Lemma settle_terminal (r r' : Retriever) :
  pending r = NothingPending -> _softTimeoutPromise r = true ->
  steps localeCompare fetchHrefs resolve fetchText r r' -> r' = r.
Proof.
  intros Hpending Hsoft Hsteps.
  induction Hsteps as [r|r1 r2 r3 Hstep Hsteps IH]; [reflexivity|].
  assert (Hsame : r2 = r1).
  { destruct Hstep as [r urls Hp|r links Hp|r];
      [rewrite Hpending in Hp; discriminate Hp
      |rewrite Hpending in Hp; discriminate Hp
      |apply timerFires_settled, Hsoft]. }
  subst r2. apply IH; assumption.
Qed.

Lemma settle_constructor_promises (cfg : ContextRetrievalConfig) :
  let final := settle localeCompare fetchHrefs resolve fetchText (constructor cfg) in
  _loadedPromise final = true /\ _softTimeoutPromise final = true.
Proof.
  assert (Hsettle : forall x,
             (exists urls, pending x = AwaitingExpansion urls)
             \/ (_loadedPromise x = true /\ _softTimeoutPromise x = true) ->
             _loadedPromise (settle localeCompare fetchHrefs resolve fetchText x) = true
             /\ _softTimeoutPromise (settle localeCompare fetchHrefs resolve fetchText x)
                = true).
  { intros x Hx. unfold settle. destruct (pending x) as [urls|links|] eqn:Hpending.
    - match goal with
      | |- context [pending (loaded ?y)] => destruct (pending (loaded y)); split; reflexivity
      end.
    - rewrite Hpending. destruct Hx as [[urls Hurls]|Hx]; [discriminate Hurls|exact Hx].
    - rewrite Hpending. destruct Hx as [[urls Hurls]|Hx]; [discriminate Hurls|exact Hx]. }
  cbv zeta. apply Hsettle. unfold Retrieval.constructor.
  destruct (debug cfg); [right; split; reflexivity|].
  destruct (attemptJupyterbookLinkExpansion cfg).
  - left. eexists. reflexivity.
  - right. split; reflexivity.
Qed.

(** X11: whatever the order in which the timer fires, the expansion comes
    back and the pages come in, every state the instance reaches can still
    reach the state in which its pending work is carried out, and that
    state is final: nothing changes it any more, and both kinds of reader
    are answered there with the same context and the same links. *)
Theorem background_work_ends_in_one_state (cfg : ContextRetrievalConfig) (r : Retriever) :
  steps localeCompare fetchHrefs resolve fetchText (constructor cfg) r ->
  let final := settle localeCompare fetchHrefs resolve fetchText (constructor cfg) in
  steps localeCompare fetchHrefs resolve fetchText r final
  /\ (forall r', steps localeCompare fetchHrefs resolve fetchText final r' -> r' = final)
  /\ (forall enforcing,
        getContext enforcing final = Some (_context final)
        /\ getSourceLinks enforcing final = Some (_sourceLinks final)).
Proof.
  intros Hsteps final.
  destruct (settle_constructor_promises cfg) as [Hloaded Hsoft]. fold final in Hloaded, Hsoft.
  assert (Hkept : forall a b,
             steps localeCompare fetchHrefs resolve fetchText a b ->
             timerFires (settle localeCompare fetchHrefs resolve fetchText b)
             = timerFires (settle localeCompare fetchHrefs resolve fetchText a)).
  { intros a b Hab. induction Hab as [a|a b c Hstep Hbc IH]; [reflexivity|].
    rewrite IH. apply step_settle, Hstep. }
  assert (Hfinal : forall x,
             steps localeCompare fetchHrefs resolve fetchText (constructor cfg) x ->
             timerFires (settle localeCompare fetchHrefs resolve fetchText x) = final).
  { intros x Hx. rewrite (Hkept _ _ Hx). apply timerFires_settled, Hsoft. }
  split; [|split].
  - rewrite <- (Hfinal r Hsteps). apply steps_to_settle.
  - intros r' Hr'. apply (settle_terminal final r'); [apply settle_pending|exact Hsoft|exact Hr'].
  - intros enforcing. unfold getContext, getSourceLinks, awaited.
    destruct enforcing; rewrite ?Hloaded, ?Hsoft; split; reflexivity.
Qed.

(** X12: in debug mode the instance never changes after the constructor:
    no link is expanded, filtered or fetched, and every reader is answered
    at once with a [null] context and the configured links. *)
Theorem debug_mode_leaves_the_links_alone (cfg : ContextRetrievalConfig) (r : Retriever) :
  debug cfg = true ->
  steps localeCompare fetchHrefs resolve fetchText (constructor cfg) r ->
  r = constructor cfg
  /\ forall enforcing,
       getContext enforcing r = Some None
       /\ getSourceLinks enforcing r = Some (sourceLinks cfg).
Proof.
  intros Hdebug Hsteps.
  assert (Hsame : r = constructor cfg).
  { apply (settle_terminal (constructor cfg) r); [| |exact Hsteps];
      unfold Retrieval.constructor; rewrite Hdebug; reflexivity. }
  split; [exact Hsame|]. subst r. intros enforcing.
  unfold Retrieval.constructor. rewrite Hdebug. destruct enforcing; split; reflexivity.
Qed.

Lemma step_promises (r r' : Retriever) :
  step localeCompare fetchHrefs resolve fetchText r r' ->
  (_loadedPromise r = true -> _loadedPromise r' = true)
  /\ (_softTimeoutPromise r = true -> _softTimeoutPromise r' = true)
  /\ ((_loadedPromise r = true -> _softTimeoutPromise r = true) ->
      _loadedPromise r' = true -> _softTimeoutPromise r' = true).
Proof.
  intros Hstep. destruct Hstep as [r urls Hp|r links Hp|r]; cbn; auto.
Qed.

(** X13: a reader that is answered in some state of the instance is
    answered in every later state, and in every state the instance reaches
    after the constructor a reader without the flag is answered whenever an
    enforcing reader is; this holds of [getContext] and of
    [getSourceLinks]. *)
Theorem answered_readers_stay_answered
        (cfg : ContextRetrievalConfig) (r r' : Retriever) :
  steps localeCompare fetchHrefs resolve fetchText (constructor cfg) r ->
  steps localeCompare fetchHrefs resolve fetchText r r' ->
  (forall enforcing, is_Some (getContext enforcing r) -> is_Some (getContext enforcing r'))
  /\ (is_Some (getContext true r) -> is_Some (getContext false r))
  /\ (forall enforcing,
        is_Some (getSourceLinks enforcing r) -> is_Some (getSourceLinks enforcing r'))
  /\ (is_Some (getSourceLinks true r) -> is_Some (getSourceLinks false r)).
Proof.
  intros Hreach Hlater.
  assert (Hread : forall enforcing x,
             is_Some (getContext enforcing x) <-> awaited enforcing x = true).
  { intros enforcing x. unfold getContext. destruct (awaited enforcing x); split;
      intros H; try reflexivity; try discriminate; try (eexists; reflexivity).
    destruct H as [v Hv]. discriminate Hv. }
  assert (Hlinks : forall enforcing x,
             is_Some (getSourceLinks enforcing x) <-> awaited enforcing x = true).
  { intros enforcing x. unfold getSourceLinks. destruct (awaited enforcing x); split;
      intros H; try reflexivity; try discriminate; try (eexists; reflexivity).
    destruct H as [v Hv]. discriminate Hv. }
  assert (Hstay : forall enforcing, awaited enforcing r = true -> awaited enforcing r' = true).
  { intros enforcing. clear Hreach.
    induction Hlater as [r|r1 r2 r3 Hstep Hlater IH]; [tauto|].
    intros H. apply IH. destruct (step_promises r1 r2 Hstep) as [Hl [Hs _]].
    destruct enforcing; [apply Hl|apply Hs]; exact H. }
  assert (Hsoft : awaited true r = true -> awaited false r = true).
  { cbn [awaited]. clear Hlater Hstay r'.
    assert (Hstart : _loadedPromise (constructor cfg) = true ->
                     _softTimeoutPromise (constructor cfg) = true).
    { unfold Retrieval.constructor. destruct (debug cfg); [reflexivity|].
      destruct (attemptJupyterbookLinkExpansion cfg); [discriminate|reflexivity]. }
    revert Hstart. induction Hreach as [r|r1 r2 r3 Hstep Hreach IH]; [tauto|].
    intros Hstart. apply IH. apply (step_promises r1 r2 Hstep), Hstart. }
  split; [|split; [|split]].
  - intros enforcing. rewrite !Hread. apply Hstay.
  - rewrite !Hread. exact Hsoft.
  - intros enforcing. rewrite !Hlinks. apply Hstay.
  - rewrite !Hlinks. exact Hsoft.
Qed.

End MoreRetrieverFacts.

Section MoreRetrieverExamples.

#[local] Existing Instance sampleUrlApi.

Lemma context_is_null_iff_no_page_answers_witness :
  _context (scrapeSourceLinksFinish sampleFetchText ["https://www.data8.org/fa24/"]
                                    (constructor sampleConfig))
  = None.
Proof.
  apply (proj1 (context_is_null_iff_no_page_answers
                  sampleFetchText ["https://www.data8.org/fa24/"] (constructor sampleConfig))).
  repeat constructor.
Defined.

Lemma background_work_ends_in_one_state_witness :
  steps sampleLocaleCompare (fun _ => None) (fun _ _ => None) sampleFetchText
        (timerFires (constructor sampleConfig))
        (settle sampleLocaleCompare (fun _ => None) (fun _ _ => None) sampleFetchText
                (constructor sampleConfig)).
Proof.
  apply (background_work_ends_in_one_state
           sampleLocaleCompare (fun _ => None) (fun _ _ => None) sampleFetchText
           sampleConfig (timerFires (constructor sampleConfig))).
  eapply steps_step; [apply step_timer|apply steps_refl].
Defined.

Lemma debug_mode_leaves_the_links_alone_witness :
  let cfg := {| sourceLinks := ["https://b.com/chapters/7/2"];
                whitelistedURLs := None; blacklistedURLs := ["b.com"];
                jupyterbookURLs := ["b.com"]; attemptJupyterbookLinkExpansion := true;
                debug := true |} in
  timerFires (constructor cfg) = constructor cfg.
Proof.
  intros cfg.
  apply (debug_mode_leaves_the_links_alone
           sampleLocaleCompare sampleFetchHrefs sampleResolve sampleFetchText
           cfg (timerFires (constructor cfg)) eq_refl).
  eapply steps_step; [apply step_timer|apply steps_refl].
Defined.

Lemma answered_readers_stay_answered_witness :
  let cfg := {| sourceLinks := ["https://b.com/chapters/7/2"];
                whitelistedURLs := None; blacklistedURLs := [];
                jupyterbookURLs := ["b.com"]; attemptJupyterbookLinkExpansion := true;
                debug := false |} in
  let waiting := timerFires (constructor cfg) in
  let expanded :=
    loaded (scrapeSourceLinksStart
              (expandJupyterBookLinksFinish sampleLocaleCompare sampleFetchHrefs
                                            sampleResolve ["b.com"] waiting)) in
  is_Some (getContext false expanded) /\ is_Some (getSourceLinks false expanded).
Proof.
  intros cfg waiting expanded.
  destruct (answered_readers_stay_answered
              sampleLocaleCompare sampleFetchHrefs sampleResolve sampleFetchText
              cfg waiting expanded
              ltac:(eapply steps_step; [apply step_timer|apply steps_refl])
              ltac:(eapply steps_step;
                    [apply (step_expanded _ _ _ _ waiting ["b.com"] eq_refl)
                    |apply steps_refl]))
    as [Hcontext [_ [Hlinks _]]].
  split; [apply (Hcontext false)|apply (Hlinks false)]; eexists; reflexivity.
Defined.

End MoreRetrieverExamples.

(** ** Discovery and expansion of JupyterBook links *)

Lemma insertSorted_NoDup {A : Type} (compare : A -> A -> Z) (x : A) (sorted : list A) :
  ~ In x sorted -> List.NoDup sorted -> List.NoDup (insertSorted compare x sorted).
Proof.
  intros Hx Hsorted. induction Hsorted as [|y rest Hy Hrest IH]; simpl.
  - constructor; [tauto|constructor].
  - destruct (compare x y <=? 0)%Z.
    + constructor; [exact Hx|constructor; assumption].
    + constructor.
      * rewrite insertSorted_In. intros [->|Hin]; [apply Hx; left; reflexivity|tauto].
      * apply IH. intros Hin. apply Hx. right. exact Hin.
Qed.

Lemma sort_NoDup {A : Type} (compare : A -> A -> Z) (items : list A) :
  List.NoDup items -> List.NoDup (sort compare items).
Proof.
  intros Hitems. induction Hitems as [|x rest Hx Hrest IH]; simpl; [constructor|].
  apply insertSorted_NoDup; [rewrite sort_In; exact Hx|exact IH].
Qed.

Lemma unique_NoDup (seen : gset string) (links : list string) :
  List.NoDup (unique seen links) /\ forall x, In x (unique seen links) -> x ∉ seen.
Proof.
  revert seen. induction links as [|link rest IH]; intros seen; simpl.
  - split; [constructor|tauto].
  - destruct (bool_decide (link ∈ seen)) eqn:Hin; [apply IH|].
    apply bool_decide_eq_false in Hin.
    destruct (IH ({[ link ]} ∪ seen)) as [Hnodup Hout]. split.
    + constructor; [|exact Hnodup]. intros Hdup. apply (Hout link Hdup).
      apply elem_of_union_l, elem_of_singleton. reflexivity.
    + intros x [<-|Hx]; [exact Hin|].
      intros Hseen. apply (Hout x Hx). apply elem_of_union_r, Hseen.
Qed.

Section MoreDiscoveryFacts.

Context `{api : UrlApi}.
Variable localeCompare : string -> string -> Z.
Variable fetchHrefs : string -> option (list string).
Variable resolve : string -> string -> option string.

Lemma isChapterSectionLink_accepts (path : string)
      (targetChapter targetSubsection : option string) :
  isChapterSectionLink path targetChapter targetSubsection = true ->
  resourcePath path = false
  /\ includes path "/chapters/" = true
  /\ is_Some targetChapter
  /\ matchChapter path = targetChapter.
Proof.
  unfold isChapterSectionLink. fold (resourcePath path).
  destruct (resourcePath path); [discriminate|].
  destruct (includes path "/chapters/"); [|discriminate]. cbn [negb].
  intros H.
  assert (Hsame : match matchChapter path with
                  | Some linkChapter => bool_decide (Some linkChapter = targetChapter)
                  | None => false
                  end = true).
  { destruct (given targetSubsection); [exact H|].
    destruct (given targetChapter); [exact H|discriminate H]. }
  destruct (matchChapter path) as [linkChapter|]; [|discriminate Hsame].
  apply bool_decide_eq_true in Hsame. rewrite <- Hsame.
  repeat split. eexists; reflexivity.
Qed.

Lemma collectLinks_accepted (pageUrl jupyterbookURL : string)
      (targetChapter targetSubsection : option string) (hrefs links links' : list string) :
  collectLinks resolve pageUrl jupyterbookURL targetChapter targetSubsection links hrefs
  = Some links' ->
  forall x, In x links' ->
            In x links
            \/ exists path, pathnameOf x = Some path
                            /\ isChapterSectionLink path targetChapter targetSubsection = true.
Proof.
  revert links. induction hrefs as [|href rest IH]; intros links Hcollect x Hx;
    simpl in Hcollect.
  - inversion Hcollect; subst. left. exact Hx.
  - destruct (collectLink resolve pageUrl jupyterbookURL targetChapter targetSubsection
                          links href) as [links1|] eqn:Hone; [|discriminate].
    cbn [mbind option_bind] in Hcollect.
    destruct (IH links1 Hcollect x Hx) as [Hin|Hnew]; [|right; exact Hnew].
    clear IH Hcollect Hx. unfold collectLink in Hone.
    destruct (String.eqb href EmptyString); [inversion Hone; subst; left; exact Hin|].
    destruct (unwanted href); [inversion Hone; subst; left; exact Hin|].
    destruct (if startsWith href "/" then resolve href pageUrl
              else if startsWith href "http" then Some href else resolve href pageUrl)
      as [fullUrl|]; [|discriminate].
    cbn [mbind option_bind] in Hone.
    destruct (includes fullUrl jupyterbookURL); [|inversion Hone; subst; left; exact Hin].
    destruct (pathnameOf (normalizeUrl fullUrl)) as [path|] eqn:Hpath; [|discriminate].
    cbn [mbind option_bind] in Hone.
    destruct (isChapterSectionLink path targetChapter targetSubsection) eqn:Hlink;
      inversion Hone; subst; [|left; exact Hin].
    apply in_app_iff in Hin. destruct Hin as [Hin|[<-|[]]]; [left; exact Hin|].
    right. exists path. split; assumption.
Qed.

(** X14: the links found on a page of a book are distinct, each of them
    parses, lies in the chapter the page is compared with, has a
    [/chapters/] path and is no resource (sources, static files, images,
    notebooks, archives); a page that cannot be fetched, or whose address
    names no chapter, gives no links. *)
Theorem found_links_lie_in_the_target_chapter (pageUrl jupyterbookURL : string) :
  let found := findJupyterBookLinks localeCompare fetchHrefs resolve pageUrl jupyterbookURL in
  List.NoDup found
  /\ (forall link, In link found ->
                   exists path,
                     pathnameOf link = Some path
                     /\ matchChapter path = targetChapterOf pageUrl
                     /\ includes path "/chapters/" = true
                     /\ resourcePath path = false)
  /\ (fetchHrefs pageUrl = None \/ targetChapterOf pageUrl = None -> found = []).
Proof.
  cbv zeta. unfold findJupyterBookLinks, findJupyterBookLinksBody, targetChapterOf.
  assert (Hnone : List.NoDup (@nil string)
                  /\ (forall link, In link [] ->
                                   exists path,
                                     pathnameOf link = Some path
                                     /\ matchChapter path
                                        = match pathnameOf pageUrl with
                                          | Some currentPath =>
                                              match matchSubsection currentPath with
                                              | Some (chapter, _) => Some chapter
                                              | None => matchChapter currentPath
                                              end
                                          | None => None
                                          end
                                     /\ includes path "/chapters/" = true
                                     /\ resourcePath path = false)
                  /\ (fetchHrefs pageUrl = None
                      \/ match pathnameOf pageUrl with
                         | Some currentPath =>
                             match matchSubsection currentPath with
                             | Some (chapter, _) => Some chapter
                             | None => matchChapter currentPath
                             end
                         | None => None
                         end = None -> @nil string = [])).
  { split; [constructor|]. split; [intros link []|reflexivity]. }
  destruct (fetchHrefs pageUrl) as [hrefs|]; [|exact Hnone].
  destruct (pathnameOf pageUrl) as [currentPath|]; [|exact Hnone].
  cbn [mbind option_bind]. clear Hnone.
  set (target := match matchSubsection currentPath with
                 | Some (chapter, subsection) => (Some chapter, Some subsection)
                 | None => (matchChapter currentPath, None)
                 end).
  assert (Htarget : fst target = match matchSubsection currentPath with
                                 | Some (chapter, _) => Some chapter
                                 | None => matchChapter currentPath
                                 end).
  { unfold target. destruct (matchSubsection currentPath) as [[chapter subsection]|];
      reflexivity. }
  rewrite <- Htarget. clear Htarget.
  destruct target as [targetChapter targetSubsection]. cbn [fst].
  destruct (collectLinks resolve pageUrl jupyterbookURL targetChapter targetSubsection
                         [] hrefs) as [links|] eqn:Hcollect.
  - cbn [mbind option_bind].
    assert (Haccepted : forall x, In x (unique ∅ links) ->
                                  exists path,
                                    pathnameOf x = Some path
                                    /\ isChapterSectionLink path targetChapter targetSubsection
                                       = true).
    { intros x Hx. apply (unique_In fetchHrefs resolve) in Hx.
      destruct (collectLinks_accepted _ _ _ _ _ _ _ Hcollect x Hx) as [[]|H]. exact H. }
    unfold sortChapterSectionLinks. rewrite sortLinks_parsed.
    + cbn [default]. split; [apply sort_NoDup, unique_NoDup|]. split.
      * intros link Hlink. apply sort_In in Hlink.
        destruct (Haccepted link Hlink) as [path [Hpath Hlinkok]].
        apply isChapterSectionLink_accepts in Hlinkok.
        exists path. tauto.
      * intros [Hfetch|Hchapter]; [discriminate Hfetch|]. subst targetChapter.
        destruct (unique ∅ links) as [|x rest]; [reflexivity|].
        destruct (Haccepted x (or_introl eq_refl)) as [path [_ Hlinkok]].
        apply isChapterSectionLink_accepts in Hlinkok.
        destruct Hlinkok as [_ [_ [[c Hc] _]]]. discriminate Hc.
    + apply List.Forall_forall. intros x Hx.
      destruct (Haccepted x Hx) as [path [Hpath _]]. rewrite Hpath. eexists; reflexivity.
  - cbn [mbind option_bind default].
    split; [constructor|]. split; [intros link []|reflexivity].
Qed.

End MoreDiscoveryFacts.

Lemma NoDup_snoc {A : Type} (l : list A) (x : A) :
  List.NoDup l -> ~ In x l -> List.NoDup (l ++ [x]).
Proof.
  intros Hl Hx. induction Hl as [|y rest Hy Hrest IH]; simpl.
  - constructor; [tauto|constructor].
  - constructor.
    + rewrite in_app_iff. simpl. intros [Hin|[->|[]]]; [tauto|].
      apply Hx. left. reflexivity.
    + apply IH. intros Hin. apply Hx. right. exact Hin.
Qed.

Lemma NoDup_append {A : Type} (l1 l2 : list A) :
  List.NoDup l1 -> List.NoDup l2 -> (forall x, In x l2 -> ~ In x l1) ->
  List.NoDup (l1 ++ l2).
Proof.
  intros H1 H2 Hdisjoint. induction H1 as [|y rest Hy Hrest IH]; simpl; [exact H2|].
  constructor.
  - rewrite in_app_iff. intros [Hin|Hin]; [tauto|].
    apply (Hdisjoint y Hin). left. reflexivity.
  - apply IH. intros x Hx Hin. apply (Hdisjoint x Hx). right. exact Hin.
Qed.

Section MoreEmittingFacts.

Context `{api : UrlApi}.

Lemma freshOnes_all (seen : gset string) (links : list string) :
  List.NoDup (map normalizeUrl links) ->
  (forall link, In link links -> normalizeUrl link ∉ seen) ->
  freshOnes seen links = links.
Proof.
  revert seen. induction links as [|link rest IH]; intros seen Hnodup Hout; [reflexivity|].
  simpl. inversion Hnodup as [|key keys Hkey Hkeys]; subst.
  destruct (bool_decide (normalizeUrl link ∈ seen)) eqn:Hin.
  - apply bool_decide_eq_true in Hin. exfalso. apply (Hout link); [left; reflexivity|exact Hin].
  - f_equal. apply IH; [exact Hkeys|].
    intros x Hx Hseen. apply elem_of_union in Hseen. destruct Hseen as [Hone|Hseen].
    + apply elem_of_singleton in Hone. apply Hkey. rewrite <- Hone.
      apply in_map. exact Hx.
    + apply (Hout x); [right; exact Hx|exact Hseen].
Qed.

End MoreEmittingFacts.

Section MoreWalkFacts.

Context `{api : UrlApi}.
Variable localeCompare : string -> string -> Z.
Variable fetchHrefs : string -> option (list string).
Variable resolve : string -> string -> option string.
Variable jupyterbookURLs : list string.

Lemma walk_plain (allLinks : list (list string)) (sourceLinks : list string) :
  Forall (fun link => isJupyterBookLink jupyterbookURLs link = false) sourceLinks ->
  forall w,
  exists w',
    walk localeCompare jupyterbookURLs allLinks w sourceLinks = Some w'
    /\ result w' = (result w ++ freshOnes (seenUrls w) sourceLinks)%list.
Proof.
  intros Hplain. induction Hplain as [|link rest Hlink Hrest IH]; intros w.
  - exists w. split; [reflexivity|]. simpl. rewrite app_nil_r. reflexivity.
  - cbn [walk]. unfold walkStep. rewrite Hlink. unfold emit. cbn [freshOnes].
    destruct (bool_decide (normalizeUrl link ∈ seenUrls w)); cbn [mbind option_bind].
    + destruct (IH {| result := result w; seenUrls := seenUrls w;
                      jupyterBookIndex := jupyterBookIndex w |}) as [w' [Hwalk Hresult]].
      exists w'. split; [exact Hwalk|exact Hresult].
    + destruct (IH {| result := result w ++ [link];
                      seenUrls := {[ normalizeUrl link ]} ∪ seenUrls w;
                      jupyterBookIndex := jupyterBookIndex w |}) as [w' [Hwalk Hresult]].
      exists w'. split; [exact Hwalk|]. rewrite Hresult. cbn [result seenUrls].
      rewrite <- app_assoc. reflexivity.
Qed.

(** X15: when no source link belongs to a configured JupyterBook (no book
    is configured, for one), the expansion fetches nothing and only drops
    the links whose normalised form occurred earlier in the list; source
    links with distinct normalised forms come back unchanged. *)
Theorem expansion_without_book_links (sourceLinks : list string) :
  Forall (fun link => isJupyterBookLink jupyterbookURLs link = false) sourceLinks ->
  expandJupyterBookLinks localeCompare fetchHrefs resolve sourceLinks jupyterbookURLs
  = Some (freshOnes ∅ sourceLinks)
  /\ (List.NoDup (map normalizeUrl sourceLinks) ->
      expandJupyterBookLinks localeCompare fetchHrefs resolve sourceLinks jupyterbookURLs
      = Some sourceLinks).
Proof.
  intros Hplain.
  assert (Hexpand : expandJupyterBookLinks localeCompare fetchHrefs resolve
                                           sourceLinks jupyterbookURLs
                    = Some (freshOnes ∅ sourceLinks)).
  { unfold expandJupyterBookLinks.
    destruct (walk_plain
                (map (linksFor localeCompare fetchHrefs resolve jupyterbookURLs)
                     (List.filter (isJupyterBookLink jupyterbookURLs) sourceLinks))
                sourceLinks Hplain
                {| result := []; seenUrls := ∅; jupyterBookIndex := 0 |})
      as [w' [Hwalk Hresult]].
    rewrite Hwalk. cbn [mbind option_bind]. rewrite Hresult. reflexivity. }
  split; [exact Hexpand|].
  intros Hnodup. rewrite Hexpand. f_equal. apply freshOnes_all; [exact Hnodup|].
  intros link _. apply not_elem_of_empty.
Qed.

Hypothesis localeCompare_total :
  forall a b, (localeCompare a b <= 0 \/ localeCompare b a <= 0)%Z.
Hypothesis localeCompare_trans :
  forall a b c, (localeCompare a b <= 0 -> localeCompare b c <= 0 -> localeCompare a c <= 0)%Z.

Lemma ownBlock_facts (emitted : list string) (link : string) (block : list string) :
  ownBlock emitted link block ->
  List.NoDup (map normalizeUrl emitted) ->
  List.NoDup (map normalizeUrl (emitted ++ block))
  /\ In (normalizeUrl link) (map normalizeUrl (emitted ++ block))
  /\ forall x, In x block -> x = link.
Proof.
  intros [[Hfresh ->]|[Hseen ->]] Hnodup.
  - rewrite map_app. split; [apply NoDup_snoc; assumption|].
    split; [apply in_or_app; right; left; reflexivity|].
    intros x [<-|[]]. reflexivity.
  - rewrite app_nil_r. split; [exact Hnodup|]. split; [|intros x []].
    unfold fresh in Hseen.
    destruct (in_dec string_dec (normalizeUrl link) (map normalizeUrl emitted));
      [assumption|contradiction].
Qed.

Lemma interleaved_facts (emitted sourceLinks : list string) (blocks : list (list string)) :
  Interleaved localeCompare fetchHrefs resolve jupyterbookURLs emitted sourceLinks blocks ->
  List.NoDup (map normalizeUrl emitted) ->
  List.NoDup (map normalizeUrl (emitted ++ concat blocks))
  /\ (forall link, In link sourceLinks ->
                   In (normalizeUrl link) (map normalizeUrl (emitted ++ concat blocks)))
  /\ (forall x, In x (concat blocks) ->
                In x sourceLinks
                \/ exists link,
                    In link sourceLinks
                    /\ isJupyterBookLink jupyterbookURLs link = true
                    /\ In x (linksFor localeCompare fetchHrefs resolve jupyterbookURLs link)).
Proof.
  intros Hblocks.
  induction Hblocks as [emitted
                       |emitted link rest block blocks Hplain Hown Hrest IH
                       |emitted link rest own expansion blocks Hbook Hown Hexpansion Hrest IH];
    intros Hnodup.
  - simpl. rewrite app_nil_r. split; [exact Hnodup|]. split; [intros link []|intros x []].
  - destruct (ownBlock_facts _ _ _ Hown Hnodup) as [Hnodup1 [Hkey Hblock]].
    destruct (IH Hnodup1) as [Hnodup2 [Hall Hfrom]].
    cbn [concat]. rewrite app_assoc. split; [exact Hnodup2|]. split.
    + intros x [<-|Hx]; [|apply Hall, Hx].
      rewrite map_app. apply in_or_app. left. exact Hkey.
    + intros x Hx. apply in_app_iff in Hx. destruct Hx as [Hx|Hx].
      * left. left. symmetry. apply Hblock, Hx.
      * destruct (Hfrom x Hx) as [Hin|[l [Hl Hrest']]]; [left; right; exact Hin|].
        right. exists l. split; [right; exact Hl|exact Hrest'].
  - destruct (ownBlock_facts _ _ _ Hown Hnodup) as [Hnodup1 [Hkey Hblock]].
    destruct Hexpansion as [_ [_ [Hnodupx [Hfromx _]]]].
    assert (Hnodup2 : List.NoDup (map normalizeUrl (emitted ++ own ++ expansion))).
    { rewrite app_assoc, map_app. apply NoDup_append; [exact Hnodup1|exact Hnodupx|].
      intros key Hkeyx. apply in_map_iff in Hkeyx. destruct Hkeyx as [x [<- Hx]].
      apply (Hfromx x Hx). }
    destruct (IH Hnodup2) as [Hnodup3 [Hall Hfrom]].
    cbn [concat]. rewrite <- app_assoc in Hnodup3, Hall.
    split; [exact Hnodup3|]. split.
    + intros x [<-|Hx]; [|apply Hall, Hx].
      apply in_map_iff in Hkey. destruct Hkey as [y [Hy Hin]]. rewrite <- Hy.
      apply in_map. apply in_app_iff in Hin. rewrite !in_app_iff. tauto.
    + intros x Hx.
      apply in_app_iff in Hx. destruct Hx as [Hx|Hx]; [apply in_app_iff in Hx|].
      * destruct Hx as [Hx|Hx]; [left; left; symmetry; apply Hblock, Hx|].
        right. exists link. split; [left; reflexivity|]. split; [exact Hbook|].
        apply (Hfromx x Hx).
      * destruct (Hfrom x Hx) as [Hin|[l [Hl Hrest']]]; [left; right; exact Hin|].
        right. exists l. split; [right; exact Hl|exact Hrest'].
Qed.

(** X16: the expansion returns a list in which no two links share a
    normalised form, in which every source link is represented by a link
    of the same normalised form, and whose links are source links or links
    discovered on the page of a source link that belongs to a configured
    JupyterBook. *)
Theorem expansion_keeps_every_source_link_once (sourceLinks : list string) :
  exists expanded,
    expandJupyterBookLinks localeCompare fetchHrefs resolve sourceLinks jupyterbookURLs
    = Some expanded
    /\ List.NoDup (map normalizeUrl expanded)
    /\ (forall link, In link sourceLinks ->
                     In (normalizeUrl link) (map normalizeUrl expanded))
    /\ (forall x, In x expanded ->
                  In x sourceLinks
                  \/ exists link,
                      In link sourceLinks
                      /\ isJupyterBookLink jupyterbookURLs link = true
                      /\ In x (linksFor localeCompare fetchHrefs resolve
                                        jupyterbookURLs link)).
Proof.
  unfold expandJupyterBookLinks.
  destruct (walk_blocks localeCompare fetchHrefs resolve jupyterbookURLs
                        localeCompare_total localeCompare_trans sourceLinks []
                        {| result := []; seenUrls := ∅; jupyterBookIndex := 0 |})
    as [w' [blocks [Hwalk [Hresult Hblocks]]]].
  - reflexivity.
  - intros key. simpl. rewrite elem_of_empty. tauto.
  - simpl in Hwalk. rewrite Hwalk. cbn [mbind option_bind].
    exists (result w'). split; [reflexivity|]. simpl in Hresult. rewrite Hresult.
    apply (interleaved_facts [] sourceLinks blocks Hblocks). constructor.
Qed.

End MoreWalkFacts.

Section MoreWalkExamples.

#[local] Existing Instance sampleUrlApi.

Lemma expansion_without_book_links_witness :
  expandJupyterBookLinks sampleLocaleCompare sampleFetchHrefs sampleResolve
                         ["https://x.org/notes"; samplePage; "https://x.org/notes/#top"] []
  = Some ["https://x.org/notes"; samplePage].
Proof.
  apply (proj1 (expansion_without_book_links
                  sampleLocaleCompare sampleFetchHrefs sampleResolve []
                  ["https://x.org/notes"; samplePage; "https://x.org/notes/#top"]
                  ltac:(repeat constructor))).
Defined.

Lemma expansion_keeps_every_source_link_once_witness :
  exists expanded,
    expandJupyterBookLinks sampleLocaleCompare sampleFetchHrefs sampleResolve
                           ["https://x.org/notes"; samplePage; "https://x.org/notes/"]
                           ["b.com"]
    = Some expanded
    /\ List.NoDup (map normalizeUrl expanded).
Proof.
  destruct (expansion_keeps_every_source_link_once
              sampleLocaleCompare sampleFetchHrefs sampleResolve ["b.com"]
              sampleLocaleCompare_total sampleLocaleCompare_trans
              ["https://x.org/notes"; samplePage; "https://x.org/notes/"])
    as [expanded [Hexpanded [Hnodup _]]].
  exists expanded. split; assumption.
Defined.

End MoreWalkExamples.

(** ** Links of the notebook *)

Lemma unique_complete (seen : gset string) (links : list string) (x : string) :
  In x links -> x ∉ seen -> In x (unique seen links).
Proof.
  revert seen. induction links as [|link rest IH]; intros seen Hx Hout; [contradiction|].
  simpl. destruct (bool_decide (link ∈ seen)) eqn:Hin.
  - apply bool_decide_eq_true in Hin. destruct Hx as [->|Hx]; [contradiction|].
    apply IH; assumption.
  - destruct (string_dec link x) as [->|Hne]; [left; reflexivity|].
    right. destruct Hx as [Hx|Hx]; [contradiction|]. apply IH; [exact Hx|].
    intros Hseen. apply elem_of_union in Hseen. destruct Hseen as [Hone|Hseen];
      [apply elem_of_singleton in Hone; congruence|contradiction].
Qed.

Lemma add_unique (links acc : list string) (seen : gset string) :
  (forall y, y ∈ seen <-> In y acc) ->
  fold_left Chat.add links acc = acc ++ unique seen links.
Proof.
  revert acc seen. induction links as [|link rest IH]; intros acc seen Hseen.
  - simpl. rewrite app_nil_r. reflexivity.
  - cbn [fold_left unique]. unfold Chat.add at 2.
    destruct (existsb (String.eqb link) acc) eqn:Hfound.
    + assert (Hin : link ∈ seen).
      { apply Hseen. apply existsb_exists in Hfound. destruct Hfound as [y [Hy Heq]].
        apply String.eqb_eq in Heq. subst y. exact Hy. }
      rewrite (bool_decide_eq_true_2 _ Hin). apply IH, Hseen.
    + assert (Hout : link ∉ seen).
      { intros Hin. apply Hseen in Hin.
        assert (Htrue : existsb (String.eqb link) acc = true).
        { apply existsb_exists. exists link. split; [exact Hin|apply String.eqb_refl]. }
        rewrite Htrue in Hfound. discriminate Hfound. }
      rewrite (bool_decide_eq_false_2 _ Hout).
      rewrite (IH (acc ++ [link]) ({[ link ]} ∪ seen)).
      * rewrite <- app_assoc. reflexivity.
      * intros y. rewrite elem_of_union, elem_of_singleton, in_app_iff, Hseen. simpl.
        intuition.
Qed.

Lemma uniqueLinks_unique (notebook : list Chat.ParsedCell) :
  Chat.uniqueLinks notebook = unique ∅ (concat (map Chat.links notebook)).
Proof.
  unfold Chat.uniqueLinks.
  assert (Hfold : forall acc,
             fold_left (fun allLinks cell =>
                          if (0 <? List.length (Chat.links cell))%nat
                          then fold_left Chat.add (Chat.links cell) allLinks
                          else allLinks) notebook acc
             = fold_left Chat.add (concat (map Chat.links notebook)) acc).
  { induction notebook as [|cell rest IH]; intros acc; [reflexivity|].
    cbn [fold_left map concat]. rewrite fold_left_app, IH. f_equal.
    destruct (Chat.links cell); reflexivity. }
  rewrite Hfold. apply (add_unique _ [] ∅).
  intros y. rewrite elem_of_empty. simpl. tauto.
Qed.

Lemma uniqueLinks_distinct (notebook : list Chat.ParsedCell) :
  List.NoDup (Chat.uniqueLinks notebook)
  /\ (forall link,
        In link (Chat.uniqueLinks notebook)
        <-> exists cell, In cell notebook /\ In link (Chat.links cell)).
Proof.
  rewrite uniqueLinks_unique. split; [apply unique_NoDup|].
  intros link. split.
  - intros H. apply (unique_In (fun _ => None) (fun _ _ => None)) in H.
    apply in_concat in H. destruct H as [l [Hl Hlink]].
    apply in_map_iff in Hl. destruct Hl as [cell [<- Hcell]].
    exists cell. split; assumption.
  - intros [cell [Hcell Hlink]]. apply unique_complete; [|apply not_elem_of_empty].
    apply in_concat. exists (Chat.links cell). split; [|exact Hlink].
    apply in_map, Hcell.
Qed.

Lemma unique_firstOccurrences (seen links : list string) :
  unique (list_to_set seen) links = firstOccurrences seen links.
Proof.
  revert seen. induction links as [|link rest IH]; intros seen; [reflexivity|].
  cbn [unique firstOccurrences].
  destruct (decide (link ∈ seen)) as [Hin|Hout].
  - rewrite bool_decide_eq_true_2; [apply IH|]. apply elem_of_list_to_set, Hin.
  - rewrite bool_decide_eq_false_2; [|rewrite elem_of_list_to_set; exact Hout].
    f_equal. apply (IH (link :: seen)).
Qed.

(** X18: the source links handed to the retriever are the links of the
    notebook's cells, each once, in the order of their first occurrence:
    they are the first occurrences in the links of the cells put end to
    end, and a further cell adds, after the links so far, the first
    occurrences of those of its links that are new, in their order. *)
Theorem notebook_links_are_collected_once (notebook : list Chat.ParsedCell) :
  List.NoDup (Chat.uniqueLinks notebook)
  /\ (forall link,
        In link (Chat.uniqueLinks notebook)
        <-> exists cell, In cell notebook /\ In link (Chat.links cell))
  /\ Chat.uniqueLinks notebook = firstOccurrences [] (concat (map Chat.links notebook))
  /\ (forall cell,
        Chat.uniqueLinks (notebook ++ [cell])
        = Chat.uniqueLinks notebook
          ++ firstOccurrences (Chat.uniqueLinks notebook) (Chat.links cell))
  /\ (forall cell,
        exists fresh,
          Chat.uniqueLinks (notebook ++ [cell]) = Chat.uniqueLinks notebook ++ fresh
          /\ forall link, In link fresh
                          <-> In link (Chat.links cell)
                              /\ ~ In link (Chat.uniqueLinks notebook)).
Proof.
  destruct (uniqueLinks_distinct notebook) as [Hnodup Hin].
  split; [exact Hnodup|]. split; [exact Hin|].
  split; [rewrite uniqueLinks_unique; apply (unique_firstOccurrences [])|].
  assert (Hseen : forall y, y ∈ (list_to_set (Chat.uniqueLinks notebook) : gset string)
                            <-> In y (Chat.uniqueLinks notebook)).
  { intros y. rewrite elem_of_list_to_set, list_elem_of_In. reflexivity. }
  assert (Hmore : forall cell,
             Chat.uniqueLinks (notebook ++ [cell])
             = Chat.uniqueLinks notebook
               ++ unique (list_to_set (Chat.uniqueLinks notebook)) (Chat.links cell)).
  { intros cell. unfold Chat.uniqueLinks at 1. rewrite fold_left_app. cbn [fold_left].
    fold (Chat.uniqueLinks notebook).
    rewrite <- (add_unique (Chat.links cell) (Chat.uniqueLinks notebook) _ Hseen).
    destruct (Chat.links cell); reflexivity. }
  split.
  - intros cell. rewrite (Hmore cell), unique_firstOccurrences. reflexivity.
  - intros cell.
    exists (unique (list_to_set (Chat.uniqueLinks notebook)) (Chat.links cell)).
    split; [apply Hmore|].
    intros link. rewrite <- Hseen. split.
    + intros H. split; [apply (unique_In (fun _ => None) (fun _ _ => None)) in H; exact H|].
      apply (proj2 (unique_NoDup _ _) link H).
    + intros [Hlink Hout]. apply unique_complete; assumption.
Qed.

(** A notebook of three cells: the link the second cell repeats comes
    once, at its first place. *)
Example notebook_links_in_order :
  Chat.uniqueLinks
    [sampleParsedCell markdown [] ["https://a.org/1"; "https://b.org/2"];
     sampleParsedCell code [] ["https://b.org/2"; "https://c.org/3"; "https://c.org/3"];
     sampleParsedCell markdown [] ["https://a.org/1"; "https://d.org/4"]]
  = ["https://a.org/1"; "https://b.org/2"; "https://c.org/3"; "https://d.org/4"].
Proof. reflexivity. Qed.

Section MoreNotebookFacts.

Context `{api : UrlApi}.
Variable localeCompare : string -> string -> Z.
Variable fetchHrefs : string -> option (list string).
Variable resolve : string -> string -> option string.
Variable fetchText : string -> option string.

(** X19: without link expansion, the links an instance built from a
    notebook stores are, in every state it reaches, distinct links of the
    notebook's cells that pass the whitelist and the blacklist of the
    configuration. *)
Theorem stored_links_come_from_the_notebook
        (notebook : list Chat.ParsedCell) (pluginConfig : Chat.PluginConfig)
        (r : Retriever) :
  Chat.jupyterbook_linkExpansion (Chat.remoteContextGathering pluginConfig) = false ->
  steps localeCompare fetchHrefs resolve fetchText
        (Chat.parseContextFromNotebook notebook pluginConfig) r ->
  List.NoDup (_sourceLinks r)
  /\ forall link,
       In link (_sourceLinks r) ->
       (exists cell, In cell notebook /\ In link (Chat.links cell))
       /\ survives (default [] (Chat.whitelist (Chat.remoteContextGathering pluginConfig)))
                   (Chat.blacklist (Chat.remoteContextGathering pluginConfig)) link
          = true.
Proof.
  intros Hexpansion Hsteps. unfold Chat.parseContextFromNotebook in Hsteps.
  unfold Retrieval.constructor in Hsteps. cbn [debug attemptJupyterbookLinkExpansion] in Hsteps.
  rewrite Hexpansion in Hsteps.
  match type of Hsteps with
  | steps _ _ _ _ ?r0 _ =>
      assert (Hs : scrapingStarted r0) by apply scrapeSourceLinksStart_started;
      destruct (steps_keep_links localeCompare fetchHrefs resolve fetchText r0 r Hs Hsteps)
        as [_ Hkept]
  end.
  rewrite Hkept. cbn [loaded _sourceLinks]. rewrite scrapeSourceLinksStart_links.
  cbn [_sourceLinks _whitelistedURLs _blacklistedURLs sourceLinks whitelistedURLs
         blacklistedURLs].
  destruct (uniqueLinks_distinct notebook) as [Hnodup Hin].
  split; [apply List.NoDup_filter, Hnodup|].
  intros link Hlink. apply List.filter_In in Hlink. destruct Hlink as [Hlink Hsurvives].
  split; [apply Hin, Hlink|exact Hsurvives].
Qed.

End MoreNotebookFacts.

Section MoreNotebookExamples.

#[local] Existing Instance sampleUrlApi.

Lemma stored_links_come_from_the_notebook_witness :
  let notebook :=
    [sampleParsedCell markdown []
                      ["https://www.data8.org/fa24/";
                       "https://inferentialthinking.com/chapters/13/Estimation.html"];
     sampleParsedCell code []
                      ["https://inferentialthinking.com/chapters/13/Estimation.html"]] in
  List.NoDup (_sourceLinks (timerFires (Chat.parseContextFromNotebook notebook
                                                                      samplePluginConfig))).
Proof.
  intros notebook.
  apply (stored_links_come_from_the_notebook
           sampleLocaleCompare sampleFetchHrefs sampleResolve sampleFetchText
           notebook samplePluginConfig
           (timerFires (Chat.parseContextFromNotebook notebook samplePluginConfig))
           eq_refl).
  eapply steps_step; [apply step_timer|apply steps_refl].
Defined.

End MoreNotebookExamples.

(** ** Images sent with a request *)

Lemma slice_prefix {A : Type} (items : list A) (finish : Z) :
  exists n, Chat.slice items 0 finish = firstn n items
            /\ ((0 <= finish)%Z -> (n <= Z.to_nat finish)%nat).
Proof.
  unfold Chat.slice. cbn [Z.ltb Z.compare].
  assert (Hfrom : Z.min 0 (Z.of_nat (List.length items)) = 0%Z) by lia.
  rewrite Hfrom. cbn [Z.to_nat skipn]. eexists. split; [reflexivity|].
  intros Hpos. destruct (finish <? 0)%Z eqn:Hneg; [apply Z.ltb_lt in Hneg; lia|]. lia.
Qed.

Lemma firstn_In {A : Type} (n : nat) (items : list A) (x : A) :
  In x (firstn n items) -> In x items.
Proof.
  revert n. induction items as [|item rest IH]; intros [|n]; simpl; try tauto.
  intros [H|H]; [left; exact H|right; apply (IH n H)].
Qed.

Lemma gatherImagesLoop_from (cells : list Chat.ParsedCell) (count : nat) :
  forall (i : Z) (images out : list string),
    Chat.gatherImagesLoop cells i count images = Some out ->
    forall image,
      In image out ->
      In image images
      \/ exists j cell,
          (i - Z.of_nat count < j <= i)%Z
          /\ Chat.cellAt cells j = Some cell
          /\ In image (Chat.imageSources cell)
          /\ forall k, (j < k <= i)%Z -> ~ stopsAt cells k.
Proof.
  induction count as [|count IH]; intros i images out Hloop image Hin.
  - inversion Hloop. subst. left. exact Hin.
  - cbn [Chat.gatherImagesLoop] in Hloop.
    destruct (Chat.cellAt cells i) as [cell|] eqn:Hcell; [|discriminate Hloop].
    cbn [mbind option_bind] in Hloop.
    assert (Hhere : In image (Chat.imageSources cell) ->
                    exists j c,
                      (i - Z.of_nat (S count) < j <= i)%Z
                      /\ Chat.cellAt cells j = Some c
                      /\ In image (Chat.imageSources c)
                      /\ forall k, (j < k <= i)%Z -> ~ stopsAt cells k).
    { intros Himage. exists i, cell. repeat split; try assumption; try lia. }
    destruct (Chat.hasImages cell) eqn:Himages; destruct (Chat.isCode cell) eqn:Hcode;
      cbn [andb negb] in Hloop.
    + destruct (IH _ _ _ Hloop image Hin) as [Hold|[j [c [Hj [Hc [Himage Hpass]]]]]].
      * apply in_app_iff in Hold. destruct Hold as [Hold|Hnew]; [left; exact Hold|].
        right. apply Hhere, Hnew.
      * right. exists j, c. repeat split; try assumption; try lia.
        intros k Hk [c' [Hc' [Hhas Hstop]]].
        destruct (Z.eq_dec k i) as [->|Hne].
        -- rewrite Hcell in Hc'. inversion Hc'. subst c'. congruence.
        -- apply (Hpass k); [lia|]. exists c'. repeat split; assumption.
    + inversion Hloop. subst out.
      apply in_app_iff in Hin. destruct Hin as [Hold|Hnew]; [left; exact Hold|].
      right. apply Hhere, Hnew.
    + destruct (IH _ _ _ Hloop image Hin) as [Hold|[j [c [Hj [Hc [Himage Hpass]]]]]];
        [left; exact Hold|].
      right. exists j, c. repeat split; try assumption; try lia.
      intros k Hk [c' [Hc' [Hhas Hstop]]].
      destruct (Z.eq_dec k i) as [->|Hne].
      * rewrite Hcell in Hc'. inversion Hc'. subst c'. congruence.
      * apply (Hpass k); [lia|]. exists c'. repeat split; assumption.
    + destruct (IH _ _ _ Hloop image Hin) as [Hold|[j [c [Hj [Hc [Himage Hpass]]]]]];
        [left; exact Hold|].
      right. exists j, c. repeat split; try assumption; try lia.
      intros k Hk [c' [Hc' [Hhas Hstop]]].
      destruct (Z.eq_dec k i) as [->|Hne].
      * rewrite Hcell in Hc'. inversion Hc'. subst c'. congruence.
      * apply (Hpass k); [lia|]. exists c'. repeat split; assumption.
Qed.

Lemma cellAt_defined (cells : list Chat.ParsedCell) (i : Z) :
  Chat.cellAt cells i = None <-> (i < 0 \/ Z.of_nat (List.length cells) <= i)%Z.
Proof.
  unfold Chat.cellAt. destruct (i <? 0)%Z eqn:Hneg.
  - apply Z.ltb_lt in Hneg. split; [left; exact Hneg|reflexivity].
  - apply Z.ltb_ge in Hneg. rewrite nth_error_None. lia.
Qed.

Lemma gatherImagesLoop_throws (cells : list Chat.ParsedCell) (count : nat) :
  forall (i : Z) (images : list string),
    (0 <= i - Z.of_nat count)%Z ->
    Chat.gatherImagesLoop cells i count images = None
    <-> (0 < count)%nat /\ (Z.of_nat (List.length cells) <= i)%Z.
Proof.
  induction count as [|count IH]; intros i images Hlow.
  - simpl. split; [discriminate|lia].
  - cbn [Chat.gatherImagesLoop].
    destruct (Chat.cellAt cells i) as [cell|] eqn:Hcell.
    + cbn [mbind option_bind].
      assert (Hin : (i < Z.of_nat (List.length cells))%Z).
      { destruct (Z.lt_ge_cases i (Z.of_nat (List.length cells))) as [H|H]; [exact H|].
        assert (Hnone : Chat.cellAt cells i = None) by (apply cellAt_defined; right; exact H).
        rewrite Hnone in Hcell. discriminate Hcell. }
      destruct (Chat.hasImages cell && negb (Chat.isCode cell)).
      * split; [discriminate|lia].
      * rewrite IH by lia. lia.
    + cbn [mbind option_bind]. apply cellAt_defined in Hcell.
      split; [|reflexivity]. intros _. lia.
Qed.

(** X20: every image gathered for a request comes from a cell in the
    window above [relativeTo - maxGoBack] and up to [relativeTo], never
    from the first cell of the notebook, and from no cell that lies before
    a cell of the window that holds images and is no code cell; when
    [maxImages] is not negative, at most [maxImages] images are
    returned. *)
Theorem images_come_from_the_window
        (cells : list Chat.ParsedCell) (relativeTo maxGoBack maxImages : Z)
        (images : list string) :
  Chat.gatherImagesFromCells cells relativeTo maxGoBack maxImages = Some images ->
  ((0 <= maxImages)%Z -> (List.length images <= Z.to_nat maxImages)%nat)
  /\ forall image,
       In image images ->
       exists index cell,
         (0 < index)%Z /\ (relativeTo - maxGoBack < index <= relativeTo)%Z
         /\ Chat.cellAt cells index = Some cell
         /\ In image (Chat.imageSources cell)
         /\ forall later, (index < later <= relativeTo)%Z -> ~ stopsAt cells later.
Proof.
  unfold Chat.gatherImagesFromCells. intros Hgather.
  destruct (Chat.gatherImagesLoop cells relativeTo _ []) as [all|] eqn:Hloop;
    [|discriminate Hgather].
  cbn [mbind option_bind] in Hgather. inversion Hgather as [Himages]. clear Hgather.
  destruct (slice_prefix all maxImages) as [n [Hslice Hbound]]. rewrite Hslice. split.
  - intros Hpos. specialize (Hbound Hpos). pose proof (firstn_le_length n all). lia.
  - intros image Hin. apply firstn_In in Hin.
    destruct (gatherImagesLoop_from _ _ _ _ _ Hloop image Hin)
      as [[]|[j [cell [Hj [Hcell [Himage Hpass]]]]]].
    exists j, cell. repeat split; try assumption; lia.
Qed.

(** X21: gathering the images throws exactly when [relativeTo] lies past
    the last cell and the loop is entered, that is when [relativeTo] and
    [maxGoBack] are positive; for an index inside the notebook, and for
    an index of 0 or below, it returns. *)
Theorem gathering_images_throws_past_the_end
        (cells : list Chat.ParsedCell) (relativeTo maxGoBack maxImages : Z) :
  Chat.gatherImagesFromCells cells relativeTo maxGoBack maxImages = None
  <-> (0 < relativeTo /\ 0 < maxGoBack
       /\ Z.of_nat (List.length cells) <= relativeTo)%Z.
Proof.
  unfold Chat.gatherImagesFromCells.
  set (count := Z.to_nat (relativeTo - Z.max 0 (relativeTo - maxGoBack))).
  destruct (Chat.gatherImagesLoop cells relativeTo count []) as [all|] eqn:Hloop.
  - cbn [mbind option_bind]. split; [discriminate|]. intros [Hrel [Hback Hlen]].
    exfalso.
    assert (Hnone : Chat.gatherImagesLoop cells relativeTo count [] = None).
    { apply gatherImagesLoop_throws; unfold count; lia. }
    rewrite Hnone in Hloop. discriminate Hloop.
  - cbn [mbind option_bind]. split; [|reflexivity]. intros _.
    destruct (Nat.eq_dec count 0) as [Hzero|Hpos].
    + rewrite Hzero in Hloop. discriminate Hloop.
    + apply gatherImagesLoop_throws in Hloop; unfold count in *; lia.
Qed.

Lemma images_come_from_the_window_witness :
  let cells := [sampleParsedCell markdown ["first.png"] [];
                sampleParsedCell markdown ["plot.png"] [];
                sampleParsedCell code ["a.png"; "b.png"] []] in
  exists index cell,
    (0 < index)%Z /\ (2 - 10 < index <= 2)%Z
    /\ Chat.cellAt cells index = Some cell
    /\ In "plot.png" (Chat.imageSources cell)
    /\ forall later, (index < later <= 2)%Z -> ~ stopsAt cells later.
Proof.
  intros cells.
  apply (proj2 (images_come_from_the_window cells 2 10 5 ["a.png"; "b.png"; "plot.png"]
                                            eq_refl)
               "plot.png").
  right. right. left. reflexivity.
Defined.

(** A negative [maxImages] is read by [slice] from the end of the list: it
    drops that many of the last images, and what is left can be more than
    none. *)
Example images_with_negative_maxImages :
  Chat.gatherImagesFromCells [sampleParsedCell markdown ["first.png"] [];
                              sampleParsedCell markdown ["plot.png"] [];
                              sampleParsedCell code ["a.png"; "b.png"] []] 2 10 (-1)
  = Some ["a.png"; "b.png"].
Proof. reflexivity. Qed.

Lemma gathering_images_throws_past_the_end_witness :
  Chat.gatherImagesFromCells [sampleParsedCell code ["a.png"] []] 1 10 5 = None.
Proof.
  apply (gathering_images_throws_past_the_end [sampleParsedCell code ["a.png"] []] 1 10 5).
  simpl. lia.
Defined.

(** ** The notebook part of the chat context *)

Lemma findIndex_position {A : Type} (items : list A) (active : nat) :
  forall start,
    Chat.findIndex (fun object : nat * A => Nat.eqb (fst object) active)
                   (combine (seq start (List.length items)) items)
    = if (start <=? active)%nat && (active <? start + List.length items)%nat
      then Z.of_nat (active - start) else (-1)%Z.
Proof.
  induction items as [|item rest IH]; intros start;
    cbn [List.length seq combine Chat.findIndex fst].
  - destruct (Nat.leb_spec start active); destruct (Nat.ltb_spec active (start + 0));
      cbn [andb]; try reflexivity; lia.
  - destruct (Nat.eqb_spec start active) as [->|Hne]; [|rewrite IH];
      repeat (match goal with
              | |- context [(?a <=? ?b)%nat] => destruct (Nat.leb_spec a b)
              | |- context [(?a <? ?b)%nat] => destruct (Nat.ltb_spec a b)
              | |- context [(?a <? ?b)%Z] => destruct (Z.ltb_spec a b)
              end; cbn [andb]);
      try reflexivity; lia.
Qed.

Lemma findIndex_never {A : Type} (items : list A) :
  Chat.findIndex (fun _ : A => false) items = (-1)%Z.
Proof. induction items as [|item rest IH]; [reflexivity|]. simpl. rewrite IH. reflexivity. Qed.

Lemma filter_everything {A : Type} (test : A -> bool) (items : list A) :
  (forall item, test item = true) -> List.filter test items = items.
Proof.
  intros Htest. induction items as [|item rest IH]; [reflexivity|].
  simpl. rewrite Htest, IH. reflexivity.
Qed.

Lemma combine_positions {A : Type} (items : list A) :
  forall start, map snd (combine (seq start (List.length items)) items) = items.
Proof.
  induction items as [|item rest IH]; intros start; [reflexivity|].
  simpl. rewrite IH. reflexivity.
Qed.

Lemma nth_error_positions {A : Type} (items : list A) (n : nat) :
  forall start,
    nth_error (combine (seq start (List.length items)) items) n
    = (fun item => (start + n, item)%nat) <$> nth_error items n.
Proof.
  revert n. induction items as [|item rest IH]; intros n start.
  - destruct n; reflexivity.
  - destruct n as [|n]; cbn [List.length seq combine nth_error].
    + simpl. rewrite Nat.add_0_r. reflexivity.
    + rewrite IH. destruct (nth_error rest n); [|reflexivity].
      simpl. f_equal. f_equal. lia.
Qed.

Lemma mapM_defined {A B : Type} (f : A -> B) (items : list A) :
  mapM (fun item : option A => f <$> item) (Some <$> items) = Some (map f items).
Proof.
  induction items as [|item rest IH]; [reflexivity|].
  cbn [fmap list_fmap mapM]. cbn [fmap list_fmap] in IH. rewrite IH. reflexivity.
Qed.

Lemma slice_from_start {A : Type} (items : list A) (finish : Z) :
  (0 <= finish)%Z -> Chat.slice items 0 finish = firstn (Z.to_nat finish) items.
Proof.
  intros Hpos. unfold Chat.slice. cbn [Z.ltb Z.compare].
  replace (Z.min 0 (Z.of_nat (List.length items))) with 0%Z by lia.
  cbn [Z.to_nat skipn].
  destruct (Z.ltb_spec finish 0); [lia|].
  destruct (Z.le_gt_cases finish (Z.of_nat (List.length items))) as [Hle|Hgt].
  - f_equal. lia.
  - rewrite (firstn_all2 (n := Z.to_nat finish)) by lia.
    replace (Z.to_nat (Z.min finish (Z.of_nat (List.length items)) - 0))
      with (List.length items) by lia.
    apply firstn_all.
Qed.

Section MoreChatFacts.

Variable STARTING_TEXTBOOK_CONTEXT : string.


End MoreChatFacts.

(** ** The store *)

Lemma get_own_name {A : Type} (object : gmap string A) (key : string) :
  Store.inherited key = false ->
  Store.get object key = match object !! key with
                         | Some value => Store.Own value
                         | None => Store.Undefined
                         end.
Proof. intros Hkey. unfold Store.get. rewrite Hkey. reflexivity. Qed.

Lemma get_inserted {A : Type} (object : gmap string A) (key : string) (value : A) :
  Store.get (<[ key := value ]> object) key = Store.Own value.
Proof. unfold Store.get. rewrite lookup_insert_eq. reflexivity. Qed.

Lemma get_elsewhere {A : Type} (object : gmap string A) (key other : string) (value : A) :
  other <> key ->
  Store.get (<[ key := value ]> object) other = Store.get object other.
Proof. intros Hother. unfold Store.get. rewrite lookup_insert_ne by congruence. reflexivity. Qed.

Lemma cellData_written (state : Store.JupytutorReactState) (notebookPath cellId : string)
      (write : Store.WidgetState -> Store.WidgetState) :
  Store.inherited notebookPath = false -> Store.inherited cellId = false ->
  let notebook :=
    default {| Store.widgetStateByCellId := ∅; Store.notebookConfig := None;
               Store.parsedCells := []; Store.globalNotebookContextRetriever := None |}
            (Store.notebookStateByPath state !! notebookPath) in
  let widget := default Store.DEFAULT_WIDGET_STATE
                        (Store.widgetStateByCellId notebook !! cellId) in
  Store.useWidgetState state notebookPath cellId = Some (Store.Own widget)
  /\ Store.cellData state notebookPath cellId write
     = Some (Store.withNotebooks
               state
               (<[ notebookPath :=
                     Store.withWidgets
                       notebook
                       (<[ cellId := write widget ]> (Store.widgetStateByCellId notebook)) ]>
                  (Store.notebookStateByPath state)),
             Store.InStore).
Proof.
  intros Hpath Hcell. cbv zeta.
  unfold Store.useWidgetState, Store.selectWidgetState, Store.cellData,
    Store.ensureDraftHasNotebookCell, Store.ensureDraftHasNotebook.
  rewrite (get_own_name _ notebookPath Hpath).
  destruct (Store.notebookStateByPath state !! notebookPath) as [notebook|] eqn:Hnotebook.
  - rewrite (get_own_name _ notebookPath Hpath), Hnotebook.
    rewrite (get_own_name _ cellId Hcell). simpl default.
    destruct (Store.widgetStateByCellId notebook !! cellId) as [widget|] eqn:Hwidget.
    + simpl. split; [reflexivity|].
      rewrite (get_own_name _ notebookPath Hpath), Hnotebook.
      rewrite (get_own_name _ cellId Hcell), Hwidget. reflexivity.
    + simpl. split; [reflexivity|].
      rewrite get_inserted. cbn [Store.withWidgets Store.widgetStateByCellId].
      rewrite get_inserted.
      unfold Store.withNotebooks, Store.withWidgets. simpl.
      rewrite !insert_insert_eq. reflexivity.
  - simpl. rewrite lookup_empty. simpl. split; [reflexivity|].
    rewrite get_inserted. simpl.
    rewrite (get_own_name _ cellId Hcell), lookup_empty. simpl.
    rewrite get_inserted. simpl.
    rewrite get_inserted.
    unfold Store.withNotebooks, Store.withWidgets. simpl.
    rewrite !insert_insert_eq. reflexivity.
Qed.

Lemma cellData_read (state : Store.JupytutorReactState) (notebookPath cellId : string)
      (write : Store.WidgetState -> Store.WidgetState) :
  Store.inherited notebookPath = false -> Store.inherited cellId = false ->
  exists widget after,
    Store.useWidgetState state notebookPath cellId = Some (Store.Own widget)
    /\ Store.cellData state notebookPath cellId write = Some (after, Store.InStore)
    /\ Store.useWidgetState after notebookPath cellId = Some (Store.Own (write widget))
    /\ Store.useCellConfig after notebookPath cellId
       = Some (Store.Own (Store.cellConfig (write widget)))
    /\ sameElsewhere state after notebookPath cellId.
Proof.
  intros Hpath Hcell.
  destruct (cellData_written state notebookPath cellId write Hpath Hcell) as [Hread Hwritten].
  eexists. eexists. split; [exact Hread|]. split; [exact Hwritten|].
  unfold Store.useWidgetState, Store.useCellConfig, Store.selectWidgetState, sameElsewhere.
  cbn [Store.withNotebooks Store.notebookStateByPath Store.userId
         Store.jupyterhubHostname Store.patchKeyCommand750].
  rewrite !get_inserted. cbn [mbind option_bind Store.withWidgets Store.widgetStateByCellId].
  rewrite !get_inserted.
  split; [reflexivity|]. split; [reflexivity|].
  split; [|split; [|repeat split]].
  - intros path id Hother Hid. unfold Store.useWidgetState, Store.selectWidgetState.
    cbn [Store.withNotebooks Store.notebookStateByPath].
    destruct (string_dec path notebookPath) as [->|Hne].
    + rewrite get_inserted. cbn [mbind option_bind Store.withWidgets
                                   Store.widgetStateByCellId].
      rewrite get_elsewhere by congruence.
      rewrite (get_own_name _ notebookPath Hpath).
      destruct (Store.notebookStateByPath state !! notebookPath); [reflexivity|].
      cbn [default mbind option_bind Store.widgetStateByCellId].
      rewrite (get_own_name _ id Hid), lookup_empty. reflexivity.
    + rewrite get_elsewhere by congruence. reflexivity.
  - intros path. cbn [Store.withNotebooks Store.notebookStateByPath].
    destruct (string_dec path notebookPath) as [->|Hne].
    + rewrite lookup_insert_eq.
      destruct (Store.notebookStateByPath state !! notebookPath); repeat split.
    + rewrite lookup_insert_ne by congruence. repeat split.
Qed.

Lemma cellData_under_member_path (state : Store.JupytutorReactState)
      (notebookPath cellId : string) (write : Store.WidgetState -> Store.WidgetState) :
  Store.get (Store.notebookStateByPath state) notebookPath = Store.Member ->
  Store.cellData state notebookPath cellId write = None.
Proof.
  intros Hmember. unfold Store.cellData, Store.ensureDraftHasNotebookCell,
                    Store.ensureDraftHasNotebook.
  rewrite Hmember, Hmember. reflexivity.
Qed.

Lemma cellData_under_member_cell (state : Store.JupytutorReactState)
      (notebookPath cellId : string) (write : Store.WidgetState -> Store.WidgetState) :
  Store.inherited cellId = true ->
  Store.get (Store.notebookStateByPath state) notebookPath <> Store.Member ->
  (forall notebook, Store.notebookStateByPath state !! notebookPath = Some notebook ->
                    Store.widgetStateByCellId notebook !! cellId = None) ->
  Store.cellData state notebookPath cellId write
  = Some (Store.ensureDraftHasNotebook state notebookPath, Store.OnMember cellId).
Proof.
  intros Hcell Hpath Hfree.
  assert (Hensured : exists notebook,
             Store.get (Store.notebookStateByPath
                          (Store.ensureDraftHasNotebook state notebookPath)) notebookPath
             = Store.Own notebook
             /\ Store.get (Store.widgetStateByCellId notebook) cellId = Store.Member).
  { unfold Store.ensureDraftHasNotebook, Store.get in *.
    destruct (Store.notebookStateByPath state !! notebookPath) as [notebook|] eqn:Hnotebook.
    - exists notebook. rewrite Hnotebook, (Hfree notebook eq_refl), Hcell.
      split; reflexivity.
    - destruct (Store.inherited notebookPath); [contradiction Hpath; reflexivity|].
      eexists. simpl. rewrite lookup_insert_eq. split; [reflexivity|].
      simpl. rewrite lookup_empty, Hcell. reflexivity. }
  destruct Hensured as [notebook [Hnotebook Hwidget]].
  unfold Store.cellData, Store.ensureDraftHasNotebookCell.
  rewrite Hnotebook, Hwidget. cbn [mbind option_bind].
  rewrite Hnotebook, Hwidget. reflexivity.
Qed.

(** X23: for a notebook path and a cell id that are no names of members of
    [Object.prototype], each of the four setters of a cell's state
    returns, and changes the one field it names of the state that cell is
    read with, a cell without a state being read with the default state;
    the state every other cell is read with, the configuration, the parsed
    cells and the retriever of every notebook, and the fields outside the
    notebooks are as they were.  Under a path that finds a member of
    [Object.prototype] each setter throws; under a cell id that finds one
    it returns with the field set on that member, the store holding the
    notebook and no state for the cell. *)
Theorem cell_setters_write_one_field
        (state : Store.JupytutorReactState) (notebookPath cellId : string)
        (call : CellWrite) :
  (Store.inherited notebookPath = false -> Store.inherited cellId = false ->
   exists widget after,
     Store.useWidgetState state notebookPath cellId = Some (Store.Own widget)
     /\ callSetter call notebookPath cellId state = Some (after, Store.InStore)
     /\ Store.useWidgetState after notebookPath cellId
        = Some (Store.Own (withField call widget))
     /\ Store.useCellConfig after notebookPath cellId
        = Some (Store.Own (Store.cellConfig (withField call widget)))
     /\ sameElsewhere state after notebookPath cellId)
  /\ (Store.get (Store.notebookStateByPath state) notebookPath = Store.Member ->
      callSetter call notebookPath cellId state = None)
  /\ (Store.inherited cellId = true ->
      Store.get (Store.notebookStateByPath state) notebookPath <> Store.Member ->
      (forall notebook, Store.notebookStateByPath state !! notebookPath = Some notebook ->
                        Store.widgetStateByCellId notebook !! cellId = None) ->
      callSetter call notebookPath cellId state
      = Some (Store.ensureDraftHasNotebook state notebookPath, Store.OnMember cellId)).
Proof.
  split; [|split].
  - intros Hpath Hcell.
    destruct call as [value|value|value|value];
      unfold callSetter, withField, Store.setChatHistory, Store.setLiveResult,
        Store.setIsLoading, Store.setRefreshedCellConfig;
      match goal with
      | |- context [Store.cellData state notebookPath cellId ?write] =>
          exact (cellData_read state notebookPath cellId write Hpath Hcell)
      end.
  - intros Hmember. destruct call; apply cellData_under_member_path, Hmember.
  - intros Hcell Hpath Hfree. destruct call; apply cellData_under_member_cell; assumption.
Qed.

Lemma cell_setters_write_one_field_witness :
  (exists after,
      Store.setIsLoading "lab01.ipynb" "cell-1" true Store.initialState
      = Some (after, Store.InStore)
      /\ Store.useWidgetState after "lab01.ipynb" "cell-1"
         = Some (Store.Own {| Store.cellConfig := None; Store.chatHistory := [];
                              Store.liveResult := None; Store.isLoading := true |}))
  /\ Store.setIsLoading "constructor" "cell-1" true Store.initialState = None
  /\ Store.setIsLoading "lab01.ipynb" "constructor" true Store.initialState
     = Some (Store.ensureDraftHasNotebook Store.initialState "lab01.ipynb",
             Store.OnMember "constructor").
Proof.
  split; [|split].
  - destruct (proj1 (cell_setters_write_one_field Store.initialState "lab01.ipynb" "cell-1"
                                                  (IsLoading true)) eq_refl eq_refl)
      as [widget [after [Hread [Hset [Hafter _]]]]].
    exists after. split; [exact Hset|].
    rewrite Hafter. vm_compute in Hread. inversion Hread. reflexivity.
  - exact (proj1 (proj2 (cell_setters_write_one_field Store.initialState "constructor"
                                                      "cell-1" (IsLoading true))) eq_refl).
  - apply (proj2 (proj2 (cell_setters_write_one_field Store.initialState "lab01.ipynb"
                                                      "constructor" (IsLoading true)))).
    + reflexivity.
    + discriminate.
    + intros notebook Hnotebook. discriminate Hnotebook.
Defined.

Lemma updateNotebook_outcome (state : Store.JupytutorReactState) (notebookPath : string)
      (update : Store.NotebookState -> Store.NotebookState) :
  (Store.updateNotebook state notebookPath update = None
   <-> Store.get (Store.notebookStateByPath state) notebookPath = Store.Undefined)
  /\ (Store.get (Store.notebookStateByPath state) notebookPath = Store.Member ->
      Store.updateNotebook state notebookPath update
      = Some (state, Store.OnMember notebookPath)).
Proof.
  unfold Store.updateNotebook.
  destruct (Store.get (Store.notebookStateByPath state) notebookPath); simpl;
    repeat split; try discriminate; reflexivity.
Qed.

(** X24: the three setters of a notebook's own fields throw exactly when
    the read of the notebook finds nothing: the store holds no state for
    it and its path names no member of [Object.prototype]; they do not
    create the state, as the setters of cell state and
    [ensureDraftHasNotebook] do.  Where the read finds a member, they
    return with the field set on that member and the store as it was.
    Where the state is there, [setNotebookParsedCells] replaces the parsed
    cells and leaves the states of the cells and the other notebooks
    alone. *)
Theorem notebook_setters_need_the_notebook
        (state : Store.JupytutorReactState) (notebookPath : string) :
  (forall newConfig,
      Store.setNotebookConfig notebookPath newConfig state = None
      <-> Store.get (Store.notebookStateByPath state) notebookPath = Store.Undefined)
  /\ (forall cells,
         Store.setNotebookParsedCells notebookPath cells state = None
         <-> Store.get (Store.notebookStateByPath state) notebookPath = Store.Undefined)
  /\ (forall contextRetriever,
         Store.setGlobalNotebookContextRetriever notebookPath contextRetriever state = None
         <-> Store.get (Store.notebookStateByPath state) notebookPath = Store.Undefined)
  /\ (Store.get (Store.notebookStateByPath state) notebookPath = Store.Member ->
      (forall newConfig,
          Store.setNotebookConfig notebookPath newConfig state
          = Some (state, Store.OnMember notebookPath))
      /\ (forall cells,
            Store.setNotebookParsedCells notebookPath cells state
            = Some (state, Store.OnMember notebookPath))
      /\ (forall contextRetriever,
            Store.setGlobalNotebookContextRetriever notebookPath contextRetriever state
            = Some (state, Store.OnMember notebookPath)))
  /\ Store.get (Store.notebookStateByPath (Store.ensureDraftHasNotebook state notebookPath))
               notebookPath
     <> Store.Undefined
  /\ (forall cellId value after target,
         Store.setIsLoading notebookPath cellId value state = Some (after, target) ->
         is_Some (Store.notebookStateByPath after !! notebookPath))
  /\ (forall cells after,
         Store.setNotebookParsedCells notebookPath cells state
         = Some (after, Store.InStore) ->
         (Store.parsedCells <$> Store.notebookStateByPath after !! notebookPath)
         = Some cells
         /\ (forall path cellId,
               Store.useWidgetState after path cellId
               = Store.useWidgetState state path cellId)
         /\ (forall path, path <> notebookPath ->
                          Store.notebookStateByPath after !! path
                          = Store.notebookStateByPath state !! path)).
Proof.
  split; [intros; apply updateNotebook_outcome|].
  split; [intros; apply updateNotebook_outcome|].
  split; [intros; apply updateNotebook_outcome|].
  split; [intros Hmember; repeat split; intros; apply updateNotebook_outcome, Hmember|].
  split; [|split].
  - unfold Store.ensureDraftHasNotebook.
    destruct (Store.get (Store.notebookStateByPath state) notebookPath) eqn:Hnotebook.
    + rewrite Hnotebook. discriminate.
    + rewrite Hnotebook. discriminate.
    + cbn [Store.withNotebooks Store.notebookStateByPath]. rewrite get_inserted.
      discriminate.
  - intros cellId value after target Hset.
    unfold Store.setIsLoading, Store.cellData, Store.ensureDraftHasNotebookCell in Hset.
    set (ensured := Store.ensureDraftHasNotebook state notebookPath) in Hset.
    unfold Store.get in Hset.
    destruct (Store.notebookStateByPath ensured !! notebookPath) as [notebook|] eqn:Hnotebook.
    + destruct (Store.widgetStateByCellId notebook !! cellId) as [widget|] eqn:Hwidget.
      * cbn [mbind option_bind] in Hset. rewrite Hnotebook, Hwidget in Hset.
        inversion Hset. cbn [Store.withNotebooks Store.notebookStateByPath].
        rewrite lookup_insert_eq. eexists; reflexivity.
      * destruct (Store.inherited cellId).
        -- cbn [mbind option_bind] in Hset. rewrite Hnotebook, Hwidget in Hset.
           inversion Hset. subst after. rewrite Hnotebook. eexists; reflexivity.
        -- cbn [mbind option_bind] in Hset.
           cbn [Store.withNotebooks Store.notebookStateByPath] in Hset.
           rewrite lookup_insert_eq in Hset.
           cbn [Store.withWidgets Store.widgetStateByCellId] in Hset.
           rewrite lookup_insert_eq in Hset. inversion Hset.
           cbn [Store.withNotebooks Store.notebookStateByPath].
           rewrite lookup_insert_eq. eexists; reflexivity.
    + destruct (Store.inherited notebookPath); discriminate Hset.
  - intros cells after Hset.
    unfold Store.setNotebookParsedCells, Store.updateNotebook in Hset.
    unfold Store.get in Hset.
    destruct (Store.notebookStateByPath state !! notebookPath) as [notebook|] eqn:Hnotebook;
      [|destruct (Store.inherited notebookPath); discriminate Hset].
    inversion Hset. clear Hset.
    unfold Store.useWidgetState, Store.selectWidgetState, Store.get.
    cbn [Store.withNotebooks Store.notebookStateByPath].
    split; [rewrite lookup_insert_eq; reflexivity|]. split.
    + intros path cellId. destruct (string_dec path notebookPath) as [->|Hpath].
      * rewrite lookup_insert_eq, Hnotebook. reflexivity.
      * rewrite lookup_insert_ne by congruence. reflexivity.
    + intros path Hpath. rewrite lookup_insert_ne by congruence. reflexivity.
Qed.

Lemma notebook_setters_need_the_notebook_witness :
  Store.setNotebookParsedCells "lab01.ipynb" [sampleParsedCell code [] []] Store.initialState
  = None
  /\ Store.setNotebookParsedCells "toString" [sampleParsedCell code [] []] Store.initialState
     = Some (Store.initialState, Store.OnMember "toString").
Proof.
  split.
  - apply (proj1 (proj2 (notebook_setters_need_the_notebook Store.initialState
                                                            "lab01.ipynb"))).
    reflexivity.
  - apply (proj1 (proj2 (proj2 (proj2 (notebook_setters_need_the_notebook
                                         Store.initialState "toString")))) eq_refl).
Defined.

(** ** The user identifier *)

Lemma lacks_cons (c x : ascii) (s : string) :
  lacks c (String x s) <-> x <> c /\ lacks c s.
Proof.
  unfold lacks. cbn [cut]. destruct (Ascii.eqb_spec x c) as [->|Hne].
  - split; [discriminate|tauto].
  - destruct (cut c s) as [before after]. split.
    + intros H. inversion H. subst. tauto.
    + intros [_ H]. inversion H. subst. reflexivity.
Qed.

Lemma cut_lacks_before (c : ascii) (s before : string) (after : option string) :
  cut c s = (before, after) -> lacks c before.
Proof.
  revert before. induction s as [|a s IH]; intros before H; cbn [cut] in H.
  - inversion H. reflexivity.
  - destruct (Ascii.eqb_spec a c) as [->|Hne]; [inversion H; reflexivity|].
    destruct (cut c s) as [b r]. inversion H. subst.
    apply lacks_cons. split; [exact Hne|apply IH; reflexivity].
Qed.

Lemma lacks_append (c : ascii) (a b : string) :
  lacks c (a +:+ b) <-> lacks c a /\ lacks c b.
Proof.
  induction a as [|x a IH]; cbn [append].
  - split; [intros H; split; [reflexivity|exact H]|tauto].
  - rewrite !lacks_cons, IH. tauto.
Qed.

Lemma cut_append (c : ascii) (a b : string) :
  lacks c a -> cut c (a +:+ b) = (a +:+ fst (cut c b), snd (cut c b)).
Proof.
  induction a as [|x a IH]; intros Ha; cbn [append].
  - destruct (cut c b); reflexivity.
  - apply lacks_cons in Ha. destruct Ha as [Hx Ha]. cbn [cut].
    destruct (Ascii.eqb_spec x c) as [->|_]; [contradiction|].
    rewrite (IH Ha). reflexivity.
Qed.

Lemma cutPath_parts (s rawHost rawPath : string) :
  Index.cutPath s = (rawHost, rawPath) ->
  lacks "/" rawHost /\ (rawPath = EmptyString \/ String.prefix "/" rawPath = true).
Proof.
  revert rawHost. induction s as [|a s IH]; intros rawHost H; cbn [Index.cutPath] in H.
  - inversion H. split; [reflexivity|left; reflexivity].
  - destruct (Ascii.eqb_spec a "/") as [->|Hne].
    + inversion H. split; [reflexivity|right; destruct s; reflexivity].
    + destruct (Index.cutPath s) as [h p]. inversion H. subst.
      destruct (IH h eq_refl) as [Hh Hp]. split; [|exact Hp].
      apply lacks_cons. split; assumption.
Qed.

Lemma cutPath_append (rawHost rawPath : string) :
  lacks "/" rawHost -> String.prefix "/" rawPath = true ->
  Index.cutPath (rawHost +:+ rawPath) = (rawHost, rawPath).
Proof.
  intros Hhost Hpath. induction rawHost as [|x h IH]; cbn [append].
  - destruct rawPath as [|y p]; [discriminate Hpath|]. cbn [String.prefix] in Hpath.
    destruct (ascii_dec "/" y) as [<-|]; [reflexivity|discriminate Hpath].
  - apply lacks_cons in Hhost. destruct Hhost as [Hx Hh]. cbn [Index.cutPath].
    destruct (Ascii.eqb_spec x "/") as [->|_]; [contradiction|].
    rewrite (IH Hh). reflexivity.
Qed.

Lemma cutPath_whole (name : string) : lacks "/" name -> Index.cutPath name = (name, EmptyString).
Proof.
  induction name as [|x name IH]; intros H; [reflexivity|].
  apply lacks_cons in H. destruct H as [Hx Hname]. cbn [Index.cutPath].
  destruct (Ascii.eqb_spec x "/") as [->|_]; [contradiction|].
  rewrite (IH Hname). reflexivity.
Qed.

Lemma findMatch_found {A : Type} (m : string -> option A) (s : string) (a : A) :
  findMatch m s = Some a ->
  exists before after, s = before +:+ after /\ m after = Some a.
Proof.
  induction s as [|c s IH]; cbn [findMatch].
  - destruct (m EmptyString) eqn:Hm; [|discriminate].
    intros H. inversion H. subst. exists EmptyString, EmptyString. split; [reflexivity|exact Hm].
  - destruct (m (String c s)) eqn:Hm.
    + intros H. inversion H. subst. exists EmptyString, (String c s).
      split; [reflexivity|exact Hm].
    + intros H. destruct (IH H) as [before [after [Hs Hafter]]].
      exists (String c before), after. split; [simpl; rewrite Hs; reflexivity|exact Hafter].
Qed.

(** X25: on a DataHub path [/user/<name>/...] the user identifier is
    [<name>]; and whatever the path, an identifier that is found is not
    empty, holds no slash and follows [/user/] somewhere in the path. *)
Theorem user_identifier_follows_user (pathname : string) :
  (forall name rest,
      pathname = "/user/" +:+ name +:+ rest ->
      name <> EmptyString -> lacks "/" name ->
      rest = EmptyString \/ String.prefix "/" rest = true ->
      Index.getUserIdentifierFromURL pathname = Some name)
  /\ (forall name,
         Index.getUserIdentifierFromURL pathname = Some name ->
         name <> EmptyString /\ lacks "/" name
         /\ includes pathname ("/user/" +:+ name) = true).
Proof.
  split.
  - intros name rest -> Hname Hslash Hrest. unfold Index.getUserIdentifierFromURL.
    assert (Hat : Index.atUser ("/user/" +:+ name +:+ rest) = Some name).
    { unfold Index.atUser. rewrite (prefix_append "/user/" (name +:+ rest)).
      change (JS.drop 6 ("/user/" +:+ name +:+ rest)) with (name +:+ rest).
      assert (Hcut : Index.cutPath (name +:+ rest) = (name, rest)).
      { destruct Hrest as [->|Hrest];
          [rewrite append_empty; apply cutPath_whole, Hslash
          |apply cutPath_append; assumption]. }
      rewrite Hcut. destruct (String.eqb_spec name EmptyString); [contradiction|reflexivity]. }
    change ("/user/" +:+ name +:+ rest) with (String "/" ("user/" +:+ name +:+ rest)) in *.
    cbn [findMatch]. rewrite Hat. reflexivity.
  - intros name Hfound. unfold Index.getUserIdentifierFromURL in Hfound.
    apply findMatch_found in Hfound. destruct Hfound as [before [after [-> Hat]]].
    unfold Index.atUser in Hat.
    destruct (String.prefix "/user/" after) eqn:Hprefix; [|discriminate Hat].
    destruct (Index.cutPath (JS.drop 6 after)) as [found rest] eqn:Hcut.
    destruct (String.eqb_spec found EmptyString) as [|Hne]; [discriminate Hat|].
    inversion Hat. subst found. split; [exact Hne|].
    split; [apply (cutPath_parts _ _ _ Hcut)|].
    apply includes_append_r.
    rewrite (prefix_text _ _ Hprefix). change (String.length "/user/") with 6%nat.
    rewrite (cutPath_text _ _ _ Hcut), <- append_assoc.
    apply includes_append_l, includes_refl.
Qed.

Lemma user_identifier_follows_user_witness :
  Index.getUserIdentifierFromURL "/user/ada/lab/tree/hw01.ipynb" = Some "ada".
Proof.
  apply (proj1 (user_identifier_follows_user "/user/ada/lab/tree/hw01.ipynb")
               "ada" "/lab/tree/hw01.ipynb" eq_refl).
  - discriminate.
  - reflexivity.
  - right. reflexivity.
Defined.
